(** * webcrawler: a shallow embedding of [crawl.py]

    The development follows the source file top-down:

    - [PyStr]   the [str] methods the crawler calls ([lower], [rstrip],
                [strip], [find]/[split], the [in] test), on ASCII text;
    - [UrlLib]  [urllib.parse]: [urlsplit], [urlparse], [urlunparse] and
                [urljoin], transcribed from CPython's [urllib/parse.py];
    - [Soup]    the tree [BeautifulSoup(html, "html.parser")] returns and
                its [find], [find_all], [get] and [get_text];
    - [Crawl]   [normalize_url], the extraction helpers, and
                [AsyncCrawler] as a transition system over the tasks of the
                event loop;
    - [Spec]    the vocabulary of the properties: the reservation decision,
                the count of fetches in flight, the invariants [wf] and
                [live];
    - [Fixture] small documents, answers and schedules the examples run on.

    The theorems follow: [StrFacts] and [UrlFacts] on the library models,
    [Normalize] on [normalize_url], [Counting] and [Invariant] on the
    semaphore and the ledger, [Cancellation] on what happens once the page
    limit is hit, and [Claims], one theorem per property of the
    specification.  After them come further properties of the code:
    [Steps], [Family] and [Termination] on the runs of the crawler,
    [TextFacts], [Suffix] and [JoinFacts] on text and addresses, and the
    theorems themselves in [Keys] ([normalize_url]), [Pages] (the extraction
    helpers and [get_html]) and [Runs] ([AsyncCrawler]). *)

From Stdlib Require Import Ascii String ZArith Lia.
From stdpp Require Import gmap strings list fin_maps.

Local Open Scope Z_scope.

(* ===================================================================== *)
(** ** Python [str] methods *)
(* ===================================================================== *)

Module PyStr.

(** Text is a [string] of 8-bit characters; the crawler's text is read as
    ASCII (on other characters Python's [lower] and [strip] follow the
    Unicode tables, which are not part of this model). *)

Definition is_upper (c : ascii) : bool :=
  (65 <=? nat_of_ascii c)%nat && (nat_of_ascii c <=? 90)%nat.

Definition is_lower (c : ascii) : bool :=
  (97 <=? nat_of_ascii c)%nat && (nat_of_ascii c <=? 122)%nat.

Definition is_digit (c : ascii) : bool :=
  (48 <=? nat_of_ascii c)%nat && (nat_of_ascii c <=? 57)%nat.

(** [c.isascii() and c.isalpha()] *)
Definition is_alpha (c : ascii) : bool := is_upper c || is_lower c.

Definition lower_char (c : ascii) : ascii :=
  if is_upper c then ascii_of_nat (nat_of_ascii c + 32) else c.

(** [s.lower()] *)
Fixpoint lower (s : string) : string :=
  match s with
  | EmptyString => EmptyString
  | String c r => String (lower_char c) (lower r)
  end.

(** [c in s] for a one-character [c] *)
Fixpoint has_char (c : ascii) (s : string) : bool :=
  match s with
  | EmptyString => false
  | String d r => Ascii.eqb d c || has_char c r
  end.

Definition char_in (set : string) : ascii -> bool := fun c => has_char c set.

(** [s.lstrip(chars)], [s.rstrip(chars)] and [s.strip(chars)], the set of
    characters given as a predicate *)
Fixpoint lstrip (p : ascii -> bool) (s : string) : string :=
  match s with
  | EmptyString => EmptyString
  | String c r => if p c then lstrip p r else s
  end.

Fixpoint rstrip (p : ascii -> bool) (s : string) : string :=
  match s with
  | EmptyString => EmptyString
  | String c r =>
      match rstrip p r with
      | EmptyString => if p c then EmptyString else String c EmptyString
      | r' => String c r'
      end
  end.

Definition strip (p : ascii -> bool) (s : string) : string :=
  rstrip p (lstrip p s).

(** [s.replace(c, "")] for every character [c] with [p c] *)
Fixpoint remove (p : ascii -> bool) (s : string) : string :=
  match s with
  | EmptyString => EmptyString
  | String c r => if p c then remove p r else String c (remove p r)
  end.

(** [s.partition(c)] when [c in s]: the text before the first [c] and the
    text after it; [None] when [c] does not occur ([s.find(c) == -1]) *)
Fixpoint partition (c : ascii) (s : string) : option (string * string) :=
  match s with
  | EmptyString => None
  | String d r =>
      if Ascii.eqb d c then Some (EmptyString, r)
      else match partition c r with
           | Some (a, b) => Some (String d a, b)
           | None => None
           end
  end.

(** the longest prefix without a character of [p], and the rest *)
Fixpoint break (p : ascii -> bool) (s : string) : string * string :=
  match s with
  | EmptyString => (EmptyString, EmptyString)
  | String c r =>
      if p c then (EmptyString, s)
      else let '(a, b) := break p r in (String c a, b)
  end.

(** [s.split(c)]: never the empty list *)
Fixpoint split (c : ascii) (s : string) : list string :=
  match s with
  | EmptyString => [EmptyString]
  | String d r =>
      if Ascii.eqb d c then EmptyString :: split c r
      else match split c r with
           | h :: t => String d h :: t
           | [] => [String d EmptyString]
           end
  end.

(** [sep.join(parts)] *)
Fixpoint join (sep : string) (parts : list string) : string :=
  match parts with
  | [] => EmptyString
  | [x] => x
  | x :: rest => x +:+ sep +:+ join sep rest
  end.

(** [s.startswith(pre)] *)
Fixpoint startswith (pre s : string) : bool :=
  match pre, s with
  | EmptyString, _ => true
  | String a p, String b r => Ascii.eqb a b && startswith p r
  | String _ _, EmptyString => false
  end.

(** [sub in s] *)
Fixpoint contains (sub s : string) : bool :=
  startswith sub s ||
  match s with
  | EmptyString => false
  | String _ r => contains sub r
  end.

(** truthiness of a [str] *)
Definition nonempty (s : string) : bool :=
  match s with EmptyString => false | _ => true end.

(** [s[-1:] == c] *)
Fixpoint endswith_char (c : ascii) (s : string) : bool :=
  match s with
  | EmptyString => false
  | String d EmptyString => Ascii.eqb d c
  | String _ r => endswith_char c r
  end.

(** Python's whitespace for [str.strip()] without arguments, on ASCII:
    tab, LF, VT, FF, CR, FS, GS, RS, US and space. *)
Definition is_space (c : ascii) : bool :=
  let n := nat_of_ascii c in
  ((9 <=? n)%nat && (n <=? 13)%nat) || ((28 <=? n)%nat && (n <=? 32)%nat).

End PyStr.

(* ===================================================================== *)
(** ** [urllib.parse] *)
(* ===================================================================== *)

Module UrlLib.
Import PyStr.

(** The library is not part of the repository; the definitions below
    transcribe CPython's [urllib/parse.py] for [str] arguments.  A
    [ValueError] is [None].  Two checks of the library are left out, both of
    which can only raise [ValueError]: the validation of a bracketed IPv6
    host ([_check_bracketed_netloc]) and the NFKC check of a non-ASCII
    netloc ([_checknetloc], a no-op on ASCII). *)

Definition uses_relative : list string :=
  [""; "ftp"; "http"; "gopher"; "nntp"; "imap"; "wais"; "file"; "https";
   "shttp"; "mms"; "prospero"; "rtsp"; "rtspu"; "sftp"; "svn"; "svn+ssh";
   "ws"; "wss"].

Definition uses_netloc : list string :=
  [""; "ftp"; "http"; "gopher"; "nntp"; "telnet"; "imap"; "wais"; "file";
   "mms"; "https"; "shttp"; "snews"; "prospero"; "rtsp"; "rtspu"; "rsync";
   "svn"; "svn+ssh"; "sftp"; "nfs"; "git"; "git+ssh"; "ws"; "wss"].

Definition uses_params : list string :=
  [""; "ftp"; "hdl"; "prospero"; "http"; "imap"; "https"; "shttp"; "rtsp";
   "rtspu"; "sip"; "sips"; "mms"; "sftp"; "tel"].

Definition is_scheme_char (c : ascii) : bool :=
  is_lower c || is_upper c || is_digit c || char_in "+-." c.

(** [_WHATWG_C0_CONTROL_OR_SPACE]: the characters 0x00 .. 0x20 *)
Definition is_c0_or_space (c : ascii) : bool := (nat_of_ascii c <=? 32)%nat.

(** [_UNSAFE_URL_BYTES_TO_REMOVE]: tab, CR, LF *)
Definition is_unsafe (c : ascii) : bool :=
  let n := nat_of_ascii c in
  (n =? 9)%nat || (n =? 13)%nat || (n =? 10)%nat.

Definition in_list (s : string) (l : list string) : bool :=
  bool_decide (s ∈ l).

Fixpoint all_chars (p : ascii -> bool) (s : string) : bool :=
  match s with
  | EmptyString => true
  | String c r => p c && all_chars p r
  end.

Fixpoint drop_chars (n : nat) (s : string) : string :=
  match n, s with
  | O, _ => s
  | S n', String _ r => drop_chars n' r
  | S _, EmptyString => EmptyString
  end.

(** [s.rpartition(c)] when [c in s]: the text before the last [c] and the
    text after it *)
Fixpoint rpartition (c : ascii) (s : string) : option (string * string) :=
  match s with
  | EmptyString => None
  | String d r =>
      match rpartition c r with
      | Some (a, b) => Some (String d a, b)
      | None => if Ascii.eqb d c then Some (EmptyString, r) else None
      end
  end.

Record SplitResult := mkSplit {
  s_scheme : string; s_netloc : string; s_path : string;
  s_query : string; s_fragment : string }.

Record ParseResult := mkParse {
  scheme : string; netloc : string; path : string;
  params : string; query : string; fragment : string }.

(** [_splitnetloc(url, start)]: the domain part ends at the first of
    [/], [?], [#] at or after [start] *)
Definition _splitnetloc (url : string) (start : nat) : string * string :=
  break (char_in "/?#") (drop_chars start url).

(** the [i = url.find(':')] block of [urlsplit]: a scheme is recognised
    when the text before the first colon is not empty, starts with a letter
    and consists of scheme characters *)
Definition split_scheme (url scheme : string) : string * string :=
  match partition ":" url with
  | Some (String c0 _ as pre, rest) =>
      if is_alpha c0 && all_chars is_scheme_char pre
      then (lower pre, rest)
      else (scheme, url)
  | _ => (scheme, url)
  end.

(** the [if url[:2] == '//'] block of [urlsplit]; [None] is the
    [ValueError] for a netloc with one square bracket but not the other *)
Definition split_netloc (url : string) : option (string * string) :=
  if startswith "//" url then
    let '(netloc, url) := _splitnetloc url 2 in
    if xorb (has_char "[" netloc) (has_char "]" netloc)
    then None
    else Some (netloc, url)
  else Some (EmptyString, url).

(** [if c in url: url, rest = url.split(c, 1)] *)
Definition cut (c : ascii) (url : string) : string * string :=
  match partition c url with
  | Some (u, rest) => (u, rest)
  | None => (url, EmptyString)
  end.

Definition urlsplit (url scheme : string) : option SplitResult :=
  let url := lstrip is_c0_or_space url in
  let scheme := strip is_c0_or_space scheme in
  let url := remove is_unsafe url in
  let scheme := remove is_unsafe scheme in
  let '(scheme, url) := split_scheme url scheme in
  match split_netloc url with
  | None => None
  | Some (netloc, url) =>
      let '(url, fragment) := cut "#" url in
      let '(url, query) := cut "?" url in
      Some (mkSplit scheme netloc url query fragment)
  end.

Definition _splitparams (url : string) : string * string :=
  if has_char "/" url then
    match rpartition "/" url with
    | Some (head, tail) =>
        match partition ";" tail with
        | Some (a, b) => (head +:+ "/" +:+ a, b)
        | None => (url, EmptyString)
        end
    | None => (url, EmptyString)
    end
  else
    match partition ";" url with
    | Some (a, b) => (a, b)
    | None => (url, EmptyString)
    end.

Definition urlparse_with (url scheme : string) : option ParseResult :=
  match urlsplit url scheme with
  | None => None
  | Some r =>
      let '(url, params) :=
        if in_list (s_scheme r) uses_params && has_char ";" (s_path r)
        then _splitparams (s_path r)
        else (s_path r, EmptyString) in
      Some (mkParse (s_scheme r) (s_netloc r) url params
                    (s_query r) (s_fragment r))
  end.

(** [urlparse(url)], the default scheme being [''] *)
Definition urlparse (url : string) : option ParseResult :=
  urlparse_with url EmptyString.

Definition urlunsplit (scheme netloc url query fragment : string) : string :=
  let url :=
    if nonempty netloc ||
       (nonempty scheme && in_list scheme uses_netloc
        && negb (startswith "//" url))
    then
      let url :=
        if nonempty url && negb (startswith "/" url)
        then "/" +:+ url else url in
      "//" +:+ netloc +:+ url
    else url in
  let url := if nonempty scheme then scheme +:+ ":" +:+ url else url in
  let url := if nonempty query then url +:+ "?" +:+ query else url in
  if nonempty fragment then url +:+ "#" +:+ fragment else url.

Definition urlunparse (r : ParseResult) : string :=
  let url :=
    if nonempty (params r) then path r +:+ ";" +:+ params r else path r in
  urlunsplit (scheme r) (netloc r) url (query r) (fragment r).

(** [segments[1:-1] = filter(None, segments[1:-1])] *)
Definition drop_inner_empty (segments : list string) : list string :=
  match segments with
  | [] => []
  | [x] => [x]
  | x :: rest =>
      x :: filter (fun s => nonempty s = true) (removelast rest)
        ++ [List.last rest EmptyString]
  end.

(** the loop over [segments] that builds [resolved_path] *)
Definition resolve_segments (segments : list string) : list string :=
  fold_left
    (fun resolved seg =>
       if String.eqb seg ".." then removelast resolved
       else if String.eqb seg "." then resolved
       else resolved ++ [seg])
    segments [].

Definition urljoin (base url : string) : option string :=
  if negb (nonempty base) then Some url
  else if negb (nonempty url) then Some base
  else
    match urlparse_with base EmptyString with
    | None => None
    | Some b =>
        match urlparse_with url (scheme b) with
        | None => None
        | Some u =>
            if negb (String.eqb (scheme u) (scheme b))
               || negb (in_list (scheme u) uses_relative)
            then Some url
            else if in_list (scheme u) uses_netloc && nonempty (netloc u)
            then Some (urlunparse u)
            else
              let netloc' :=
                if in_list (scheme u) uses_netloc then netloc b
                else netloc u in
              if negb (nonempty (path u)) && negb (nonempty (params u))
              then
                let query' :=
                  if negb (nonempty (query u)) then query b else query u in
                Some (urlunparse
                        (mkParse (scheme u) netloc' (path b) (params b)
                                 query' (fragment u)))
              else
                let base_parts := split "/" (path b) in
                let base_parts :=
                  if nonempty (List.last base_parts EmptyString)
                  then removelast base_parts else base_parts in
                let segments :=
                  if startswith "/" (path u) then split "/" (path u)
                  else drop_inner_empty (base_parts ++ split "/" (path u)) in
                let resolved_path := resolve_segments segments in
                let last_seg := List.last segments EmptyString in
                let resolved_path :=
                  if String.eqb last_seg "." || String.eqb last_seg ".."
                  then resolved_path ++ [EmptyString] else resolved_path in
                let joined := join "/" resolved_path in
                let joined := if nonempty joined then joined else "/" in
                Some (urlunparse
                        (mkParse (scheme u) netloc' joined (params u)
                                 (query u) (fragment u)))
        end
    end.

End UrlLib.

(* ===================================================================== *)
(** ** The parse tree of [bs4] *)
(* ===================================================================== *)

Module Soup.
Import PyStr.

(** [BeautifulSoup(html, "html.parser")] is a tree of [Tag]s and strings.
    [Text] is a [NavigableString] (or [CData]), the strings [get_text]
    collects; [Special] stands for the string classes it skips ([Comment],
    [Declaration], [Doctype], the contents of [script] and [style], ...).
    The [BeautifulSoup] object itself is the [Tag] named [[document]]. *)
#[warnings="-register-all"]
Inductive node : Type :=
| Tag (name : string) (attrs : list (string * string)) (contents : list node)
| Text (s : string)
| Special (s : string).

(** [tag.descendants]: every node below [tag], in document order *)
Fixpoint descendants (n : node) : list node :=
  match n with
  | Tag _ _ contents => flat_map (fun c => c :: descendants c) contents
  | _ => []
  end.

Definition is_tag (name : string) (n : node) : bool :=
  match n with
  | Tag nm _ _ => String.eqb nm name
  | _ => false
  end.

(** [tag.find_all(name)] and [tag.find(name)]: the descendants that are
    tags of that name, in document order, and the first of them *)
Definition find_all (name : string) (n : node) : list node :=
  List.filter (is_tag name) (descendants n).

Definition find (name : string) (n : node) : option node :=
  head (find_all name n).

(** [tag.get(key)]: the attribute's value, [None] when it is absent *)
Fixpoint lookup_attr (key : string) (attrs : list (string * string))
  : option string :=
  match attrs with
  | [] => None
  | (k, v) :: rest => if String.eqb k key then Some v else lookup_attr key rest
  end.

Definition get (key : string) (n : node) : option string :=
  match n with
  | Tag _ attrs _ => lookup_attr key attrs
  | _ => None
  end.

(** [tag.get_text(strip=True)]: the descendant strings, each stripped of
    whitespace, the empty ones dropped, joined without a separator *)
Definition stripped_strings (n : node) : list string :=
  flat_map
    (fun d =>
       match d with
       | Text s =>
           let s' := strip is_space s in
           if nonempty s' then [s'] else []
       | _ => []
       end)
    (descendants n).

Definition get_text_strip (n : node) : string :=
  join EmptyString (stripped_strings n).

End Soup.

(* ===================================================================== *)
(** ** [crawl.py] *)
(* ===================================================================== *)

Module Crawl.
Import PyStr UrlLib Soup.

(** *** [normalize_url] (lines 7-11) *)

Definition is_slash : ascii -> bool := char_in "/".

Definition normalize_url (url : string) : option string :=
  match urlparse url with
  | None => None
  | Some parsed_url =>
      let full_path := netloc parsed_url +:+ path parsed_url in
      let full_path := rstrip is_slash full_path in
      Some (lower full_path)
  end.

(** *** The extraction helpers (lines 14-71), on the parsed tree *)

Definition h1_of_soup (soup : node) : string :=
  let h1_tag := find "h1" soup in
  match h1_tag with
  | Some t => get_text_strip t
  | None => EmptyString
  end.

Definition first_paragraph_of_soup (soup : node) : string :=
  let main_section := find "main" soup in
  let first_p :=
    match main_section with
    | Some m => find "p" m
    | None => find "p" soup
    end in
  match first_p with
  | Some p => get_text_strip p
  | None => EmptyString
  end.

(** the loop of [get_urls_from_html] and of [get_images_from_html]: an
    element without the attribute, or with an empty one, is passed over; a
    reference on which [urljoin] raises is printed and dropped *)
Definition resolve_all (key base_url : string) (elements : list node)
  : list string :=
  flat_map
    (fun el =>
       match get key el with
       | Some ref =>
           if nonempty ref then
             match urljoin base_url ref with
             | Some absolute_url => [absolute_url]
             | None => []
             end
           else []
       | None => []
       end)
    elements.

Definition urls_of_soup (soup : node) (base_url : string) : list string :=
  let anchors := find_all "a" soup in
  resolve_all "href" base_url anchors.

Definition images_of_soup (soup : node) (base_url : string) : list string :=
  let images := find_all "img" soup in
  resolve_all "src" base_url images.

Record page_info := mkPage {
  url : string;
  h1 : string;
  first_paragraph : string;
  outgoing_links : list string;
  image_urls : list string }.

Section WithParser.

(** [BeautifulSoup(html, "html.parser")]: the parser of the [bs4]
    library, which is not part of the repository. *)
Variable BeautifulSoup : string -> node.

Definition get_h1_from_html (html : string) : string :=
  h1_of_soup (BeautifulSoup html).

Definition get_first_paragraph_from_html (html : string) : string :=
  first_paragraph_of_soup (BeautifulSoup html).

Definition get_urls_from_html (html base_url : string) : list string :=
  urls_of_soup (BeautifulSoup html) base_url.

Definition get_images_from_html (html base_url : string) : list string :=
  images_of_soup (BeautifulSoup html) base_url.

Definition extract_page_data (html page_url : string) : page_info :=
  {| url := page_url;
     h1 := get_h1_from_html html;
     first_paragraph := get_first_paragraph_from_html html;
     outgoing_links := get_urls_from_html html page_url;
     image_urls := get_images_from_html html page_url |}.

End WithParser.

(** *** [AsyncCrawler] (lines 74-178)

    A run of the crawler is a set of [asyncio] tasks, each executing
    [crawl_page] on one address, scheduled cooperatively: a task runs
    without interruption from one suspension point to the next.  The
    suspension points of [crawl_page] are the entry of
    [async with self.semaphore] when no slot is free, the network request
    of [get_html], and [asyncio.gather].  [self.lock] is only ever held
    over code without a suspension point, so it is always free when a
    task asks for it, and the code under it is one uninterrupted piece of
    a step. *)

(** where a task is suspended; [normalized_url] is the local of that name *)
Inductive pc : Type :=
| Start                                   (* created, not yet run *)
| WaitSem (normalized_url : string)       (* waiting for a semaphore slot *)
| Fetching (normalized_url : string)      (* inside [get_html], slot held *)
| Gathering (children : list nat)         (* awaiting [asyncio.gather] *)
| Done.

(** an [asyncio.Task] wrapping [crawl_page(t_url)]; [t_must_cancel] is set
    by [task.cancel()] and makes the task end with [CancelledError] when it
    is next resumed *)
Record task := mkTask {
  t_url : string;
  t_pc : pc;
  t_must_cancel : bool }.

(** the fields of [AsyncCrawler] ([semaphore] is the semaphore's counter),
    together with the tasks of the event loop: task [0] is the coroutine
    [crawl_page(base_url)] that [crawl] awaits, which is never in
    [all_tasks]; [next_task] is the next unused task identity *)
Record crawler := mkCrawler {
  base_url : string;
  base_domain : string;
  page_data : gmap string page_info;
  max_concurrency : Z;
  max_pages : Z;
  semaphore : Z;
  should_stop : bool;
  all_tasks : gset nat;
  tasks : gmap nat task;
  next_task : nat }.

Definition with_page_data (d : gmap string page_info) (w : crawler) :=
  mkCrawler (base_url w) (base_domain w) d (max_concurrency w) (max_pages w)
    (semaphore w) (should_stop w) (all_tasks w) (tasks w) (next_task w).

Definition with_semaphore (v : Z) (w : crawler) :=
  mkCrawler (base_url w) (base_domain w) (page_data w) (max_concurrency w)
    (max_pages w) v (should_stop w) (all_tasks w) (tasks w) (next_task w).

Definition with_should_stop (b : bool) (w : crawler) :=
  mkCrawler (base_url w) (base_domain w) (page_data w) (max_concurrency w)
    (max_pages w) (semaphore w) b (all_tasks w) (tasks w) (next_task w).

Definition with_all_tasks (s : gset nat) (w : crawler) :=
  mkCrawler (base_url w) (base_domain w) (page_data w) (max_concurrency w)
    (max_pages w) (semaphore w) (should_stop w) s (tasks w) (next_task w).

Definition with_tasks (ts : gmap nat task) (w : crawler) :=
  mkCrawler (base_url w) (base_domain w) (page_data w) (max_concurrency w)
    (max_pages w) (semaphore w) (should_stop w) (all_tasks w) ts
    (next_task w).

Definition with_next_task (n : nat) (w : crawler) :=
  mkCrawler (base_url w) (base_domain w) (page_data w) (max_concurrency w)
    (max_pages w) (semaphore w) (should_stop w) (all_tasks w) (tasks w) n.

(** [__init__] followed by the call [crawl_page(base_url)] of [crawl]:
    [urlparse] may raise, and [asyncio.Semaphore] raises on a negative
    value *)
Definition init (base_url : string) (max_concurrency max_pages : Z)
  : option crawler :=
  match urlparse base_url with
  | None => None
  | Some r =>
      if max_concurrency <? 0 then None
      else Some {| base_url := base_url;
                   base_domain := netloc r;
                   page_data := ∅;
                   max_concurrency := max_concurrency;
                   max_pages := max_pages;
                   semaphore := max_concurrency;
                   should_stop := false;
                   all_tasks := ∅;
                   tasks := {[ 0%nat := mkTask base_url Start false ]};
                   next_task := 1 |}
  end.

Definition set_pc (p : pc) (t : task) : task :=
  mkTask (t_url t) p (t_must_cancel t).

(** the task returns (or ends with an exception, which [gather] absorbs) *)
Definition finish (tid : nat) (w : crawler) : crawler :=
  with_tasks (alter (set_pc Done) tid (tasks w)) w.

Definition suspend (tid : nat) (p : pc) (w : crawler) : crawler :=
  with_tasks (alter (set_pc p) tid (tasks w)) w.

(** [task.done()] and [task.cancel()] *)
Definition task_done (t : task) : bool :=
  match t_pc t with Done => true | _ => false end.

Definition task_cancel (t : task) : task :=
  mkTask (t_url t) (t_pc t) true.

(** lines 103-105 *)
Definition cancel_all_tasks (w : crawler) : crawler :=
  with_tasks
    (map_imap
       (fun tid t =>
          Some (if decide (tid ∈ all_tasks w)
                then (if negb (task_done t) then task_cancel t else t)
                else t))
       (tasks w))
    w.

(** [add_page_visit] (lines 94-107) *)
Definition add_page_visit (normalized_url : string) (w : crawler)
  : bool * crawler :=
  if should_stop w then (false, w)
  else if bool_decide (normalized_url ∈ dom (page_data w)) then (false, w)
  else if Z.of_nat (size (page_data w)) >=? max_pages w then
    let w := with_should_stop true w in
    let w := cancel_all_tasks w in
    (false, w)
  else (true, w).

(** the outcome of the request of [get_html]: [session.get] or
    [response.text()] raises, or a response arrives *)
Inductive fetch_outcome : Type :=
| Raised
| Response (status : Z) (content_type : option string) (text : string).

(** [get_html] (lines 109-126) *)
Definition get_html (o : fetch_outcome) : option string :=
  match o with
  | Raised => None
  | Response status header text =>
      if status >? 399 then None
      else
        let content_type := default EmptyString header in
        if negb (contains "text/html" content_type) then None
        else Some text
  end.

(** entering and leaving [async with self.semaphore] *)
Definition acquire (tid : nat) (normalized_url : string) (w : crawler)
  : crawler :=
  if 0 <? semaphore w
  then suspend tid (Fetching normalized_url)
         (with_semaphore (semaphore w - 1) w)
  else suspend tid (WaitSem normalized_url) w.

Definition release (w : crawler) : crawler :=
  with_semaphore (semaphore w + 1) w.

(** line 151, under [self.lock] *)
Definition record_page (normalized_url : string) (info : page_info)
    (w : crawler) : crawler :=
  with_page_data (<[normalized_url := info]> (page_data w)) w.

(** lines 158-166: one task per address, each added to [all_tasks]; the
    parent then awaits them, unless there is none *)
Definition new_tasks (first : nat) (urls : list string)
  : list (nat * task) :=
  zip (seq first (length urls)) ((fun u => mkTask u Start false) <$> urls).

Definition spawn (tid : nat) (next_urls : list string) (w : crawler)
  : crawler :=
  let created := new_tasks (next_task w) next_urls in
  let w := with_tasks (list_to_map created ∪ tasks w) w in
  let w := with_all_tasks (list_to_set created.*1 ∪ all_tasks w) w in
  let w := with_next_task (next_task w + length next_urls)%nat w in
  match created.*1 with
  | [] => finish tid w
  | children => suspend tid (Gathering children) w
  end.

Section WithParser.

Variable BeautifulSoup : string -> node.

(** [crawl_page], lines 129-142: from the call to the request *)
Definition crawl_page_enter (tid : nat) (current_url : string)
    (w : crawler) : crawler :=
  if should_stop w then finish tid w
  else
    match urlparse current_url with
    | None => finish tid w
    | Some current_url_obj =>
        if negb (String.eqb (netloc current_url_obj) (base_domain w))
        then finish tid w
        else
          match normalize_url current_url with
          | None => finish tid w
          | Some normalized_url =>
              let '(is_new, w) := add_page_visit normalized_url w in
              if negb is_new then finish tid w
              else acquire tid normalized_url w
          end
    end.

(** [crawl_page], lines 145-166: from the answer of the request to
    [gather] *)
Definition crawl_page_fetched (tid : nat) (current_url normalized_url : string)
    (o : fetch_outcome) (w : crawler) : crawler :=
  match get_html o with
  | None => finish tid (release w)
  | Some html =>
      let page_info := extract_page_data BeautifulSoup html current_url in
      let w := record_page normalized_url page_info w in
      let next_urls := get_urls_from_html BeautifulSoup html (base_url w) in
      let w := release w in
      if should_stop w then finish tid w
      else spawn tid next_urls w
  end.

Definition all_done (children : list nat) (w : crawler) : bool :=
  forallb
    (fun c => match tasks w !! c with
              | Some t => task_done t
              | None => true
              end)
    children.

(** lines 167-169 *)
Definition discard_tasks (children : list nat) (w : crawler) : crawler :=
  with_all_tasks (all_tasks w ∖ list_to_set children) w.

(** Task [tid] is resumed and runs to its next suspension point; [o] is
    what the network answers if the task is inside [get_html].  [None]:
    the task cannot be resumed (it is blocked, done or does not exist).
    A task whose cancellation was requested ends where it is suspended:
    [CancelledError] is not an [Exception], so [get_html] does not catch
    it, and the semaphore's context manager gives the slot back. *)
Definition run_task (o : fetch_outcome) (tid : nat) (w : crawler)
  : option crawler :=
  match tasks w !! tid with
  | None => None
  | Some t =>
      match t_pc t with
      | Start =>
          if t_must_cancel t then Some (finish tid w)
          else Some (crawl_page_enter tid (t_url t) w)
      | WaitSem normalized_url =>
          if t_must_cancel t then Some (finish tid w)
          else if 0 <? semaphore w
          then Some (suspend tid (Fetching normalized_url)
                       (with_semaphore (semaphore w - 1) w))
          else None
      | Fetching normalized_url =>
          if t_must_cancel t then Some (finish tid (release w))
          else Some (crawl_page_fetched tid (t_url t) normalized_url o w)
      | Gathering children =>
          if all_done children w
          then Some (finish tid (discard_tasks children w))
          else None
      | Done => None
      end
  end.

Definition step (w w' : crawler) : Prop :=
  ∃ o tid, run_task o tid w = Some w'.

(** the worlds a run can be in *)
Definition reachable (w0 : crawler) : crawler -> Prop := rtc step w0.

(** a schedule: which task is resumed, and with which answer *)
Fixpoint run_schedule (sched : list (nat * fetch_outcome)) (w : crawler)
  : option crawler :=
  match sched with
  | [] => Some w
  | (tid, o) :: rest =>
      match run_task o tid w with
      | Some w' => run_schedule rest w'
      | None => None
      end
  end.

(** [crawl] has returned: the root coroutine is done *)
Definition finished (w : crawler) : Prop :=
  ∃ t, tasks w !! 0%nat = Some t ∧ t_pc t = Done.

(** [crawl] (lines 171-173) under a schedule: the mapping returned once
    the root coroutine has ended; [None] when the schedule cannot be run or
    does not take the root to its end *)
Definition crawl (sched : list (nat * fetch_outcome)) (w : crawler)
  : option (gmap string page_info) :=
  match run_schedule sched w with
  | Some w' =>
      match tasks w' !! 0%nat with
      | Some t => if task_done t then Some (page_data w') else None
      | None => None
      end
  | None => None
  end.

(** [crawl_site_async] (lines 176-178); [None] also when the constructor
    raises *)
Definition crawl_site_async (base_url : string) (max_concurrency max_pages : Z)
    (sched : list (nat * fetch_outcome)) : option (gmap string page_info) :=
  match init base_url max_concurrency max_pages with
  | Some crawler => crawl sched crawler
  | None => None
  end.

End WithParser.

End Crawl.

(* ===================================================================== *)
(** ** The vocabulary of the specification and of the proofs *)
(* ===================================================================== *)

Module Spec.
Import PyStr UrlLib Soup Crawl.

(** §4.1, [tryReserve]: the three answers of a reservation.  [Granted] is
    the spec's "admitted"; a set stop flag is answered like an address
    already visited. *)
Inductive reservation : Type := Granted | AlreadyVisited | LimitReached.

(** the three-way decision as §4.1 words it *)
Definition tryReserve (address : string) (w : crawler) : reservation :=
  if should_stop w then AlreadyVisited
  else if bool_decide (address ∈ dom (page_data w)) then AlreadyVisited
  else if bool_decide (max_pages w ≤ Z.of_nat (size (page_data w)))
  then LimitReached
  else Granted.

(** §6, "page unusable": a transport error, a status of 400 or more, or a
    content type that does not name HTML *)
Definition unusable (o : fetch_outcome) : Prop :=
  match o with
  | Raised => True
  | Response status header _ =>
      400 ≤ status ∨ contains "text/html" (default EmptyString header) = false
  end.

(** [x] is the first tag named [name] below [scope], in document order *)
Definition first_tag (name : string) (scope x : node) : Prop :=
  ∃ before after,
    descendants scope = before ++ x :: after ∧ is_tag name x = true ∧
    ∀ y, y ∈ before → is_tag name y = false.

(** there is no tag named [name] below [scope] *)
Definition no_tag (name : string) (scope : node) : Prop :=
  ∀ y, y ∈ descendants scope → is_tag name y = false.

(** a key that [urlparse] reads back as a bare path: it does not start
    with a blank, a control character or [//], and holds no [:] and no [;] *)
Definition plain_key (n : string) : bool :=
  match n with
  | EmptyString => true
  | String c _ => negb (is_c0_or_space c)
  end
  && negb (startswith "//" n)
  && negb (has_char ":" n)
  && negb (has_char ";" n).

(** the address as [urlsplit] reads it: leading blanks and the unsafe
    characters gone *)
Definition cleaned (url : string) : string :=
  remove is_unsafe (lstrip is_c0_or_space url).

Definition is_not (c : ascii) : ascii -> bool :=
  fun d => negb (Ascii.eqb d c).

(** the tasks inside [get_html]: they hold the semaphore's slots *)
Definition is_fetching_pc (p : pc) : bool :=
  match p with Fetching _ => true | _ => false end.

Definition is_fetching (t : task) : bool := is_fetching_pc (t_pc t).

Definition count (P : task -> bool) (m : gmap nat task) : nat :=
  size (filter (fun kv => P kv.2 = true) m).

Definition fetching (w : crawler) : nat := count is_fetching (tasks w).

Definition b2n (b : bool) : nat := if b then 1%nat else 0%nat.

Definition b2z (b : bool) : Z := if b then 1 else 0.

(** the address [u] is on the seed's host and [k] is its key *)
Definition in_scope (w : crawler) (u k : string) : Prop :=
  ∃ r, urlparse u = Some r ∧ netloc r = base_domain w ∧
       normalize_url u = Some k.

(** what every world of a run satisfies: task identities below
    [next_task]; the slots taken are the tasks inside [get_html]; a task past
    the scope check, and every page of the ledger, is on the seed's host
    under its own key *)
Record wf (w : crawler) : Prop := mkWf {
  wf_fresh : ∀ i t, tasks w !! i = Some t → (i < next_task w)%nat;
  wf_sem_nonneg : 0 ≤ semaphore w;
  wf_sem : semaphore w + Z.of_nat (fetching w) = max_concurrency w;
  wf_scope : ∀ i t k, tasks w !! i = Some t →
               t_pc t = WaitSem k ∨ t_pc t = Fetching k →
               in_scope w (t_url t) k;
  wf_ledger : ∀ k info, page_data w !! k = Some info →
                in_scope w (url info) k }.

(** the world in which [spawn] sets the parent's state *)
Definition with_children (urls : list string) (w : crawler) : crawler :=
  with_next_task (next_task w + length urls)%nat
    (with_all_tasks (list_to_set (new_tasks (next_task w) urls).*1
                       ∪ all_tasks w)
       (with_tasks (list_to_map (new_tasks (next_task w) urls) ∪ tasks w) w)).

(** the states in which a unit is past its own work: awaiting its
    children, or done *)
Definition is_parked (p : pc) : bool :=
  match p with Gathering _ | Done => true | _ => false end.

(** what cancellation rests on: a task other than the root that is not
    done is in [all_tasks]; once the stop flag is set every such task has
    its cancellation requested; and the root awaits its children (or is
    done) as soon as another task exists or the stop flag is set *)
Record live (w : crawler) : Prop := mkLive {
  live_registered : ∀ i t, tasks w !! i = Some t → i ≠ 0%nat →
                      task_done t = false → i ∈ all_tasks w;
  live_cancelled : should_stop w = true →
                   ∀ i t, i ∈ all_tasks w → tasks w !! i = Some t →
                          task_done t = false → t_must_cancel t = true;
  live_root_waits : ∀ i t, tasks w !! i = Some t → i ≠ 0%nat →
                      ∀ t0, tasks w !! 0%nat = Some t0 →
                            is_parked (t_pc t0) = true;
  live_root_stopped : should_stop w = true →
                      ∀ t0, tasks w !! 0%nat = Some t0 →
                            is_parked (t_pc t0) = true }.

(** the three shapes of a step of task [tid], which was in state [t] *)
Inductive effect (tid : nat) (t : task) (w : crawler) : crawler -> Prop :=
| effect_move p w1 :
    tasks w1 = tasks w -> should_stop w1 = should_stop w ->
    (∀ i, i ∈ all_tasks w1 -> i ∈ all_tasks w) ->
    (∀ i ti, i ∈ all_tasks w -> i ∉ all_tasks w1 ->
             tasks w !! i = Some ti -> task_done ti = true) ->
    (is_parked (t_pc t) = true -> p = Done) ->
    effect tid t w (suspend tid p w1)
| effect_stop :
    effect tid t w (finish tid (cancel_all_tasks (with_should_stop true w)))
| effect_spawn urls w1 :
    tasks w1 = tasks w -> should_stop w1 = false ->
    all_tasks w1 = all_tasks w -> next_task w1 = next_task w ->
    effect tid t w
      (suspend tid (Gathering (seq (next_task w) (length urls)))
         (with_children urls w1)).

(** *** The steps of a run, and what they keep *)

(** one step of task [tid], which was in state [t], by what it does *)
Inductive transition (BeautifulSoup : string -> node) (o : fetch_outcome)
    (tid : nat) (t : task) (w : crawler) : crawler -> Prop :=
| tr_return :
    t_pc t = Start ∨ (∃ k, t_pc t = WaitSem k) ->
    transition BeautifulSoup o tid t w (finish tid w)
| tr_limit k :
    t_pc t = Start -> should_stop w = false ->
    k ∉ dom (page_data w) ->
    max_pages w ≤ Z.of_nat (size (page_data w)) ->
    transition BeautifulSoup o tid t w
      (finish tid (cancel_all_tasks (with_should_stop true w)))
| tr_granted k :
    t_pc t = Start -> t_must_cancel t = false -> should_stop w = false ->
    in_scope w (t_url t) k -> k ∉ dom (page_data w) ->
    Z.of_nat (size (page_data w)) < max_pages w ->
    transition BeautifulSoup o tid t w (acquire tid k w)
| tr_slot k :
    t_pc t = WaitSem k -> t_must_cancel t = false -> 0 < semaphore w ->
    transition BeautifulSoup o tid t w
      (suspend tid (Fetching k) (with_semaphore (semaphore w - 1) w))
| tr_unusable k :
    t_pc t = Fetching k -> t_must_cancel t = true ∨ get_html o = None ->
    transition BeautifulSoup o tid t w (finish tid (release w))
| tr_recorded k html :
    t_pc t = Fetching k -> t_must_cancel t = false ->
    get_html o = Some html ->
    transition BeautifulSoup o tid t w
      (spawn tid
         (if should_stop w then []
          else get_urls_from_html BeautifulSoup html (base_url w))
         (release
            (record_page k (extract_page_data BeautifulSoup html (t_url t)) w)))
| tr_gathered children :
    t_pc t = Gathering children -> all_done children w = true ->
    transition BeautifulSoup o tid t w (finish tid (discard_tasks children w)).

(** how the tasks hang together: the root exists and its cancellation is
    never requested; a task of [all_tasks] is awaited by an older task; the
    tasks a task awaits are younger than it *)
Record family (w : crawler) : Prop := mkFamily {
  family_root : ∃ t0, tasks w !! 0%nat = Some t0 ∧ t_must_cancel t0 = false;
  family_parent : ∀ i, i ∈ all_tasks w ->
                    ∃ p tp children,
                      (p < i)%nat ∧ tasks w !! p = Some tp ∧
                      t_pc tp = Gathering children ∧ i ∈ children;
  family_children : ∀ p tp children c,
                      tasks w !! p = Some tp ->
                      t_pc tp = Gathering children -> c ∈ children ->
                      (p < c)%nat }.

(** task [t] can be resumed in [w] *)
Definition runnable (w : crawler) (t : task) : bool :=
  match t_pc t with
  | Start | Fetching _ => true
  | WaitSem _ => t_must_cancel t || (0 <? semaphore w)
  | Gathering children => all_done children w
  | Done => false
  end.

(** the steps a task has before it, at most *)
Definition steps_left (p : pc) : nat :=
  match p with
  | Start => 4 | WaitSem _ => 3 | Fetching _ => 2 | Gathering _ => 1
  | Done => 0
  end.

Definition at_least (n : nat) (t : task) : bool :=
  (n <=? steps_left (t_pc t))%nat.

Definition work (w : crawler) : nat :=
  (count (at_least 1) (tasks w) + count (at_least 2) (tasks w)
   + count (at_least 3) (tasks w) + count (at_least 4) (tasks w))%nat.

(** the pages the ledger can still take before the limit *)
Definition room (w : crawler) : nat :=
  Z.to_nat (max_pages w - Z.of_nat (size (page_data w))).

(** a task that was granted its address and has not yet left [get_html]:
    below the limit, the ones whose key is in the ledger by now; from the
    limit on, all of them *)
Definition owes (w : crawler) (t : task) : bool :=
  match t_pc t with
  | WaitSem k | Fetching k =>
      if Z.of_nat (size (page_data w)) <? max_pages w
      then bool_decide (k ∈ dom (page_data w)) else true
  | _ => false
  end.

Definition owed (w : crawler) : nat := count (owes w) (tasks w).

(** the order in which every step descends *)
Definition smaller (w' w : crawler) : Prop :=
  (room w' < room w)%nat ∨
  (room w' = room w ∧
   ((owed w' < owed w)%nat ∨ (owed w' = owed w ∧ (work w' < work w)%nat))).

(** [Q] reads the state of a task only *)
Definition pc_only (Q : task -> bool) : Prop :=
  ∀ t t', t_pc t = t_pc t' -> Q t = Q t'.

(** the text does not start with a character of [p] *)
Definition first_kept (p : ascii -> bool) (s : string) : bool :=
  match s with
  | EmptyString => true
  | String c _ => negb (p c)
  end.

(** a text that [strip] returns and that is not empty *)
Definition stripped (p : ascii -> bool) (s : string) : Prop :=
  nonempty s = true ∧ first_kept p s = true ∧ rstrip p s = s.

(** a reference that names its own host, or a path from the root *)
Definition rooted (u : ParseResult) : bool :=
  nonempty (netloc u) || startswith "/" (path u).

End Spec.

(* ===================================================================== *)
(** ** Example pages and worlds *)
(* ===================================================================== *)

Module Fixture.
Import PyStr UrlLib Soup Crawl.

Definition document (body : list node) : node :=
  Tag "[document]" [] [Tag "html" [] [Tag "body" [] body]].

(** [test_get_first_paragraph_from_html_main_priority] *)
Definition main_priority_soup : node :=
  document [Tag "p" [] [Text "Outside paragraph."];
            Tag "main" [] [Tag "p" [] [Text "Main paragraph."]]].

(** a page with one relative link *)
Definition relative_link_soup : node :=
  document [Tag "a" [("href", "two")] [Text "next"]].

Definition seed_html : string :=
  "<html><body><a href='/x'>x</a><a href='/y'>y</a></body></html>".

Definition leaf_html : string :=
  "<html><body><p>leaf</p></body></html>".

(** the parser on the pages of the example site *)
Definition site_soup (html : string) : node :=
  if String.eqb html seed_html then
    document [Tag "a" [("href", "/x")] [Text "x"];
              Tag "a" [("href", "/y")] [Text "y"]]
  else if String.eqb html leaf_html then
    document [Tag "p" [] [Text "leaf"]]
  else Tag "[document]" [] [Text html].

Definition ok (html : string) : fetch_outcome :=
  Response 200 (Some "text/html; charset=utf-8") html.

Definition not_found : fetch_outcome :=
  Response 404 (Some "text/html") EmptyString.

(** The seed links to two pages without links, [max_pages] is 2.  Each
    entry resumes one task, which runs to its next suspension point, in the
    order in which the event loop resumes them. *)
Definition over_limit_schedule : list (nat * fetch_outcome) :=
  [ (0%nat, Raised);            (* root: reserved, slot taken, request sent *)
    (0%nat, ok seed_html);      (* root: recorded, two tasks created *)
    (1%nat, Raised);            (* /x: reserved (1 < 2), slot taken *)
    (2%nat, Raised);            (* /y: reserved (1 < 2), waits for the slot *)
    (1%nat, ok leaf_html);      (* /x: recorded, slot given back *)
    (2%nat, Raised);            (* /y: slot taken *)
    (2%nat, ok leaf_html);      (* /y: recorded *)
    (0%nat, Raised) ].          (* root: gather returns *)

(** a world that no run reaches (the root inside [get_html] with the stop
    flag set): the value of the examples below when a schedule cannot be
    run *)
Definition stopped_world : crawler :=
  {| base_url := "https://a.com"; base_domain := "a.com"; page_data := ∅;
     max_concurrency := 1; max_pages := 1; semaphore := 0;
     should_stop := true; all_tasks := ∅;
     tasks := {[ 0%nat := mkTask "https://a.com" (Fetching "a.com") false ]};
     next_task := 1 |}.

(** a unit for a link whose host is the seed's in capitals *)
Definition capitals_world : crawler :=
  {| base_url := "https://blog.boot.dev"; base_domain := "blog.boot.dev";
     page_data := ∅; max_concurrency := 1; max_pages := 10; semaphore := 1;
     should_stop := false; all_tasks := {[ 1%nat ]};
     tasks := {[ 1%nat := mkTask "https://BLOG.boot.dev/path" Start false ]};
     next_task := 2 |}.

(** the example site when [crawl] starts, with one slot and a limit of
    [limit] pages *)
Definition site_init (limit : Z) : crawler :=
  default stopped_world (init "https://a.com" 1 limit).

(** the root inside [get_html]; then the root awaiting its two tasks, the
    first of them inside [get_html] and the second not yet run *)
Definition root_fetching : list (nat * fetch_outcome) := [ (0%nat, Raised) ].

Definition child_fetching : list (nat * fetch_outcome) :=
  [ (0%nat, Raised); (0%nat, ok seed_html); (1%nat, Raised) ].

(** the example site after the entries of a schedule *)
Definition site_world (limit : Z) (sched : list (nat * fetch_outcome))
  : crawler :=
  default stopped_world
    (w0 ← init "https://a.com" 1 limit; run_schedule site_soup sched w0).

(** the example site with no slot at all *)
Definition blocked_init : crawler :=
  default stopped_world (init "https://a.com" 0 2).

Definition blocked_world : crawler :=
  default stopped_world (run_schedule site_soup root_fetching blocked_init).

(** a site whose every page links back to the front page, after the seed
    was recorded *)
Definition loop_soup (html : string) : node :=
  document [Tag "a" [("href", "/")] [Text "home"]].

Definition loop_world : crawler :=
  default stopped_world
    (w0 ← init "https://a.com" 1 5;
     run_schedule loop_soup [ (0%nat, Raised); (0%nat, ok leaf_html) ] w0).

(** a site whose front page links to one page under two spellings, after
    the seed was recorded *)
Definition twin_soup (html : string) : node :=
  document [Tag "a" [("href", "/x")] [Text "x"];
            Tag "a" [("href", "/x/")] [Text "x again"]].

Definition twin_world : crawler :=
  default stopped_world
    (w0 ← init "https://a.com" 2 5;
     run_schedule twin_soup [ (0%nat, Raised); (0%nat, ok leaf_html) ] w0).

(** a page without markup *)
Definition bare_html : string := "plain text".

(** the repository's test page with a rooted link and an image *)
Definition rooted_soup (html : string) : node :=
  document [Tag "a" [("href", "/link1")] [Text "Link 1"];
            Tag "img" [("src", "/image1.jpg"); ("alt", "Image 1")] []].
(** a site of depth two: the front page links to [/x] and [/y], and [/x]
    links to [/z] *)
Definition branch_html : string :=
  "<html><body><a href='/z'>z</a></body></html>".

Definition deep_soup (html : string) : node :=
  if String.eqb html branch_html then
    document [Tag "a" [("href", "/z")] [Text "z"]]
  else site_soup html.

(** Two slots and a limit of two pages.  [/x] and [/y] are both inside
    [get_html] when the answer for [/x] arrives; [/x] is recorded, and the
    task created for its link [/z] finds the limit reached: it sets the stop
    flag and cancels [/y], whose request is still under way. *)
Definition cut_off_schedule : list (nat * fetch_outcome) :=
  [ (0%nat, Raised);            (* root: reserved, slot taken, request sent *)
    (0%nat, ok seed_html);      (* root: recorded, two tasks created *)
    (1%nat, Raised);            (* /x: reserved, slot taken, request sent *)
    (2%nat, Raised);            (* /y: reserved, slot taken, request sent *)
    (1%nat, ok branch_html);    (* /x: recorded, one task created *)
    (3%nat, Raised) ].          (* /z: limit reached, stop, cancel *)

Definition cut_off_init : crawler :=
  default stopped_world (init "https://a.com" 2 2).

Definition cut_off_world : crawler :=
  default stopped_world (run_schedule deep_soup cut_off_schedule cut_off_init).

End Fixture.

(* ===================================================================== *)
(** ** Proof tactics *)
(* ===================================================================== *)

Ltac by_cases_on_char c :=
  destruct c as [[] [] [] [] [] [] [] []];
  vm_compute; try reflexivity; try congruence.

Ltac closes_step Hsus :=
  eexists; split; [by apply Hsus|]; split; [simpl; lia|];
  simpl; intros [|]; congruence.

(* ===================================================================== *)
(** ** Facts about text and about [urllib.parse] *)
(* ===================================================================== *)

Module StrFacts.
Import PyStr UrlLib Soup Crawl Spec Fixture.

Lemma lower_char_idem c : lower_char (lower_char c) = lower_char c.
Proof. by_cases_on_char c. Qed.

Lemma lower_idem s : lower (lower s) = lower s.
Proof. induction s as [|c s IH]; simpl; [done|]. by rewrite lower_char_idem, IH. Qed.

Lemma lower_app a b : lower (a +:+ b) = lower a +:+ lower b.
Proof. induction a as [|c a IH]; simpl; [done|]. by rewrite IH. Qed.

Lemma is_slash_lower_char c : is_slash (lower_char c) = is_slash c.
Proof. by_cases_on_char c. Qed.

Lemma lower_rstrip s : lower (rstrip is_slash s) = rstrip is_slash (lower s).
Proof.
  induction s as [|c s IH]; simpl; [done|].
  rewrite <- IH. destruct (rstrip is_slash s) as [|d r]; simpl.
  - rewrite is_slash_lower_char. by destruct (is_slash c).
  - done.
Qed.

Lemma rstrip_idem p s : rstrip p (rstrip p s) = rstrip p s.
Proof.
  induction s as [|c s IH]; simpl; [done|].
  destruct (rstrip p s) as [|d r] eqn:E.
  - destruct (p c) eqn:Ec; simpl; [done|]. by rewrite Ec.
  - simpl in *. by rewrite IH.
Qed.

Lemma rstrip_no_trailing s :
  endswith_char "/" (rstrip is_slash s) = false.
Proof.
  induction s as [|c s IH]; simpl; [done|].
  destruct (rstrip is_slash s) as [|d r] eqn:E.
  - destruct (is_slash c) eqn:Ec; simpl; [done|].
    revert Ec. by_cases_on_char c.
  - simpl in *. exact IH.
Qed.

Lemma endswith_lower s :
  endswith_char "/" (lower s) = endswith_char "/" s.
Proof.
  induction s as [|c s IH]; simpl; [done|].
  destruct s as [|d r]; simpl in *.
  - by_cases_on_char c.
  - exact IH.
Qed.

Lemma app_cons c a b : String c a +:+ b = String c (a +:+ b).
Proof. reflexivity. Qed.

Lemma app_nil b : EmptyString +:+ b = b.
Proof. reflexivity. Qed.

(** every character of the text satisfies [p] *)
Lemma all_chars_app p a b :
  all_chars p (a +:+ b) = all_chars p a && all_chars p b.
Proof.
  induction a as [|c a IH]; [done|].
  rewrite app_cons. simpl. by rewrite IH, andb_assoc.
Qed.

Lemma has_char_all c s :
  has_char c s = false <-> all_chars (fun d => negb (Ascii.eqb d c)) s = true.
Proof.
  induction s as [|d s IH]; simpl; [done|].
  rewrite orb_false_iff, andb_true_iff, negb_true_iff. tauto.
Qed.

Lemma all_chars_lstrip p q s : all_chars p s = true -> all_chars p (lstrip q s) = true.
Proof.
  induction s as [|c s IH]; simpl; [done|]. intros [? ?]%andb_true_iff.
  destruct (q c); simpl; [auto|]. by apply andb_true_iff.
Qed.

Lemma all_chars_rstrip p q s : all_chars p s = true -> all_chars p (rstrip q s) = true.
Proof.
  induction s as [|c s IH]; simpl; [done|]. intros [Hc Hs]%andb_true_iff.
  specialize (IH Hs). destruct (rstrip q s) as [|d r].
  - destruct (q c); simpl; [done|]. by rewrite Hc.
  - simpl in *. by rewrite Hc.
Qed.

Lemma all_chars_remove p q s : all_chars p s = true -> all_chars p (remove q s) = true.
Proof.
  induction s as [|c s IH]; simpl; [done|]. intros [Hc Hs]%andb_true_iff.
  destruct (q c); simpl; [auto|]. rewrite Hc. auto.
Qed.

Lemma all_chars_removed q s : all_chars (fun c => negb (q c)) (remove q s) = true.
Proof.
  induction s as [|c s IH]; simpl; [done|].
  destruct (q c) eqn:E; simpl; [done|]. by rewrite E.
Qed.

Lemma remove_id q s : all_chars (fun c => negb (q c)) s = true -> remove q s = s.
Proof.
  induction s as [|c s IH]; simpl; [done|]. intros [Hc Hs]%andb_true_iff.
  apply negb_true_iff in Hc. rewrite Hc. by rewrite IH.
Qed.

Lemma all_chars_drop p n s : all_chars p s = true -> all_chars p (drop_chars n s) = true.
Proof.
  revert s. induction n as [|n IH]; intros [|c s]; simpl; try done.
  intros [? ?]%andb_true_iff. auto.
Qed.

Lemma all_chars_lower p s :
  (forall c, p (lower_char c) = p c) -> all_chars p (lower s) = all_chars p s.
Proof. intros Hp. induction s as [|c s IH]; simpl; [done|]. by rewrite Hp, IH. Qed.

Lemma partition_app c s a b : partition c s = Some (a, b) -> s = a +:+ String c b.
Proof.
  revert a. induction s as [|d s IH]; simpl; [done|]. intros a.
  destruct (Ascii.eqb_spec d c) as [->|Hne].
  - by intros [= <- <-].
  - destruct (partition c s) as [[a' b']|]; [|done].
    intros [= <- <-]. rewrite app_cons. f_equal. by apply IH.
Qed.

Lemma partition_before c s a b : partition c s = Some (a, b) -> has_char c a = false.
Proof.
  revert a. induction s as [|d s IH]; simpl; [done|]. intros a.
  destruct (Ascii.eqb_spec d c) as [->|Hne].
  - by intros [= <- <-].
  - destruct (partition c s) as [[a' b']|]; [|done].
    intros [= <- <-]. simpl. rewrite (IH a' eq_refl), orb_false_r.
    by apply Ascii.eqb_neq.
Qed.

Lemma partition_none c s : partition c s = None <-> has_char c s = false.
Proof.
  induction s as [|d s IH]; simpl; [done|].
  destruct (Ascii.eqb_spec d c) as [->|Hne]; simpl; [done|].
  rewrite <- IH. by destruct (partition c s) as [[? ?]|].
Qed.

Lemma rpartition_app c s a b : rpartition c s = Some (a, b) -> s = a +:+ String c b.
Proof.
  revert a. induction s as [|d s IH]; simpl; [done|]. intros a.
  destruct (rpartition c s) as [[a' b']|].
  - intros [= <- <-]. rewrite app_cons. f_equal. by apply IH.
  - destruct (Ascii.eqb_spec d c) as [->|]; [|done]. by intros [= <- <-].
Qed.

Lemma break_app q s a b :
  break q s = (a, b) ->
  s = a +:+ b /\ all_chars (fun c => negb (q c)) a = true.
Proof.
  revert a. induction s as [|d s IH]; simpl; intros a.
  - by intros [= <- <-].
  - destruct (q d) eqn:E; [by intros [= <- <-]|].
    destruct (break q s) as [a' b']. intros [= <- <-].
    destruct (IH a' eq_refl) as [-> Ha]. rewrite app_cons. simpl. by rewrite E.
Qed.

End StrFacts.

Module UrlFacts.
Import PyStr UrlLib Soup Crawl Spec Fixture StrFacts.

Section Chars.
Variable p : ascii -> bool.

Lemma split_scheme_chars url sch sc u :
  split_scheme url sch = (sc, u) ->
  all_chars p url = true -> all_chars p u = true.
Proof.
  unfold split_scheme. intros H Hp.
  destruct (partition ":" url) as [[pre rest]|] eqn:E; [|by inversion H; subst].
  destruct pre as [|c0 pre']; [by inversion H; subst|].
  destruct (is_alpha c0 && all_chars is_scheme_char (String c0 pre'));
    inversion H; subst; [|done].
  apply partition_app in E. rewrite E, all_chars_app in Hp.
  apply andb_true_iff in Hp as [_ Hp]. simpl in Hp.
  by apply andb_true_iff in Hp as [_ Hp].
Qed.

Lemma split_netloc_chars url nl u :
  split_netloc url = Some (nl, u) ->
  all_chars p url = true ->
  all_chars p nl = true /\ all_chars p u = true.
Proof.
  unfold split_netloc, _splitnetloc. intros H Hp.
  destruct (startswith "//" url); [|by inversion H; subst].
  destruct (break _ _) as [nl' u'] eqn:Eb.
  destruct (xorb _ _); [done|]. inversion H; subst.
  apply break_app in Eb as [Eb _].
  pose proof (all_chars_drop p 2 url Hp) as Hd.
  rewrite Eb, all_chars_app in Hd. by apply andb_true_iff in Hd.
Qed.

Lemma cut_chars c url u rest :
  cut c url = (u, rest) -> all_chars p url = true -> all_chars p u = true.
Proof.
  unfold cut. intros H Hp.
  destruct (partition c url) as [[a b]|] eqn:E; inversion H; subst; [|done].
  apply partition_app in E. rewrite E, all_chars_app in Hp.
  by apply andb_true_iff in Hp as [? _].
Qed.

Lemma urlsplit_chars url sch r :
  urlsplit url sch = Some r ->
  all_chars p (cleaned url) = true ->
  all_chars p (s_netloc r) = true /\ all_chars p (s_path r) = true.
Proof.
  unfold urlsplit. fold (cleaned url). intros H Hp.
  destruct (split_scheme _ _) as [sc u] eqn:Es.
  apply split_scheme_chars in Es; [|done].
  destruct (split_netloc u) as [[nl u0]|] eqn:En; [|done].
  destruct (split_netloc_chars _ _ _ En Es) as [Hnl Hu0].
  destruct (cut "#" u0) as [u1 f] eqn:E1.
  destruct (cut "?" u1) as [u2 q] eqn:E2.
  inversion H; subst; simpl.
  eauto using cut_chars.
Qed.

Lemma _splitparams_chars url a b :
  _splitparams url = (a, b) -> all_chars p url = true -> all_chars p a = true.
Proof.
  unfold _splitparams. intros H Hp. destruct (has_char "/" url).
  - destruct (rpartition "/" url) as [[head tail]|] eqn:Er;
      [|by inversion H; subst].
    destruct (partition ";" tail) as [[a' b']|] eqn:Ep;
      inversion H; subst; [|done].
    apply rpartition_app in Er. apply partition_app in Ep. subst.
    change ("/" +:+ a') with (String "/" a').
    rewrite all_chars_app in Hp |- *. simpl in Hp |- *.
    rewrite all_chars_app in Hp.
    apply andb_true_iff in Hp as [Hh Hp].
    apply andb_true_iff in Hp as [Hs Hp].
    apply andb_true_iff in Hp as [Ha _].
    by rewrite Hh, Hs, Ha.
  - destruct (partition ";" url) as [[a' b']|] eqn:Ep;
      inversion H; subst; [|done].
    apply partition_app in Ep. subst. rewrite all_chars_app in Hp.
    by apply andb_true_iff in Hp as [? _].
Qed.

Lemma urlparse_chars url sch r :
  urlparse_with url sch = Some r ->
  all_chars p (cleaned url) = true ->
  all_chars p (netloc r) = true /\ all_chars p (path r) = true.
Proof.
  unfold urlparse_with. intros H Hp.
  destruct (urlsplit url sch) as [sr|] eqn:Es; [|done].
  destruct (urlsplit_chars _ _ _ Es Hp) as [Hn Hu].
  destruct (in_list _ _ && _).
  - destruct (_splitparams (s_path sr)) as [a b] eqn:E.
    inversion H; subst; simpl. eauto using _splitparams_chars.
  - by inversion H; subst.
Qed.

End Chars.

Lemma no_char_sub c s s' :
  (all_chars (is_not c) s = true -> all_chars (is_not c) s' = true) ->
  has_char c s = false -> has_char c s' = false.
Proof. unfold is_not. rewrite !has_char_all. auto. Qed.

(** neither the netloc nor the path holds a [#] or a [?] *)
Lemma urlsplit_no_delim c url sch r :
  c = "#"%char \/ c = "?"%char ->
  urlsplit url sch = Some r ->
  has_char c (s_netloc r) = false /\ has_char c (s_path r) = false.
Proof.
  unfold urlsplit. intros Hc H.
  destruct (split_scheme _ _) as [sc u] eqn:Es.
  destruct (split_netloc u) as [[nl u0]|] eqn:En; [|done].
  destruct (cut "#" u0) as [u1 f] eqn:E1.
  destruct (cut "?" u1) as [u2 q] eqn:E2.
  inversion H; subst; simpl. split.
  - unfold split_netloc, _splitnetloc in En.
    destruct (startswith "//" u); [|by inversion En; subst].
    destruct (break _ _) as [nl' u'] eqn:Eb. destruct (xorb _ _); [done|].
    inversion En; subst. apply break_app in Eb as [_ Hb].
    clear -Hb Hc. induction nl as [|d nl IH]; simpl in *; [done|].
    apply andb_true_iff in Hb as [Hd Hb]. rewrite (IH Hb), orb_false_r.
    destruct Hc as [-> | ->]; revert Hd; by_cases_on_char d.
  - assert (has_char "#" u1 = false) as H1.
    { unfold cut in E1. destruct (partition "#" u0) as [[a b]|] eqn:E;
        inversion E1; subst.
      - by apply partition_before in E.
      - by apply partition_none. }
    assert (has_char "?" u2 = false) as H2.
    { unfold cut in E2. destruct (partition "?" u1) as [[a b]|] eqn:E;
        inversion E2; subst.
      - by apply partition_before in E.
      - by apply partition_none. }
    destruct Hc as [-> | ->]; [|done].
    revert H1. apply no_char_sub. eauto using cut_chars.
Qed.

Lemma urlparse_no_delim c url sch r :
  c = "#"%char \/ c = "?"%char ->
  urlparse_with url sch = Some r ->
  has_char c (netloc r) = false /\ has_char c (path r) = false.
Proof.
  unfold urlparse_with. intros Hc H.
  destruct (urlsplit url sch) as [sr|] eqn:Es; [|done].
  destruct (urlsplit_no_delim _ _ _ _ Hc Es) as [Hn Hu].
  destruct (in_list _ _ && _).
  - destruct (_splitparams (s_path sr)) as [a b] eqn:E.
    inversion H; subst; simpl. split; [done|].
    revert Hu. apply no_char_sub. eauto using _splitparams_chars.
  - by inversion H; subst.
Qed.

Lemma cleaned_safe url :
  all_chars (fun c => negb (is_unsafe c)) (cleaned url) = true.
Proof. apply all_chars_removed. Qed.

End UrlFacts.

(* ===================================================================== *)
(** ** [normalize_url] *)
(* ===================================================================== *)

Module Normalize.
Import PyStr UrlLib Soup Crawl Spec Fixture StrFacts UrlFacts.

  
Lemma urlparse_plain n :
  plain_key n = true ->
  all_chars (fun c => negb (is_unsafe c)) n = true ->
  has_char "#" n = false -> has_char "?" n = false ->
  urlparse n = Some (mkParse EmptyString EmptyString n
                       EmptyString EmptyString EmptyString).
Proof.
  unfold plain_key. intros Hp Hs Hf Hq.
  apply andb_true_iff in Hp as [Hp Hsemi]. apply andb_true_iff in Hp as [Hp Hcolon].
  apply andb_true_iff in Hp as [Hfirst Hslash].
  apply negb_true_iff in Hsemi, Hcolon, Hslash.
  unfold urlparse, urlparse_with, urlsplit.
  assert (lstrip is_c0_or_space n = n) as ->.
  { destruct n as [|c n]; [done|]. simpl. apply negb_true_iff in Hfirst.
    by rewrite Hfirst. }
  rewrite (remove_id _ _ Hs).
  assert (split_scheme n (remove is_unsafe (strip is_c0_or_space EmptyString))
          = (EmptyString, n)) as ->.
  { unfold split_scheme. by rewrite (proj2 (partition_none _ _) Hcolon). }
  unfold split_netloc. rewrite Hslash.
  unfold cut. rewrite (proj2 (partition_none _ _) Hf).
  rewrite (proj2 (partition_none _ _) Hq). simpl.
  by rewrite Hsemi.
Qed.

Lemma normalize_url_unfold A n :
  normalize_url A = Some n ->
  exists r, urlparse A = Some r /\
            n = lower (rstrip is_slash (netloc r +:+ path r)).
Proof.
  unfold normalize_url. destruct (urlparse A) as [r|]; [|done].
  intros [= <-]. eauto.
Qed.

Lemma normalize_url_lower A n : normalize_url A = Some n -> lower n = n.
Proof.
  intros (r & _ & ->)%normalize_url_unfold. apply lower_idem.
Qed.

Lemma normalize_url_no_trailing A n :
  normalize_url A = Some n -> endswith_char "/" n = false.
Proof.
  intros (r & _ & ->)%normalize_url_unfold.
  rewrite endswith_lower. apply rstrip_no_trailing.
Qed.

Lemma normalize_url_same_parts A B rA rB :
  urlparse A = Some rA -> urlparse B = Some rB ->
  lower (netloc rB) = lower (netloc rA) ->
  lower (path rB) = lower (path rA) ->
  normalize_url B = normalize_url A.
Proof.
  unfold normalize_url. intros -> -> Hn Hp. f_equal.
  by rewrite !lower_rstrip, !lower_app, Hn, Hp.
Qed.

Lemma is_unsafe_lower_char c : is_unsafe (lower_char c) = is_unsafe c.
Proof. by_cases_on_char c. Qed.

Lemma has_char_lower c s :
  (forall d, Ascii.eqb (lower_char d) c = Ascii.eqb d c) ->
  has_char c (lower s) = has_char c s.
Proof. intros H. induction s as [|d s IH]; simpl; [done|]. by rewrite H, IH. Qed.

Lemma normalize_url_idempotent_on_plain A n :
  normalize_url A = Some n -> plain_key n = true -> normalize_url n = Some n.
Proof.
  intros (r & Hr & ->)%normalize_url_unfold Hplain.
  set (x := netloc r +:+ path r) in *.
  assert (all_chars (fun c => negb (is_unsafe c)) x = true) as Hs.
  { unfold x. rewrite all_chars_app.
    destruct (urlparse_chars _ _ _ _ Hr (cleaned_safe A)) as [-> ->]. done. }
  assert (forall c, c = "#"%char \/ c = "?"%char -> has_char c x = false) as Hd.
  { intros c Hc. apply has_char_all. unfold x. rewrite all_chars_app.
    destruct (urlparse_no_delim c _ _ _ Hc Hr) as [H1%has_char_all H2%has_char_all].
    by rewrite H1, H2. }
  unfold normalize_url. rewrite urlparse_plain; try done.
  - simpl. change (EmptyString +:+ ?s) with s.
    by rewrite <- lower_rstrip, rstrip_idem, lower_idem.
  - rewrite all_chars_lower by (intros c; by rewrite is_unsafe_lower_char).
    by apply all_chars_rstrip.
  - rewrite has_char_lower by (intros d; by_cases_on_char d).
    apply (no_char_sub _ x); [apply all_chars_rstrip|]. apply Hd; auto.
  - rewrite has_char_lower by (intros d; by_cases_on_char d).
    apply (no_char_sub _ x); [apply all_chars_rstrip|]. apply Hd; auto.
Qed.

(** the scheme is not part of the key: an address with [http:] or
    [https:] in front of [//...] has the key of the address without it *)
Lemma split_scheme_slashes rest sch :
  split_scheme (String "/" rest) sch = (sch, String "/" rest).
Proof.
  unfold split_scheme. simpl.
  by destruct (partition ":" rest) as [[a b]|].
Qed.

Lemma urlsplit_http rest :
  urlsplit ("http://" +:+ rest) EmptyString
  = (fun r => mkSplit "http" (s_netloc r) (s_path r) (s_query r) (s_fragment r))
      <$> urlsplit ("//" +:+ rest) EmptyString.
Proof.
  unfold urlsplit. rewrite !app_cons, !app_nil.
  simpl. rewrite split_scheme_slashes.
  destruct (split_netloc _) as [[nl u]|]; [|done].
  destruct (cut "#" u) as [u1 f]. by destruct (cut "?" u1) as [u2 q].
Qed.

Lemma urlsplit_https rest :
  urlsplit ("https://" +:+ rest) EmptyString
  = (fun r => mkSplit "https" (s_netloc r) (s_path r) (s_query r) (s_fragment r))
      <$> urlsplit ("//" +:+ rest) EmptyString.
Proof.
  unfold urlsplit. rewrite !app_cons, !app_nil.
  simpl. rewrite split_scheme_slashes.
  destruct (split_netloc _) as [[nl u]|]; [|done].
  destruct (cut "#" u) as [u1 f]. by destruct (cut "?" u1) as [u2 q].
Qed.

Lemma urlsplit_slashes_scheme rest r :
  urlsplit ("//" +:+ rest) EmptyString = Some r -> s_scheme r = EmptyString.
Proof.
  unfold urlsplit. rewrite !app_cons, !app_nil. simpl.
  rewrite split_scheme_slashes.
  destruct (split_netloc _) as [[nl u]|]; [|done].
  destruct (cut "#" u) as [u1 f]. destruct (cut "?" u1) as [u2 q].
  by intros [= <-].
Qed.

Lemma normalize_url_scheme rest :
  normalize_url ("http://" +:+ rest) = normalize_url ("//" +:+ rest) /\
  normalize_url ("https://" +:+ rest) = normalize_url ("//" +:+ rest).
Proof.
  unfold normalize_url, urlparse, urlparse_with.
  rewrite urlsplit_http, urlsplit_https.
  destruct (urlsplit ("//" +:+ rest) EmptyString) as [r|] eqn:E; [|done].
  apply urlsplit_slashes_scheme in E. simpl. rewrite E.
  change (in_list "http" uses_params) with true.
  change (in_list "https" uses_params) with true.
  change (in_list EmptyString uses_params) with true. simpl.
  destruct (has_char ";" (s_path r)); [|done].
  by destruct (_splitparams (s_path r)).
Qed.

(** C8, where the claim fails: [normalize_url] is not idempotent on an
    address with a port ([urlparse] reads the key's host as a scheme), and
    [rstrip] takes every trailing slash, not a single one. *)
Lemma normalize_url_not_idempotent :
  normalize_url "http://localhost:8000/page" = Some "localhost:8000/page" /\
  normalize_url "localhost:8000/page" = Some "8000/page" /\
  normalize_url "https://blog.boot.dev/path//" = Some "blog.boot.dev/path".
Proof. by vm_compute. Qed.

(** C8, amended: the key of an address [A] on which [urlparse] does not
    raise is its netloc followed by its path, with all trailing slashes
    removed and in lower case.  So it is in lower case, ends with no slash,
    is the same for an address whose netloc and path differ from those of
    [A] in letter case only (it is case-insensitive on the host, and on the
    path as well), and holds neither scheme, query nor fragment: with
    [http:] or [https:] put in front of [//rest] the key is the key of
    [//rest].  Normalizing the key again returns it when the key is plain:
    it starts with no blank, control character or [//] and holds no [:]
    and no [;]. *)
Theorem normalize_url_key (A n : string) :
  normalize_url A = Some n ->
  (exists r, urlparse A = Some r /\
             n = lower (rstrip is_slash (netloc r +:+ path r))) /\
  lower n = n /\
  endswith_char "/" n = false /\
  (forall B rA rB,
     urlparse A = Some rA -> urlparse B = Some rB ->
     lower (netloc rB) = lower (netloc rA) ->
     lower (path rB) = lower (path rA) ->
     normalize_url B = Some n) /\
  (forall rest,
     A = "//" +:+ rest ->
     normalize_url ("http://" +:+ rest) = Some n /\
     normalize_url ("https://" +:+ rest) = Some n) /\
  (plain_key n = true -> normalize_url n = Some n).
Proof.
  intros H. split; [by apply normalize_url_unfold|].
  split; [by eapply normalize_url_lower|].
  split; [by eapply normalize_url_no_trailing|].
  split; [|split].
  - intros B rA rB HA HB Hn Hp. rewrite <- H.
    by apply (normalize_url_same_parts A B rA rB).
  - intros rest ->. destruct (normalize_url_scheme rest) as [-> ->]. done.
  - by apply (normalize_url_idempotent_on_plain A).
Qed.

(** C8, at [https://BLOG.boot.dev/path/] *)
Lemma normalize_url_key_witness :
  normalize_url "https://BLOG.boot.dev/path/" = Some "blog.boot.dev/path" /\
  plain_key "blog.boot.dev/path" = true /\
  normalize_url "blog.boot.dev/path" = Some "blog.boot.dev/path".
Proof.
  assert (normalize_url "https://BLOG.boot.dev/path/"
          = Some "blog.boot.dev/path") as H by (by vm_compute).
  split; [exact H|]. split; [by vm_compute|].
  apply (normalize_url_key _ _ H). by vm_compute.
Defined.

End Normalize.

(* ===================================================================== *)
(** ** The invariant of a run *)
(* ===================================================================== *)

Module Counting.
Import PyStr UrlLib Soup Crawl Spec Fixture.

  
  
  
  
  
(** *** Counting tasks *)

Lemma count_empty P : count P ∅ = 0%nat.
Proof. unfold count. by rewrite map_filter_empty, map_size_empty. Qed.

Lemma count_insert_fresh P (m : gmap nat task) i t :
  m !! i = None -> count P (<[i:=t]> m) = (count P m + b2n (P t))%nat.
Proof.
  intros Hi. unfold count. destruct (P t) eqn:E; simpl.
  - rewrite map_filter_insert_True by done.
    rewrite map_size_insert_None; [lia|].
    by rewrite map_lookup_filter_None; left.
  - rewrite map_filter_insert_False by (simpl; congruence).
    rewrite delete_id by done. lia.
Qed.

Lemma count_insert P (m : gmap nat task) i t t' :
  m !! i = Some t ->
  (count P (<[i:=t']> m) + b2n (P t) = count P m + b2n (P t'))%nat.
Proof.
  intros Hi. rewrite <- (insert_delete_id m i t Hi) at 2.
  rewrite <- (insert_delete_eq m i t').
  rewrite !count_insert_fresh by apply lookup_delete_eq. lia.
Qed.

Lemma alter_as_insert (f : task -> task) (m : gmap nat task) i t :
  m !! i = Some t -> alter f i m = <[i := f t]> m.
Proof.
  intros Hi. apply map_eq. intros j. destruct (decide (i = j)) as [->|Hne].
  - by rewrite lookup_alter_eq, lookup_insert_eq, Hi.
  - by rewrite lookup_alter_ne, lookup_insert_ne.
Qed.

Lemma count_alter P f (m : gmap nat task) i t :
  m !! i = Some t ->
  (count P (alter f i m) + b2n (P t) = count P m + b2n (P (f t)))%nat.
Proof. intros Hi. rewrite (alter_as_insert _ _ _ _ Hi). by apply count_insert. Qed.

Lemma count_imap P (g : nat -> task -> task) (m : gmap nat task) :
  (forall i t, P (g i t) = P t) ->
  count P (map_imap (fun i t => Some (g i t)) m) = count P m.
Proof.
  intros Hg. induction m as [|i t m Hi _ IH] using map_first_key_ind.
  - by rewrite map_imap_empty.
  - rewrite (map_imap_insert_Some _ _ _ _ (g i t)) by done.
    rewrite !count_insert_fresh; [by rewrite IH, Hg| done |].
    by rewrite map_lookup_imap, Hi.
Qed.

End Counting.

Module Invariant.
Import PyStr UrlLib Soup Crawl Spec Fixture Counting.

  (** the address [u] is on the seed's host and [k] is its key *)
  
  

Lemma wf_init base mc mp w0 : init base mc mp = Some w0 -> wf w0.
Proof.
  unfold init. destruct (urlparse base) as [r|]; [|done].
  destruct (mc <? 0) eqn:E; [done|]. intros [= <-].
  split; simpl.
  - intros i t [<- <-]%lookup_singleton_Some. lia.
  - lia.
  - unfold fetching, count. simpl. rewrite map_filter_singleton_False by (by cbv).
    rewrite map_size_empty. lia.
  - intros i t k [<- <-]%lookup_singleton_Some. simpl. by intros [|].
  - intros k info. by rewrite lookup_empty.
Qed.

(** a task moves to [p], the counter to [s'] *)
Lemma wf_move w tid t p s' :
  wf w -> tasks w !! tid = Some t ->
  0 ≤ s' ->
  s' + Z.of_nat (b2n (is_fetching_pc p))
    = semaphore w + Z.of_nat (b2n (is_fetching t)) ->
  (∀ k, p = WaitSem k ∨ p = Fetching k -> in_scope w (t_url t) k) ->
  wf (with_semaphore s' (suspend tid p w)).
Proof.
  intros [Hf Hn Hs Hsc Hl] Ht Hs' Hbal Hp. split; simpl.
  - intros i t'. destruct (decide (tid = i)) as [<-|Hne].
    + rewrite lookup_alter_eq, Ht. intros [= <-]. eauto.
    + rewrite lookup_alter_ne by done. eauto.
  - done.
  - unfold fetching in *. simpl.
    pose proof (count_alter is_fetching (set_pc p) _ _ _ Ht) as Hc.
    change (is_fetching (set_pc p t)) with (is_fetching_pc p) in Hc. lia.
  - intros i t' k. destruct (decide (tid = i)) as [<-|Hne].
    + rewrite lookup_alter_eq, Ht. intros [= <-]. simpl. apply Hp.
    + rewrite lookup_alter_ne by done. apply Hsc.
  - exact Hl.
Qed.

Lemma wf_with_should_stop b w : wf w -> wf (with_should_stop b w).
Proof. intros [? ? ? ? ?]. by split. Qed.

Lemma wf_with_all_tasks s w : wf w -> wf (with_all_tasks s w).
Proof. intros [? ? ? ? ?]. by split. Qed.

Lemma cancel_all_lookup w i :
  tasks (cancel_all_tasks w) !! i =
  (fun t => if decide (i ∈ all_tasks w)
            then (if negb (task_done t) then task_cancel t else t)
            else t) <$> tasks w !! i.
Proof.
  unfold cancel_all_tasks. simpl. rewrite map_lookup_imap.
  by destruct (tasks w !! i).
Qed.

Lemma cancel_all_keeps w i t' :
  tasks (cancel_all_tasks w) !! i = Some t' ->
  ∃ t, tasks w !! i = Some t ∧ t_pc t' = t_pc t ∧ t_url t' = t_url t.
Proof.
  rewrite cancel_all_lookup. destruct (tasks w !! i) as [t|]; [|done].
  simpl. intros [= <-]. exists t. split; [done|].
  destruct (decide _); [|done]. by destruct (negb _).
Qed.

Lemma wf_cancel_all w : wf w -> wf (cancel_all_tasks w).
Proof.
  intros [Hf Hn Hs Hsc Hl]. split.
  - intros i t' Ht'. destruct (cancel_all_keeps w i t' Ht') as (t & Ht & _). eauto.
  - done.
  - unfold fetching in *. simpl. rewrite count_imap; [done|].
    intros i t. destruct (decide _); [|done]. by destruct (negb _).
  - intros i t' k Ht'. destruct (cancel_all_keeps w i t' Ht') as (t & Ht & Hpc & Hu).
    rewrite Hpc. intros Hk. by apply (Hsc i t k Ht) in Hk as (r & ? & ? & ?); exists r; rewrite Hu.
  - exact Hl.
Qed.

Lemma wf_add_page_visit k w b w' :
  add_page_visit k w = (b, w') -> wf w -> wf w'.
Proof.
  unfold add_page_visit. intros H Hw.
  destruct (should_stop w); [by inversion H; subst|].
  destruct (bool_decide _); [by inversion H; subst|].
  destruct (_ >=? _); inversion H; subst; [|done].
  by apply wf_cancel_all, wf_with_should_stop.
Qed.

(** *** The tasks [spawn] creates *)

Lemma new_tasks_cons n u us :
  new_tasks n (u :: us) = (n, mkTask u Start false) :: new_tasks (S n) us.
Proof. reflexivity. Qed.

Lemma new_tasks_ids n urls : (new_tasks n urls).*1 = seq n (length urls).
Proof.
  revert n. induction urls as [|u us IH]; intros n; [done|].
  rewrite new_tasks_cons. simpl. by rewrite IH.
Qed.

Lemma new_tasks_lookup_lt n urls i :
  (i < n)%nat ->
  (list_to_map (new_tasks n urls) : gmap nat task) !! i = None.
Proof.
  revert n. induction urls as [|u us IH]; intros n Hi; [done|].
  rewrite new_tasks_cons, list_to_map_cons. simpl.
  rewrite lookup_insert_ne by lia. apply IH. lia.
Qed.

Lemma new_tasks_lookup n urls i t :
  (list_to_map (new_tasks n urls) : gmap nat task) !! i = Some t ->
  (n ≤ i < n + length urls)%nat ∧
  ∃ u, t = mkTask u Start false ∧ urls !! (i - n)%nat = Some u.
Proof.
  revert n. induction urls as [|u us IH]; intros n; [done|].
  rewrite new_tasks_cons, list_to_map_cons. simpl.
  destruct (decide (n = i)) as [<-|Hne].
  - rewrite lookup_insert_eq. intros [= <-]. split; [lia|].
    exists u. by rewrite Nat.sub_diag.
  - rewrite lookup_insert_ne by done. intros [Hr (u' & -> & Hu)]%IH.
    split; [lia|]. exists u'. split; [done|].
    by replace (i - n)%nat with (S (i - S n)) by lia.
Qed.

Lemma new_tasks_lookup_nth n urls j u :
  urls !! j = Some u ->
  (list_to_map (new_tasks n urls) : gmap nat task) !! (n + j)%nat
  = Some (mkTask u Start false).
Proof.
  revert n j. induction urls as [|u' us IH]; intros n j; [done|].
  rewrite new_tasks_cons, list_to_map_cons. simpl. destruct j as [|j]; simpl.
  - intros [= ->]. by rewrite Nat.add_0_r, lookup_insert_eq.
  - intros Hj. rewrite lookup_insert_ne by lia.
    replace (n + S j)%nat with (S n + j)%nat by lia. by apply IH.
Qed.

Lemma count_spawned P n urls (m : gmap nat task) :
  (∀ u, P (mkTask u Start false) = false) ->
  (∀ i t, m !! i = Some t -> (i < n)%nat) ->
  count P (list_to_map (new_tasks n urls) ∪ m) = count P m.
Proof.
  intros HP. revert n. induction urls as [|u us IH]; intros n Hm.
  - simpl. by rewrite (left_id_L ∅ (∪)).
  - rewrite new_tasks_cons, list_to_map_cons. simpl.
    rewrite <- insert_union_l, count_insert_fresh.
    + rewrite HP, IH; [simpl; lia|]. intros i t Hi. apply Hm in Hi. lia.
    + apply lookup_union_None. split; [apply new_tasks_lookup_lt; lia|].
      destruct (m !! n) as [t|] eqn:E; [|done]. apply Hm in E. lia.
Qed.

Lemma spawn_unfold tid urls w :
  spawn tid urls w =
  suspend tid (match urls with
               | [] => Done
               | _ => Gathering (seq (next_task w) (length urls))
               end)
          (with_children urls w).
Proof.
  unfold spawn, with_children. rewrite !new_tasks_ids. by destruct urls.
Qed.

Lemma with_children_lookup_old urls w i t :
  (i < next_task w)%nat -> tasks w !! i = Some t ->
  tasks (with_children urls w) !! i = Some t.
Proof.
  intros Hlt Hi. simpl. rewrite lookup_union_r; [done|].
  by apply new_tasks_lookup_lt.
Qed.

Lemma with_children_lookup urls w i t :
  tasks (with_children urls w) !! i = Some t ->
  tasks w !! i = Some t ∨
  ((next_task w ≤ i < next_task w + length urls)%nat ∧
   ∃ u, t = mkTask u Start false ∧ urls !! (i - next_task w)%nat = Some u).
Proof.
  simpl. intros [H|[_ H]]%lookup_union_Some_raw; [|by left].
  right. by apply new_tasks_lookup.
Qed.

(** a task leaves [get_html]: it records a page or not, gives its slot
    back, and goes on to a state [p] in which it holds none *)
Lemma wf_leave_fetch w tid t k d urls p :
  wf w -> tasks w !! tid = Some t -> t_pc t = Fetching k ->
  (∀ k' info, d !! k' = Some info -> in_scope w (url info) k') ->
  is_fetching_pc p = false -> (∀ k', p ≠ WaitSem k') ->
  wf (suspend tid p (with_children urls (release (with_page_data d w)))).
Proof.
  intros Hw Ht Hpc Hd Hp Hp'. pose proof Hw as [Hf Hn Hs Hsc Hl].
  set (w1 := release (with_page_data d w)).
  assert (tasks (with_children urls w1) !! tid = Some t) as Ht1.
  { simpl. rewrite lookup_union_r; [done|]. apply new_tasks_lookup_lt. eauto. }
  split.
  - intros i t'. simpl. destruct (decide (tid = i)) as [<-|Hne].
    + rewrite lookup_alter_eq. simpl in Ht1. rewrite Ht1. intros _.
      apply Hf in Ht. lia.
    + rewrite lookup_alter_ne by done.
      intros [H|[_ H]]%lookup_union_Some_raw.
      * apply new_tasks_lookup in H. lia.
      * apply Hf in H. lia.
  - simpl. lia.
  - unfold fetching in *. simpl.
    pose proof (count_alter is_fetching (set_pc p) _ _ _ Ht1) as Hc.
    change (is_fetching (set_pc p t)) with (is_fetching_pc p) in Hc.
    assert (is_fetching t = true) as Hft by (unfold is_fetching; by rewrite Hpc).
    rewrite Hp, Hft in Hc. simpl in Hc.
    rewrite (count_spawned is_fetching) in Hc by (done || eauto). lia.
  - intros i t' k'. simpl. destruct (decide (tid = i)) as [<-|Hne].
    + rewrite lookup_alter_eq. simpl in Ht1. rewrite Ht1. intros [= <-]. simpl.
      intros [->| ->]; [by destruct (Hp' k')|done].
    + rewrite lookup_alter_ne by done.
      intros [H|[_ H]]%lookup_union_Some_raw.
      * apply new_tasks_lookup in H as [_ (u & -> & _)]. by intros [|].
      * apply (Hsc i t' k' H).
  - exact Hd.
Qed.

(** [wf] reads a world through these fields only *)
Lemma wf_ext w w' :
  tasks w' = tasks w -> semaphore w' = semaphore w ->
  page_data w' = page_data w -> next_task w' = next_task w ->
  base_domain w' = base_domain w ->
  max_concurrency w' = max_concurrency w ->
  wf w -> wf w'.
Proof.
  intros Ht Hs Hd Hn Hb Hm [Hf Hnn Hsem Hsc Hl]. split.
  - rewrite Ht, Hn. exact Hf.
  - by rewrite Hs.
  - unfold fetching. by rewrite Ht, Hs, Hm.
  - unfold in_scope. rewrite Ht, Hb. exact Hsc.
  - unfold in_scope. rewrite Hd, Hb. exact Hl.
Qed.

(** a task that holds no slot ends, or goes on to wait *)
Lemma wf_finish w tid t :
  wf w -> tasks w !! tid = Some t -> is_fetching t = false ->
  wf (finish tid w).
Proof.
  intros Hw Ht Hf.
  apply (wf_ext (with_semaphore (semaphore w) (suspend tid Done w)));
    try reflexivity.
  apply (wf_move w tid t); try done.
  - by apply wf_sem_nonneg.
  - rewrite Hf. simpl. lia.
  - by intros k [|].
Qed.

Lemma wf_record k info w :
  wf w -> in_scope w (url info) k -> wf (record_page k info w).
Proof.
  intros [Hf Hn Hs Hsc Hl] Hin. split; try done.
  intros k' info'. simpl. destruct (decide (k = k')) as [<-|Hne].
  - rewrite lookup_insert_eq. by intros [= <-].
  - rewrite lookup_insert_ne by done. apply Hl.
Qed.

(** what [add_page_visit] leaves alone *)
Lemma add_page_visit_frame k w b w' :
  add_page_visit k w = (b, w') ->
  base_url w' = base_url w ∧ base_domain w' = base_domain w ∧
  page_data w' = page_data w ∧ max_concurrency w' = max_concurrency w ∧
  max_pages w' = max_pages w ∧ semaphore w' = semaphore w ∧
  all_tasks w' = all_tasks w ∧ next_task w' = next_task w ∧
  ∀ i t, tasks w !! i = Some t ->
         ∃ t', tasks w' !! i = Some t' ∧ t_pc t' = t_pc t ∧
               t_url t' = t_url t.
Proof.
  unfold add_page_visit. intros H.
  assert (w' = w ∨ w' = cancel_all_tasks (with_should_stop true w)) as [->| ->].
  { destruct (should_stop w); [left; congruence|].
    destruct (bool_decide _); [left; congruence|].
    destruct (_ >=? _); [right|left]; congruence. }
  - repeat split; eauto.
  - repeat split; try done. intros i t Ht.
    rewrite cancel_all_lookup. simpl. rewrite Ht. simpl.
    eexists; split; [done|]. destruct (decide _); [|done]. by destruct (negb _).
Qed.

Section ParserInv.
Variable BeautifulSoup : string -> node.

Lemma wf_crawl_page_enter w tid t :
  wf w -> tasks w !! tid = Some t -> t_pc t = Start ->
  wf (crawl_page_enter tid (t_url t) w).
Proof.
  intros Hw Ht Hpc.
  assert (is_fetching t = false) as Hnf
      by (unfold is_fetching; by rewrite Hpc).
  unfold crawl_page_enter.
  destruct (should_stop w); [by eapply wf_finish|].
  destruct (urlparse (t_url t)) as [r|] eqn:Er; [|by eapply wf_finish].
  destruct (String.eqb_spec (netloc r) (base_domain w)) as [Hdom|];
    simpl; [|by eapply wf_finish].
  destruct (normalize_url (t_url t)) as [k|] eqn:Ek; [|by eapply wf_finish].
  destruct (add_page_visit k w) as [is_new w1] eqn:Ea.
  pose proof (wf_add_page_visit _ _ _ _ Ea Hw) as Hw1.
  destruct (add_page_visit_frame _ _ _ _ Ea)
    as (_ & Hb & _ & _ & _ & _ & _ & _ & Hts).
  destruct (Hts _ _ Ht) as (t1 & Ht1 & Hpc1 & Hu1).
  assert (is_fetching t1 = false) as Hnf1
      by (unfold is_fetching; by rewrite Hpc1, Hpc).
  destruct is_new; simpl; [|by eapply wf_finish].
  assert (in_scope w1 (t_url t1) k) as Hin.
  { exists r. by rewrite Hu1, Hb. }
  unfold acquire. destruct (0 <? semaphore w1) eqn:Es.
  - apply (wf_ext (with_semaphore (semaphore w1 - 1)
                     (suspend tid (Fetching k) w1))); try reflexivity.
    apply (wf_move w1 tid t1); try done.
    + apply Z.ltb_lt in Es. lia.
    + rewrite Hnf1. simpl. lia.
    + by intros k' [[= <-]|[= <-]].
  - apply (wf_ext (with_semaphore (semaphore w1)
                     (suspend tid (WaitSem k) w1))); try reflexivity.
    apply (wf_move w1 tid t1); try done.
    + by apply wf_sem_nonneg.
    + rewrite Hnf1. simpl. lia.
    + by intros k' [[= <-]|[= <-]].
Qed.

Lemma wf_release_finish w tid t k :
  wf w -> tasks w !! tid = Some t -> t_pc t = Fetching k ->
  wf (finish tid (release w)).
Proof.
  intros Hw Ht Hpc.
  apply (wf_ext (with_semaphore (semaphore w + 1) (suspend tid Done w)));
    try reflexivity.
  apply (wf_move w tid t); try done.
  - pose proof (wf_sem_nonneg _ Hw). lia.
  - unfold is_fetching. rewrite Hpc. simpl. lia.
  - by intros k' [|].
Qed.

Lemma wf_crawl_page_fetched w tid t k o :
  wf w -> tasks w !! tid = Some t -> t_pc t = Fetching k ->
  wf (crawl_page_fetched BeautifulSoup tid (t_url t) k o w).
Proof.
  intros Hw Ht Hpc. unfold crawl_page_fetched.
  destruct (get_html o) as [html|]; [|by eapply wf_release_finish].
  set (info := extract_page_data BeautifulSoup html (t_url t)).
  assert (in_scope w (url info) k) as Hin
      by (apply (wf_scope _ Hw tid t k Ht); by right).
  pose proof (wf_record k info w Hw Hin) as Hw1.
  destruct (should_stop _).
  - by apply (wf_release_finish (record_page k info w) tid t k).
  - rewrite spawn_unfold.
    apply (wf_leave_fetch w tid t k); try done.
    + apply (wf_ledger _ Hw1).
    + by destruct (get_urls_from_html _ _ _).
    + by destruct (get_urls_from_html _ _ _).
Qed.

Lemma wf_run_task o tid w w' :
  run_task BeautifulSoup o tid w = Some w' -> wf w -> wf w'.
Proof.
  unfold run_task. intros H Hw.
  destruct (tasks w !! tid) as [t|] eqn:Ht; [|done].
  destruct (t_pc t) as [|k|k|children|] eqn:Hpc; [| | | |done].
  - destruct (t_must_cancel t); inversion H; subst.
    + eapply wf_finish; eauto. unfold is_fetching. by rewrite Hpc.
    + by apply wf_crawl_page_enter.
  - destruct (t_must_cancel t); [inversion H; subst|].
    + eapply wf_finish; eauto. unfold is_fetching. by rewrite Hpc.
    + destruct (0 <? semaphore w) eqn:Es; inversion H; subst.
      apply (wf_ext (with_semaphore (semaphore w - 1)
                       (suspend tid (Fetching k) w))); try reflexivity.
      apply (wf_move w tid t); try done.
      * apply Z.ltb_lt in Es. lia.
      * unfold is_fetching. rewrite Hpc. simpl. lia.
      * intros k' [[=]|[= <-]]. apply (wf_scope _ Hw tid t k Ht). by left.
  - destruct (t_must_cancel t); inversion H; subst.
    + by eapply wf_release_finish.
    + by apply wf_crawl_page_fetched.
  - destruct (all_done _ _); inversion H; subst.
    apply (wf_finish _ tid t).
    + by apply wf_with_all_tasks.
    + done.
    + unfold is_fetching. by rewrite Hpc.
Qed.

Lemma wf_reachable w0 w :
  reachable BeautifulSoup w0 w -> wf w0 -> wf w.
Proof.
  induction 1 as [|w1 w2 w3 (o & tid & Hstep) _ IH]; [done|].
  intros Hw. apply IH. by eapply wf_run_task.
Qed.

End ParserInv.

End Invariant.

Module Cancellation.
Import PyStr UrlLib Soup Crawl Spec Fixture Counting Invariant.

Lemma live_init base mc mp w0 : init base mc mp = Some w0 -> live w0.
Proof.
  unfold init. destruct (urlparse base) as [r|]; [|done].
  destruct (mc <? 0); [done|]. intros [= <-]. split; simpl; try done.
  - intros i t [<- <-]%lookup_singleton_Some. done.
  - intros i t [<- <-]%lookup_singleton_Some. done.
Qed.

Section ParserStop.
Variable BeautifulSoup : string -> node.

Lemma run_task_effect o tid t w w' :
  tasks w !! tid = Some t ->
  run_task BeautifulSoup o tid w = Some w' ->
  task_done t = false ∧ effect tid t w w'.
Proof.
  intros Ht. unfold run_task. rewrite Ht. unfold task_done.
  assert (∀ p w1, tasks w1 = tasks w -> should_stop w1 = should_stop w ->
            all_tasks w1 = all_tasks w ->
            (is_parked (t_pc t) = true -> p = Done) ->
            effect tid t w (suspend tid p w1)) as Hmove.
  { intros p w1 H1 H2 H3 H4. apply effect_move; try done.
    - intros i. by rewrite H3.
    - intros i ti Hi. by rewrite H3. }
  destruct (t_pc t) as [|k|k|children|] eqn:Hpc; [| | | |done].
  - intros H. split; [done|]. revert H.
    destruct (t_must_cancel t); intros [= <-]; [by apply (Hmove Done w)|].
    unfold crawl_page_enter.
    destruct (should_stop w) eqn:Hs; [by apply (Hmove Done w)|].
    destruct (urlparse _); [|by apply (Hmove Done w)].
    destruct (negb _); [by apply (Hmove Done w)|].
    destruct (normalize_url _) as [k|]; [|by apply (Hmove Done w)].
    unfold add_page_visit. rewrite Hs.
    destruct (bool_decide _); [by apply (Hmove Done w)|].
    destruct (_ >=? _); simpl; [apply effect_stop|].
    unfold acquire. destruct (0 <? semaphore w).
    + by apply (Hmove _ (with_semaphore _ w)).
    + by apply (Hmove _ w).
  - intros H. split; [done|]. revert H.
    destruct (t_must_cancel t); [intros [= <-]; by apply (Hmove Done w)|].
    destruct (0 <? semaphore w); intros [= <-].
    by apply (Hmove _ (with_semaphore _ w)).
  - intros H. split; [done|]. revert H.
    destruct (t_must_cancel t); intros [= <-];
      [by apply (Hmove Done (release w))|].
    unfold crawl_page_fetched.
    destruct (get_html o) as [html|]; [|by apply (Hmove Done (release w))].
    destruct (should_stop _) eqn:Hs;
      [by apply (Hmove Done (release (record_page _ _ w)))|].
    rewrite spawn_unfold.
    destruct (get_urls_from_html _ _ _) as [|u us] eqn:Eu.
    + apply (Hmove Done (with_children [] (release (record_page _ _ w))));
        try done; simpl.
      * by rewrite (left_id_L ∅ (∪)).
      * by rewrite (left_id_L ∅ (∪)).
    + by apply (effect_spawn tid t w (u :: us) (release (record_page _ _ w))).
  - intros H. split; [done|]. revert H.
    destruct (all_done children w) eqn:Hd; intros [= <-].
    apply (effect_move tid t w Done (discard_tasks children w)); try done.
    + intros i. simpl. by intros [? _]%elem_of_difference.
    + intros i ti Hi Hni Hti. simpl in Hni.
      assert (i ∈ children) as Hc.
      { destruct (decide (i ∈ children)) as [|Hnc]; [done|]. destruct Hni.
        apply elem_of_difference. split; [done|].
        by rewrite elem_of_list_to_set. }
      unfold all_done in Hd. rewrite forallb_forall in Hd.
      apply list_elem_of_In in Hc. apply Hd in Hc. by rewrite Hti in Hc.
Qed.

Lemma live_effect tid t w w' :
  wf w -> live w -> tasks w !! tid = Some t -> task_done t = false ->
  effect tid t w w' -> live w'.
Proof.
  intros Hw [H1 H2 H3 H4] Ht Hnd He.
  assert (∀ t0, tid = 0%nat -> tasks w !! 0%nat = Some t0 -> t0 = t) as Hroot.
  { intros t0 -> Ht0. congruence. }
  destruct He as [p w1 Hts Hss Hsub Hrem Hp| |urls w1 Hts Hss Hat Hnt].
  - split; simpl; rewrite ?Hts, ?Hss.
    + intros i ti. destruct (decide (tid = i)) as [<-|Hne].
      * rewrite lookup_alter_eq, Ht. intros [= <-] Hi0 _.
        destruct (decide (tid ∈ all_tasks w1)) as [|Hni]; [done|].
        pose proof (H1 _ _ Ht Hi0 Hnd) as Hin.
        pose proof (Hrem _ _ Hin Hni Ht). congruence.
      * rewrite lookup_alter_ne by done. intros Hi Hi0 Hd.
        destruct (decide (i ∈ all_tasks w1)) as [|Hni]; [done|].
        pose proof (H1 _ _ Hi Hi0 Hd) as Hin.
        pose proof (Hrem _ _ Hin Hni Hi). congruence.
    + intros Hs i ti Hin%Hsub. destruct (decide (tid = i)) as [<-|Hne].
      * rewrite lookup_alter_eq, Ht. intros [= <-] _. simpl. eauto.
      * rewrite lookup_alter_ne by done. eauto.
    + intros i ti Hi Hi0 t0.
      assert (∃ tj, tasks w !! i = Some tj) as [tj Hj].
      { destruct (decide (tid = i)) as [<-|Hne]; [eauto|].
        rewrite lookup_alter_ne in Hi by done. eauto. }
      destruct (decide (tid = 0%nat)) as [->|Hne].
      * rewrite lookup_alter_eq, Ht. intros [= <-]. simpl.
        rewrite Hp; [done|]. by apply (H3 _ _ Hj Hi0).
      * rewrite lookup_alter_ne by done. by apply (H3 _ _ Hj Hi0).
    + intros Hs t0. destruct (decide (tid = 0%nat)) as [->|Hne].
      * rewrite lookup_alter_eq, Ht. intros [= <-]. simpl.
        rewrite Hp; [done|]. by apply (H4 Hs).
      * rewrite lookup_alter_ne by done. by apply (H4 Hs).
  - assert (∀ i ti, tasks (finish tid (cancel_all_tasks
                               (with_should_stop true w))) !! i = Some ti ->
              (i = tid ∧ t_pc ti = Done) ∨
              (i ≠ tid ∧ ∃ tj, tasks w !! i = Some tj ∧ t_pc ti = t_pc tj ∧
                 (i ∈ all_tasks w -> task_done tj = false ->
                  t_must_cancel ti = true))) as Hlk.
    { intros i ti. simpl. destruct (decide (tid = i)) as [<-|Hne].
      - rewrite lookup_alter_eq, map_lookup_imap, Ht. simpl.
        intros [= <-]. by left.
      - rewrite lookup_alter_ne, map_lookup_imap by done.
        destruct (tasks w !! i) as [tj|]; [|done]. simpl. intros [= <-].
        right. split; [done|]. exists tj. split; [done|].
        destruct (decide (i ∈ all_tasks w)) as [Hi|Hi]; [|done].
        destruct (negb (task_done tj)) eqn:E; simpl; [done|].
        split; [done|]. intros _ Hd. by rewrite Hd in E. }
    split.
    + intros i ti Hi Hi0 Hd. apply Hlk in Hi as [[-> Hpc]|[Hne (tj & Hj & Hpc & _)]].
      * unfold task_done in Hd. by rewrite Hpc in Hd.
      * apply (H1 _ _ Hj Hi0). unfold task_done in *. by rewrite <- Hpc.
    + intros _ i ti Hin Hi Hd.
      apply Hlk in Hi as [[-> Hpc]|[Hne (tj & Hj & Hpc & Hc)]].
      * unfold task_done in Hd. by rewrite Hpc in Hd.
      * apply Hc; [done|]. unfold task_done in *. by rewrite <- Hpc.
    + intros i ti Hi Hi0 t0 H0.
      apply Hlk in H0 as [[_ Hpc]|[Hne (tj & Hj & Hpc & _)]];
        [by rewrite Hpc|].
      rewrite Hpc. apply Hlk in Hi as [[-> _]|[_ (ti' & Hi' & _)]].
      * by apply (H3 _ _ Ht Hi0).
      * by apply (H3 _ _ Hi' Hi0).
    + intros _ t0 H0.
      apply Hlk in H0 as [[_ Hpc]|[Hne (tj & Hj & Hpc & _)]];
        [by rewrite Hpc|].
      rewrite Hpc. apply (H3 _ _ Ht); [done|done].
  - assert ((tid < next_task w)%nat) as Hlt by (by eapply wf_fresh).
    assert (∀ i ti, tasks (suspend tid (Gathering (seq (next_task w) (length urls)))
                         (with_children urls w1)) !! i = Some ti ->
              (i = tid ∧ t_pc ti = Gathering (seq (next_task w) (length urls))) ∨
              (i ≠ tid ∧ tasks w !! i = Some ti) ∨
              (i ≠ tid ∧ i ∈ (list_to_set (new_tasks (next_task w) urls).*1
                              : gset nat))) as Hlk.
    { intros i ti. simpl. rewrite Hts, Hnt.
      destruct (decide (tid = i)) as [<-|Hne].
      - rewrite lookup_alter_eq, lookup_union_r, Ht
          by (by apply new_tasks_lookup_lt). intros [= <-]. by left.
      - rewrite lookup_alter_ne by done.
        intros [H|[_ H]]%lookup_union_Some_raw; [|by right; left].
        right; right. split; [done|]. apply elem_of_list_to_set.
        apply list_elem_of_fmap. exists (i, ti). split; [done|].
        by apply elem_of_list_to_map_2. }
    split.
    + intros i ti Hi Hi0 Hd. simpl. rewrite Hat, Hnt.
      apply Hlk in Hi as [[-> _]|[[Hne Hi]|[Hne Hi]]].
      * apply elem_of_union_r. by apply (H1 _ _ Ht).
      * apply elem_of_union_r. by apply (H1 _ _ Hi).
      * by apply elem_of_union_l.
    + simpl. by rewrite Hss.
    + intros i ti Hi Hi0 t0 H0.
      apply Hlk in H0 as [[_ Hpc]|[[Hne H0]|[Hne H0]]]; [by rewrite Hpc| |].
      * apply (H3 tid t Ht); [congruence|done].
      * rewrite new_tasks_ids in H0. apply elem_of_list_to_set in H0.
        apply list_elem_of_In, in_seq in H0. lia.
    + simpl. by rewrite Hss.
Qed.

Lemma live_run_task o tid w w' :
  wf w -> live w -> run_task BeautifulSoup o tid w = Some w' -> live w'.
Proof.
  intros Hw Hl Hstep.
  destruct (tasks w !! tid) as [t|] eqn:Ht;
    [|unfold run_task in Hstep; by rewrite Ht in Hstep].
  destruct (run_task_effect _ _ _ _ _ Ht Hstep) as [Hnd He].
  by eapply live_effect.
Qed.

Lemma live_reachable w0 w :
  reachable BeautifulSoup w0 w -> wf w0 -> live w0 -> live w.
Proof.
  induction 1 as [|w1 w2 w3 (o & tid & Hstep) _ IH]; [done|].
  intros Hw Hl. apply IH.
  - by eapply wf_run_task.
  - by eapply live_run_task.
Qed.

(** while the stop flag is set no step adds to the ledger *)
Lemma stopped_ledger_is_frozen o tid w w' :
  live w -> should_stop w = true ->
  run_task BeautifulSoup o tid w = Some w' ->
  page_data w' = page_data w.
Proof.
  intros [H1 H2 H3 H4] Hs. unfold run_task.
  destruct (tasks w !! tid) as [t|] eqn:Ht; [|done].
  destruct (t_pc t) as [|k|k|children|] eqn:Hpc; [| | | |done].
  - destruct (t_must_cancel t); intros [= <-]; [done|].
    unfold crawl_page_enter. by rewrite Hs.
  - destruct (t_must_cancel t); [by intros [= <-]|].
    destruct (0 <? semaphore w); by intros [= <-].
  - destruct (t_must_cancel t) eqn:Hc; intros [= <-]; [done|].
    exfalso. destruct (decide (tid = 0%nat)) as [->|Hne].
    + pose proof (H4 Hs _ Ht) as Hp. by rewrite Hpc in Hp.
    + assert (task_done t = false) as Hnd
          by (unfold task_done; by rewrite Hpc).
      pose proof (H1 _ _ Ht Hne Hnd) as Hin.
      pose proof (H2 Hs _ _ Hin Ht Hnd). congruence.
  - destruct (all_done _ _); by intros [= <-].
Qed.

Lemma stop_flag_stays o tid w w' :
  should_stop w = true ->
  run_task BeautifulSoup o tid w = Some w' -> should_stop w' = true.
Proof.
  intros Hs. unfold run_task.
  destruct (tasks w !! tid) as [t|]; [|done].
  destruct (t_pc t) as [|k|k|children|]; [| | | |done].
  - destruct (t_must_cancel t); intros [= <-]; [done|].
    unfold crawl_page_enter. by rewrite Hs.
  - destruct (t_must_cancel t); [by intros [= <-]|].
    destruct (0 <? semaphore w); by intros [= <-].
  - destruct (t_must_cancel t); intros [= <-]; [done|].
    unfold crawl_page_fetched. destruct (get_html o); [|done].
    simpl. by rewrite Hs.
  - destruct (all_done _ _); by intros [= <-].
Qed.

End ParserStop.

End Cancellation.

(* ===================================================================== *)
(** ** The claims *)
(* ===================================================================== *)

Module Claims.
Import PyStr UrlLib Soup Crawl Spec Fixture StrFacts UrlFacts Normalize Counting
  Invariant Cancellation.

Lemma find_first name scope x :
  find name scope = Some x <-> first_tag name scope x.
Proof.
  unfold find, find_all, first_tag. generalize (descendants scope) as l.
  induction l as [|y l IH]; simpl.
  - split; [done|]. intros (b & a & H & _). by destruct b.
  - destruct (is_tag name y) eqn:E; simpl.
    + split.
      * intros [= <-]. exists [], l. split; [done|]. split; [done|].
        intros z Hz. by apply elem_of_nil in Hz.
      * intros (b & a & H & Hx & Hb). destruct b as [|z b]; simpl in H.
        -- congruence.
        -- inversion H; subst. rewrite Hb in E; [done|]. left.
    + rewrite IH. split.
      * intros (b & a & -> & Hx & Hb). exists (y :: b), a.
        split; [done|]. split; [done|]. intros z [->|Hz]%elem_of_cons; auto.
      * intros (b & a & H & Hx & Hb). destruct b as [|z b]; simpl in H.
        -- inversion H; subst. congruence.
        -- inversion H; subst. exists b, a. split; [done|]. split; [done|].
           intros z' Hz'. apply Hb. by right.
Qed.

Lemma find_none name scope :
  find name scope = None <-> no_tag name scope.
Proof.
  unfold find, find_all, no_tag. generalize (descendants scope) as l.
  induction l as [|y l IH]; simpl.
  - split; [|done]. intros _ z Hz. by apply elem_of_nil in Hz.
  - destruct (is_tag name y) eqn:E; simpl.
    + split; [done|]. intros H. rewrite H in E; [done|]. left.
    + rewrite IH. split.
      * intros H z [->|Hz]%elem_of_cons; auto.
      * intros H z Hz. apply H. by right.
Qed.

(** C9: the first paragraph extracted from a page is the text of the first
    [p] element, in document order, below the first [main] element when the
    page has a [main] (whatever paragraphs stand before the [main]); it is
    the text of the first [p] of the whole document when the page has no
    [main]; and it is the empty string when that search finds no [p].  On
    the page of the repository's test, with a paragraph before [main], the
    result is the paragraph of [main]. *)
Theorem first_paragraph_by_cases (BeautifulSoup : string -> node) (html : string) :
  let soup := BeautifulSoup html in
  let result := get_first_paragraph_from_html BeautifulSoup html in
  (∀ m p, first_tag "main" soup m → first_tag "p" m p →
          result = get_text_strip p) ∧
  (∀ m, first_tag "main" soup m → no_tag "p" m → result = EmptyString) ∧
  (∀ p, no_tag "main" soup → first_tag "p" soup p →
        result = get_text_strip p) ∧
  (no_tag "main" soup → no_tag "p" soup → result = EmptyString) ∧
  first_paragraph_of_soup main_priority_soup = "Main paragraph.".
Proof.
  unfold get_first_paragraph_from_html, first_paragraph_of_soup.
  repeat split.
  - intros m p Hm%find_first Hp%find_first. simpl. by rewrite Hm, Hp.
  - intros m Hm%find_first Hp%find_none. simpl. by rewrite Hm, Hp.
  - intros p Hm%find_none Hp%find_first. simpl. by rewrite Hm, Hp.
  - intros Hm%find_none Hp%find_none. simpl. by rewrite Hm, Hp.
Qed.

Lemma page_data_spawn tid urls w : page_data (spawn tid urls w) = page_data w.
Proof. by rewrite spawn_unfold. Qed.

Section ParserLedger.
Variable BeautifulSoup : string -> node.

(** with the stop flag set, a unit inside [get_html] has had its
    cancellation requested *)
Lemma stopped_fetching_is_cancelled w tid t k :
  live w -> should_stop w = true ->
  tasks w !! tid = Some t -> t_pc t = Fetching k ->
  t_must_cancel t = true.
Proof.
  intros [H1 H2 H3 H4] Hs Ht Hpc.
  destruct (decide (tid = 0%nat)) as [->|Hne].
  - pose proof (H4 Hs _ Ht) as Hp. by rewrite Hpc in Hp.
  - assert (task_done t = false) as Hnd by (unfold task_done; by rewrite Hpc).
    pose proof (H1 _ _ Ht Hne Hnd) as Hin.
    by apply (H2 Hs _ _ Hin Ht Hnd).
Qed.

(** C2: in a run, the record of a fetched page is inserted only while the
    stop flag is not set, and is discarded once it is set.  The unit that
    comes back from [get_html] with a usable page and goes on to line 151
    finds the flag not set, and stores the record under the normalized key;
    a step that changes the ledger is always taken with the flag not set.
    With the flag set, a unit inside [get_html] ends whatever the network
    answers: its page is discarded, its slot is given back and the ledger is
    as it was; and no step of any task changes the ledger or clears the
    flag.  Lines 150-151 hold no test of the flag themselves: setting the
    flag requests, in the same step, the cancellation of every task that
    could still reach them. *)
Theorem insertion_only_while_not_stopped (seed : string)
    (max_concurrency max_pages : Z) (w0 w : crawler) :
  init seed max_concurrency max_pages = Some w0 ->
  reachable BeautifulSoup w0 w ->
  (∀ o tid t normalized_url html,
     tasks w !! tid = Some t -> t_pc t = Fetching normalized_url ->
     t_must_cancel t = false -> get_html o = Some html ->
     should_stop w = false ∧
     ∃ w', run_task BeautifulSoup o tid w = Some w' ∧
           page_data w' =
             <[normalized_url :=
                 extract_page_data BeautifulSoup html (t_url t)]>
               (page_data w)) ∧
  (∀ o tid w', run_task BeautifulSoup o tid w = Some w' ->
               page_data w' ≠ page_data w -> should_stop w = false) ∧
  (should_stop w = true ->
   (∀ o tid t normalized_url,
      tasks w !! tid = Some t -> t_pc t = Fetching normalized_url ->
      run_task BeautifulSoup o tid w = Some (finish tid (release w)) ∧
      page_data (finish tid (release w)) = page_data w ∧
      semaphore (finish tid (release w)) = semaphore w + 1) ∧
   (∀ o tid w', run_task BeautifulSoup o tid w = Some w' ->
                page_data w' = page_data w ∧ should_stop w' = true)).
Proof.
  intros Hinit Hreach.
  pose proof (live_reachable _ _ _ Hreach (wf_init _ _ _ _ Hinit)
                (live_init _ _ _ _ Hinit)) as Hl.
  split; [|split].
  - intros o tid t k html Ht Hpc Hc Hg. split.
    + destruct (should_stop w) eqn:Hs; [|done].
      pose proof (stopped_fetching_is_cancelled w tid t k Hl Hs Ht Hpc).
      congruence.
    + eexists. split.
      * unfold run_task. rewrite Ht, Hpc, Hc. reflexivity.
      * unfold crawl_page_fetched. rewrite Hg.
        destruct (should_stop _); [done|]. by rewrite page_data_spawn.
  - intros o tid w' Hstep Hne.
    destruct (should_stop w) eqn:Hs; [|done].
    destruct Hne. by eapply stopped_ledger_is_frozen.
  - intros Hs. split.
    + intros o tid t k Ht Hpc.
      pose proof (stopped_fetching_is_cancelled w tid t k Hl Hs Ht Hpc) as Hc.
      split; [|done]. unfold run_task. by rewrite Ht, Hpc, Hc.
    + intros o tid w' Hstep. split.
      * by eapply stopped_ledger_is_frozen.
      * by eapply stop_flag_stays.
Qed.

End ParserLedger.

(** C3: [add_page_visit] is the three-way decision of [tryReserve].  With
    the stop flag set, or with the address already a key, it rejects and
    changes nothing.  Otherwise, with at least [max_pages] keys, it sets the
    stop flag, requests the cancellation of every task of [all_tasks] (a
    task that is done stays as it is, as with [task.cancel()]), touches
    nothing else, and rejects.  Otherwise it admits and changes nothing: in
    particular it inserts nothing into the ledger. *)
Theorem add_page_visit_decision (normalized_url : string) (w : crawler) :
  match tryReserve normalized_url w with
  | Granted => add_page_visit normalized_url w = (true, w)
  | AlreadyVisited => add_page_visit normalized_url w = (false, w)
  | LimitReached =>
      ∃ w', add_page_visit normalized_url w = (false, w') ∧
            should_stop w' = true ∧
            page_data w' = page_data w ∧
            all_tasks w' = all_tasks w ∧
            semaphore w' = semaphore w ∧
            ∀ i, tasks w' !! i =
                 (fun t => if bool_decide (i ∈ all_tasks w) && negb (task_done t)
                           then task_cancel t else t) <$> tasks w !! i
  end.
Proof.
  unfold tryReserve, add_page_visit.
  destruct (should_stop w); [done|].
  destruct (bool_decide (normalized_url ∈ _)); [done|].
  destruct (bool_decide (max_pages w ≤ _)) eqn:E.
  - apply bool_decide_eq_true in E.
    assert ((Z.of_nat (size (page_data w)) >=? max_pages w) = true) as ->
        by (apply Z.geb_le; lia).
    eexists. split; [done|]. repeat split.
    intros i. rewrite cancel_all_lookup. simpl.
    destruct (tasks w !! i) as [t|]; [|done]. simpl. f_equal.
    destruct (decide (i ∈ all_tasks w)) as [Hi|Hi].
    + by rewrite bool_decide_eq_true_2.
    + by rewrite bool_decide_eq_false_2.
  - apply bool_decide_eq_false in E.
    assert ((Z.of_nat (size (page_data w)) >=? max_pages w) = false) as ->;
      [|done].
    destruct (Z.geb_spec (Z.of_nat (size (page_data w))) (max_pages w)); [lia|done].
Qed.

Lemma get_html_unusable o : unusable o -> get_html o = None.
Proof.
  destruct o as [|status header text]; simpl; [done|].
  intros [H|H].
  - assert ((status >? 399) = true) as -> by (apply Z.gtb_lt; lia). done.
  - destruct (status >? 399); [done|]. by rewrite H.
Qed.

Section ParserSteps.
Variable BeautifulSoup : string -> node.

(** C7: when the answer to a request is unusable (a status of 400 or more,
    a content type without [text/html], or an error raised by the
    transport), [get_html] returns [None], and the unit that asked ends:
    it gives its slot back, the ledger, the stop flag and [all_tasks] are
    unchanged, no task is created, and every other task is as it was. *)
Theorem unusable_page_is_skipped (o : fetch_outcome) (tid : nat) (t : task)
    (normalized_url : string) (w : crawler) :
  tasks w !! tid = Some t ->
  t_pc t = Fetching normalized_url ->
  unusable o ->
  get_html o = None ∧
  ∃ w', run_task BeautifulSoup o tid w = Some w' ∧
        page_data w' = page_data w ∧
        should_stop w' = should_stop w ∧
        all_tasks w' = all_tasks w ∧
        next_task w' = next_task w ∧
        semaphore w' = semaphore w + 1 ∧
        tasks w' !! tid = Some (set_pc Done t) ∧
        ∀ i, i ≠ tid -> tasks w' !! i = tasks w !! i.
Proof.
  intros Ht Hpc Ho. pose proof (get_html_unusable o Ho) as Hg.
  split; [done|]. exists (finish tid (release w)). split.
  - unfold run_task. rewrite Ht, Hpc. destruct (t_must_cancel t); [done|].
    unfold crawl_page_fetched. by rewrite Hg.
  - repeat split.
    + simpl. by rewrite lookup_alter_eq, Ht.
    + intros i Hi. simpl. by rewrite lookup_alter_ne.
Qed.

(** C10: the scope check compares the netloc of the address with the
    seed's as they are written.  A unit started on an address whose host is
    the seed's host in another letter case ends at once, with the ledger
    unchanged and no task created, although the address has the key of the
    address with the seed's own host and the same path. *)
Theorem scope_check_is_case_sensitive (o : fetch_outcome) (tid : nat)
    (t : task) (r : ParseResult) (w : crawler) :
  tasks w !! tid = Some t ->
  t_pc t = Start ->
  urlparse (t_url t) = Some r ->
  netloc r ≠ base_domain w ->
  lower (netloc r) = lower (base_domain w) ->
  run_task BeautifulSoup o tid w = Some (finish tid w) ∧
  page_data (finish tid w) = page_data w ∧
  next_task (finish tid w) = next_task w ∧
  ∀ seed_like r', urlparse seed_like = Some r' ->
                  netloc r' = base_domain w -> path r' = path r ->
                  normalize_url (t_url t) = normalize_url seed_like.
Proof.
  intros Ht Hpc Hr Hne Hlow. split; [|split; [done|split; [done|]]].
  - unfold run_task. rewrite Ht, Hpc. destruct (t_must_cancel t); [done|].
    unfold crawl_page_enter. destruct (should_stop w); [done|]. rewrite Hr.
    by destruct (String.eqb_spec (netloc r) (base_domain w)).
  - intros seed_like r' Hr' Hn Hp.
    apply (Normalize.normalize_url_same_parts _ _ r' r); try done.
    + by rewrite Hn.
    + by rewrite Hp.
Qed.

End ParserSteps.

(** the fields no step writes *)
Lemma add_page_visit_consts k w b w' :
  add_page_visit k w = (b, w') ->
  base_url w' = base_url w ∧ base_domain w' = base_domain w ∧
  max_concurrency w' = max_concurrency w ∧ max_pages w' = max_pages w.
Proof.
  intros H. destruct (add_page_visit_frame _ _ _ _ H)
    as (? & ? & _ & ? & ? & _). done.
Qed.

Section ParserRuns.
Variable BeautifulSoup : string -> node.

Lemma run_task_consts o tid w w' :
  run_task BeautifulSoup o tid w = Some w' ->
  base_url w' = base_url w ∧ base_domain w' = base_domain w ∧
  max_concurrency w' = max_concurrency w ∧ max_pages w' = max_pages w.
Proof.
  unfold run_task. intros H.
  destruct (tasks w !! tid) as [t|]; [|done].
  destruct (t_pc t) as [|k|k|children|]; [| | | |done].
  - destruct (t_must_cancel t); inversion H; subst; [done|].
    unfold crawl_page_enter. destruct (should_stop w); [done|].
    destruct (urlparse _); [|done]. destruct (negb _); [done|].
    destruct (normalize_url _) as [k|]; [|done].
    destruct (add_page_visit k w) as [b w1] eqn:E.
    apply add_page_visit_consts in E. destruct b; simpl; [|done].
    unfold acquire. by destruct (0 <? _).
  - destruct (t_must_cancel t); [by inversion H; subst|].
    destruct (0 <? _); by inversion H; subst.
  - destruct (t_must_cancel t); inversion H; subst; [done|].
    unfold crawl_page_fetched. destruct (get_html o); [|done].
    destruct (should_stop _); [done|]. by rewrite spawn_unfold.
  - destruct (all_done _ _); by inversion H; subst.
Qed.

Lemma reachable_consts w0 w :
  reachable BeautifulSoup w0 w ->
  base_url w = base_url w0 ∧ base_domain w = base_domain w0 ∧
  max_concurrency w = max_concurrency w0 ∧ max_pages w = max_pages w0.
Proof.
  induction 1 as [|w1 w2 w3 (o & tid & Hstep) _ IH]; [done|].
  apply run_task_consts in Hstep. destruct IH as (-> & -> & -> & ->). done.
Qed.

Lemma run_schedule_reachable sched w w' :
  run_schedule BeautifulSoup sched w = Some w' ->
  reachable BeautifulSoup w w'.
Proof.
  revert w. induction sched as [|[tid o] rest IH]; intros w; simpl.
  - intros [= <-]. apply rtc_refl.
  - destruct (run_task BeautifulSoup o tid w) as [w1|] eqn:E; [|done].
    intros H. eapply rtc_l; [by exists o, tid|]. by apply IH.
Qed.

(** how the running task and the counter change in one step *)
Lemma run_task_slot o tid t w w' :
  wf w -> tasks w !! tid = Some t ->
  run_task BeautifulSoup o tid w = Some w' ->
  ∃ t', tasks w' !! tid = Some t' ∧
        semaphore w' = semaphore w + b2z (is_fetching t) - b2z (is_fetching t') ∧
        (is_fetching t = true ∨ next_task w' ≠ next_task w ->
         is_fetching t' = false).
Proof.
  intros Hw Ht. unfold run_task. rewrite Ht.
  assert (∀ p (w1 : crawler) t1, tasks w1 !! tid = Some t1 ->
            tasks (suspend tid p w1) !! tid = Some (set_pc p t1)) as Hsus.
  { intros p w1 t1 H1. simpl. by rewrite lookup_alter_eq, H1. }
  unfold is_fetching at 1 3.
  destruct (t_pc t) as [|k|k|children|] eqn:Hpc; [| | | |done].
  - destruct (t_must_cancel t); intros [= <-]; [by closes_step Hsus|].
    unfold crawl_page_enter.
    destruct (should_stop w); [by closes_step Hsus|].
    destruct (urlparse _); [|by closes_step Hsus].
    destruct (negb _); [by closes_step Hsus|].
    destruct (normalize_url _) as [k|]; [|by closes_step Hsus].
    destruct (add_page_visit k w) as [b w1] eqn:E.
    destruct (add_page_visit_frame _ _ _ _ E)
      as (_ & _ & _ & _ & _ & Hs & _ & Hn & Hts).
    destruct (Hts _ _ Ht) as (t1 & Ht1 & _ & _).
    destruct b; simpl.
    + unfold acquire. destruct (0 <? semaphore w1).
      * eexists. split; [by apply (Hsus _ (with_semaphore _ w1))|].
        split; [simpl; lia|]. simpl. intros [|]; congruence.
      * eexists. split; [by apply Hsus|].
        split; [simpl; lia|]. simpl. intros [|]; congruence.
    + eexists. split; [by apply Hsus|].
      split; [simpl; lia|]. simpl. intros [|]; congruence.
  - destruct (t_must_cancel t); [intros [= <-]; by closes_step Hsus|].
    destruct (0 <? semaphore w); intros [= <-].
    eexists. split; [by apply (Hsus _ (with_semaphore _ w))|].
    split; [simpl; lia|]. simpl. intros [|]; congruence.
  - destruct (t_must_cancel t); intros [= <-].
    { eexists. split; [by apply (Hsus _ (release w))|]. split; [simpl; lia|done]. }
    unfold crawl_page_fetched. destruct (get_html o) as [html|].
    + destruct (should_stop _).
      * eexists. split; [by apply (Hsus _ (release (record_page _ _ w)))|].
        split; [simpl; lia|done].
      * rewrite spawn_unfold. eexists. split.
        -- apply Hsus. apply with_children_lookup_old; [|done].
           simpl. by eapply wf_fresh.
        -- split; [|intros _; by destruct (get_urls_from_html _ _ _)].
           simpl. destruct (get_urls_from_html _ _ _); simpl; lia.
    + eexists. split; [by apply (Hsus _ (release w))|]. split; [simpl; lia|done].
  - destruct (all_done _ _); intros [= <-].
    eexists. split; [by apply (Hsus _ (discard_tasks _ w))|].
    split; [simpl; lia|]. simpl. intros [|]; congruence.
Qed.

(** C4: in every world of a run the semaphore's counter is not negative
    and the tasks inside [get_html] are as many as the slots taken, so never
    more than [max_concurrency].  A step changes the counter by the slot its
    task takes or gives back: a task enters [get_html] with a slot taken,
    and a task that was inside [get_html], or that created tasks in this
    step, holds no slot after it (the slot is given back before the
    children exist). *)
Theorem at_most_max_concurrency_fetches (seed : string)
    (max_concurrency max_pages : Z) (w0 w : crawler) :
  init seed max_concurrency max_pages = Some w0 ->
  reachable BeautifulSoup w0 w ->
  0 ≤ semaphore w ∧
  semaphore w + Z.of_nat (fetching w) = max_concurrency ∧
  Z.of_nat (fetching w) ≤ max_concurrency ∧
  ∀ o tid t w',
    tasks w !! tid = Some t ->
    run_task BeautifulSoup o tid w = Some w' ->
    ∃ t', tasks w' !! tid = Some t' ∧
          semaphore w' = semaphore w + b2z (is_fetching t) - b2z (is_fetching t') ∧
          (is_fetching t = true ∨ next_task w' ≠ next_task w ->
           is_fetching t' = false).
Proof.
  intros Hinit Hreach.
  pose proof (wf_reachable _ _ _ Hreach (wf_init _ _ _ _ Hinit)) as Hw.
  destruct (reachable_consts _ _ Hreach) as (_ & _ & Hmc & _).
  assert (Crawl.max_concurrency w0 = max_concurrency) as Hmc0.
  { unfold init in Hinit. destruct (urlparse seed); [|done].
    destruct (max_concurrency <? 0); [done|]. by inversion Hinit. }
  pose proof (wf_sem_nonneg _ Hw). pose proof (wf_sem _ Hw).
  repeat split; try lia.
  intros o tid t w' Ht Hstep. by eapply run_task_slot.
Qed.

(** C6: in every world of a run the ledger has no two entries with one
    key, and every entry is the record of an address whose netloc is the
    seed's and whose key is the entry's key.  A unit started on an address
    with another netloc ends at once: the ledger, the stop flag and
    [all_tasks] are unchanged and no task is created. *)
Theorem ledger_keys_unique_and_in_scope (seed : string)
    (max_concurrency max_pages : Z) (w0 w : crawler) :
  init seed max_concurrency max_pages = Some w0 ->
  reachable BeautifulSoup w0 w ->
  NoDup (map_to_list (page_data w)).*1 ∧
  (∀ k info, page_data w !! k = Some info ->
     ∃ r r0, urlparse (url info) = Some r ∧ urlparse seed = Some r0 ∧
             netloc r = netloc r0 ∧ normalize_url (url info) = Some k) ∧
  (∀ o tid t r,
     tasks w !! tid = Some t -> t_pc t = Start ->
     urlparse (t_url t) = Some r -> netloc r ≠ base_domain w ->
     run_task BeautifulSoup o tid w = Some (finish tid w) ∧
     page_data (finish tid w) = page_data w ∧
     should_stop (finish tid w) = should_stop w ∧
     all_tasks (finish tid w) = all_tasks w ∧
     next_task (finish tid w) = next_task w).
Proof.
  intros Hinit Hreach.
  pose proof (wf_reachable _ _ _ Hreach (wf_init _ _ _ _ Hinit)) as Hw.
  destruct (reachable_consts _ _ Hreach) as (_ & Hdom & _ & _).
  assert (∃ r0, urlparse seed = Some r0 ∧ base_domain w0 = netloc r0)
    as (r0 & Hr0 & Hd0).
  { unfold init in Hinit. destruct (urlparse seed) as [r0|]; [|done].
    destruct (max_concurrency <? 0); [done|]. inversion Hinit. eauto. }
  split; [apply NoDup_fst_map_to_list|]. split.
  - intros k info Hk. destruct (wf_ledger _ Hw k info Hk) as (r & Hr & Hn & Hk').
    exists r, r0. by rewrite Hn, Hdom, Hd0.
  - intros o tid t r Ht Hpc Hr Hne. split; [|done].
    unfold run_task. rewrite Ht, Hpc. destruct (t_must_cancel t); [done|].
    unfold crawl_page_enter. destruct (should_stop w); [done|]. rewrite Hr.
    by destruct (String.eqb_spec (netloc r) (base_domain w)).
Qed.

(** C5: after a usable answer, the record stored for the page holds the
    links of the page resolved against the page's own address, and the
    tasks created for the fan-out are, in order, the links resolved against
    the seed's address.  The two lists differ on a page with a relative
    link: [two] on [https://blog.boot.dev/posts/one] is
    [https://blog.boot.dev/posts/two] for the record and
    [https://blog.boot.dev/two] for the fan-out of a crawl seeded at
    [https://blog.boot.dev]. *)
Theorem fan_out_resolves_against_seed (seed : string)
    (max_concurrency max_pages : Z) (w0 w : crawler)
    (o : fetch_outcome) (html : string) (tid : nat) (t : task) (k : string) :
  init seed max_concurrency max_pages = Some w0 ->
  reachable BeautifulSoup w0 w ->
  tasks w !! tid = Some t -> t_pc t = Fetching k -> t_must_cancel t = false ->
  should_stop w = false ->
  get_html o = Some html ->
  ∃ w', run_task BeautifulSoup o tid w = Some w' ∧
    (∃ info, page_data w' !! k = Some info ∧ url info = t_url t ∧
             outgoing_links info = urls_of_soup (BeautifulSoup html) (t_url t)) ∧
    (∀ j u, urls_of_soup (BeautifulSoup html) seed !! j = Some u ->
            tasks w' !! (next_task w + j)%nat = Some (mkTask u Start false)) ∧
    next_task w' =
      (next_task w + length (urls_of_soup (BeautifulSoup html) seed))%nat ∧
    urls_of_soup relative_link_soup "https://blog.boot.dev/posts/one"
      = ["https://blog.boot.dev/posts/two"] ∧
    urls_of_soup relative_link_soup "https://blog.boot.dev"
      = ["https://blog.boot.dev/two"].
Proof.
  intros Hinit Hreach Ht Hpc Hc Hstop Hg.
  pose proof (wf_reachable _ _ _ Hreach (wf_init _ _ _ _ Hinit)) as Hw.
  destruct (reachable_consts _ _ Hreach) as (Hbase & _ & _ & _).
  assert (base_url w0 = seed) as Hseed.
  { unfold init in Hinit. destruct (urlparse seed); [|done].
    destruct (max_concurrency <? 0); [done|]. by inversion Hinit. }
  eexists. split.
  { unfold run_task. rewrite Ht, Hpc, Hc. unfold crawl_page_fetched.
    rewrite Hg. simpl. rewrite Hstop. reflexivity. }
  rewrite spawn_unfold. unfold get_urls_from_html. simpl base_url.
  rewrite Hbase, Hseed.
  set (urls := urls_of_soup (BeautifulSoup html) seed).
  split; [|split; [|split; [done|split; by vm_compute]]].
  - exists (extract_page_data BeautifulSoup html (t_url t)).
    split; [|done]. simpl. by rewrite lookup_insert_eq.
  - intros j u Hj. simpl. rewrite lookup_alter_ne.
    + rewrite lookup_union_l'; [by apply new_tasks_lookup_nth|].
      by rewrite (new_tasks_lookup_nth _ _ _ _ Hj).
    + apply (wf_fresh _ Hw) in Ht. lia.
Qed.

End ParserRuns.

(** C1, where the code breaks the bound: seeded at a page with links to
    two pages, with [max_pages = 2], the crawl returns a mapping of three
    entries.  Both linked pages are reserved while the ledger holds one
    entry, and both are recorded. *)
Theorem ledger_can_exceed_max_pages :
  ∃ w0 w,
    init "https://a.com" 1 2 = Some w0 ∧
    reachable site_soup w0 w ∧
    finished w ∧
    max_pages w = 2 ∧
    size (page_data w) = 3%nat.
Proof.
  destruct (init "https://a.com" 1 2) as [w0|] eqn:E0; [|by vm_compute in E0].
  destruct (run_schedule site_soup over_limit_schedule w0) as [w|] eqn:E;
    [|vm_compute in E0; inversion E0; subst; by vm_compute in E].
  exists w0, w. split; [done|]. split; [by apply run_schedule_reachable in E|].
  vm_compute in E0. inversion E0; subst. vm_compute in E. inversion E; subst.
  split; [|split; by vm_compute].
  eexists. split; by vm_compute.
Qed.

(** *** The theorems at concrete inputs *)

Lemma site_init_eq limit :
  init "https://a.com" 1 limit = Some (site_init limit).
Proof. reflexivity. Qed.

Lemma site_world_reachable limit sched w :
  run_schedule site_soup sched (site_init limit) = Some w ->
  reachable site_soup (site_init limit) w.
Proof. apply run_schedule_reachable. Qed.

(** C2, on the site of depth two: [/y] is inside [get_html] when the limit
    is reached; its page arrives afterwards and is discarded. *)
Lemma insertion_only_while_not_stopped_witness :
  init "https://a.com" 2 2 = Some cut_off_init ∧
  reachable deep_soup cut_off_init cut_off_world ∧
  should_stop cut_off_world = true ∧
  tasks cut_off_world !! 2%nat
    = Some (mkTask "https://a.com/y" (Fetching "a.com/y") true) ∧
  run_task deep_soup (ok leaf_html) 2 cut_off_world
    = Some (finish 2 (release cut_off_world)) ∧
  page_data (finish 2 (release cut_off_world)) = page_data cut_off_world.
Proof.
  assert (init "https://a.com" 2 2 = Some cut_off_init) as Hi by reflexivity.
  assert (reachable deep_soup cut_off_init cut_off_world) as Hr
      by (apply (run_schedule_reachable deep_soup cut_off_schedule);
          by vm_compute).
  assert (should_stop cut_off_world = true) as Hs by (by vm_compute).
  assert (tasks cut_off_world !! 2%nat
          = Some (mkTask "https://a.com/y" (Fetching "a.com/y") true)) as Ht
      by (by vm_compute).
  destruct (insertion_only_while_not_stopped deep_soup "https://a.com" 2 2
              cut_off_init cut_off_world Hi Hr) as (_ & _ & Hstopped).
  destruct (Hstopped Hs) as [Hdrop _].
  destruct (Hdrop (ok leaf_html) 2%nat
              (mkTask "https://a.com/y" (Fetching "a.com/y") true) "a.com/y"
              Ht eq_refl) as (Hrun & Hpd & _).
  split; [exact Hi|]. split; [exact Hr|]. split; [exact Hs|].
  split; [exact Ht|]. split; [exact Hrun|exact Hpd].
Defined.

(** C4, on the example site while the first linked page is being
    fetched: one task is inside [get_html] and the only slot is taken. *)
Lemma at_most_max_concurrency_fetches_witness :
  init "https://a.com" 1 2 = Some (site_init 2) ∧
  reachable site_soup (site_init 2) (site_world 2 child_fetching) ∧
  semaphore (site_world 2 child_fetching) = 0 ∧
  Z.of_nat (fetching (site_world 2 child_fetching)) ≤ 1.
Proof.
  assert (reachable site_soup (site_init 2) (site_world 2 child_fetching)) as Hr
      by (apply (site_world_reachable 2 child_fetching); by vm_compute).
  split; [exact (site_init_eq 2)|]. split; [exact Hr|]. split; [by vm_compute|].
  apply (at_most_max_concurrency_fetches site_soup "https://a.com" 1 2
           (site_init 2) _ (site_init_eq 2) Hr).
Defined.

(** C5, on the example site: the root's fan-out *)
Lemma fan_out_resolves_against_seed_witness :
  ∃ w', run_task site_soup (ok seed_html) 0 (site_world 2 root_fetching)
          = Some w' ∧
        tasks w' !! 1%nat = Some (mkTask "https://a.com/x" Start false) ∧
        tasks w' !! 2%nat = Some (mkTask "https://a.com/y" Start false).
Proof.
  assert (reachable site_soup (site_init 2) (site_world 2 root_fetching)) as Hr
      by (apply (site_world_reachable 2 root_fetching); by vm_compute).
  assert (tasks (site_world 2 root_fetching) !! 0%nat
          = Some (mkTask "https://a.com" (Fetching "a.com") false)) as Ht
      by (by vm_compute).
  assert (should_stop (site_world 2 root_fetching) = false) as Hs
      by (by vm_compute).
  assert (get_html (ok seed_html) = Some seed_html) as Hg by (by vm_compute).
  destruct (fan_out_resolves_against_seed site_soup "https://a.com" 1 2
              (site_init 2) (site_world 2 root_fetching) (ok seed_html)
              seed_html
              0%nat (mkTask "https://a.com" (Fetching "a.com") false) "a.com"
              (site_init_eq 2) Hr Ht eq_refl eq_refl Hs Hg)
    as (w' & Hrun & _ & Hkids & _).
  exists w'. split; [exact Hrun|]. split.
  - apply (Hkids 0%nat "https://a.com/x"). by vm_compute.
  - apply (Hkids 1%nat "https://a.com/y"). by vm_compute.
Defined.

(** C6, on the example site at the end of the run *)
Lemma ledger_keys_unique_and_in_scope_witness :
  reachable site_soup (site_init 2) (site_world 2 over_limit_schedule) ∧
  NoDup (map_to_list (page_data (site_world 2 over_limit_schedule))).*1.
Proof.
  assert (reachable site_soup (site_init 2) (site_world 2 over_limit_schedule))
    as Hr by (apply (site_world_reachable 2 over_limit_schedule); by vm_compute).
  split; [exact Hr|].
  apply (ledger_keys_unique_and_in_scope site_soup "https://a.com" 1 2
           (site_init 2) _ (site_init_eq 2) Hr).
Defined.

(** C7, on the example site: the seed answers 404 *)
Lemma unusable_page_is_skipped_witness :
  unusable not_found ∧
  get_html not_found = None ∧
  ∃ w', run_task site_soup not_found 0 (site_world 2 root_fetching) = Some w' ∧
        page_data w' = page_data (site_world 2 root_fetching).
Proof.
  assert (unusable not_found) as Hu by (left; lia).
  assert (tasks (site_world 2 root_fetching) !! 0%nat
          = Some (mkTask "https://a.com" (Fetching "a.com") false)) as Ht
      by (by vm_compute).
  destruct (unusable_page_is_skipped site_soup not_found 0%nat
              (mkTask "https://a.com" (Fetching "a.com") false) "a.com"
              (site_world 2 root_fetching) Ht eq_refl Hu)
    as (Hg & w' & Hrun & Hpd & _).
  split; [exact Hu|]. split; [exact Hg|]. exists w'. by split.
Defined.

(** C10, on a link to [https://BLOG.boot.dev/path] found by a crawl seeded
    at [https://blog.boot.dev] *)
Lemma scope_check_is_case_sensitive_witness :
  run_task site_soup Raised 1 capitals_world
    = Some (finish 1 capitals_world) ∧
  normalize_url "https://BLOG.boot.dev/path"
    = normalize_url "https://blog.boot.dev/path".
Proof.
  assert (tasks capitals_world !! 1%nat
          = Some (mkTask "https://BLOG.boot.dev/path" Start false)) as Ht
      by (by vm_compute).
  assert (urlparse "https://BLOG.boot.dev/path"
          = Some (mkParse "https" "BLOG.boot.dev" "/path"
                          EmptyString EmptyString EmptyString)) as Hp
      by (by vm_compute).
  assert ("BLOG.boot.dev" ≠ base_domain capitals_world) as Hne
      by (by vm_compute).
  assert (lower "BLOG.boot.dev" = lower (base_domain capitals_world)) as Hl
      by (by vm_compute).
  destruct (scope_check_is_case_sensitive site_soup Raised 1%nat
              (mkTask "https://BLOG.boot.dev/path" Start false)
              (mkParse "https" "BLOG.boot.dev" "/path"
                       EmptyString EmptyString EmptyString)
              capitals_world Ht eq_refl Hp Hne Hl)
    as (Hrun & _ & _ & Hkey).
  split; [exact Hrun|].
  apply (Hkey "https://blog.boot.dev/path"
           (mkParse "https" "blog.boot.dev" "/path"
                    EmptyString EmptyString EmptyString));
    by vm_compute.
Defined.

End Claims.

(* ===================================================================== *)
(** ** The steps of a run *)
(* ===================================================================== *)

Module Steps.
Import PyStr UrlLib Soup Crawl Spec Fixture StrFacts UrlFacts Normalize Counting
  Invariant Cancellation Claims.

Lemma spawn_nil tid w : spawn tid [] w = finish tid w.
Proof.
  destruct w. unfold spawn, finish. simpl.
  unfold with_tasks, with_all_tasks, with_next_task. simpl.
  by rewrite !(left_id_L ∅ (∪)), Nat.add_0_r.
Qed.

Section ParserTransition.
Variable BeautifulSoup : string -> node.

Lemma run_task_transition o tid w w' :
  run_task BeautifulSoup o tid w = Some w' ->
  ∃ t, tasks w !! tid = Some t ∧ transition BeautifulSoup o tid t w w'.
Proof.
  unfold run_task. destruct (tasks w !! tid) as [t|] eqn:Ht; [|done].
  intros H. exists t. split; [done|].
  destruct (t_pc t) as [|k|k|children|] eqn:Hpc; [| | | |done].
  - destruct (t_must_cancel t) eqn:Hc; inversion H; subst; clear H;
      [apply tr_return; by left|].
    unfold crawl_page_enter.
    destruct (should_stop w) eqn:Hs; [apply tr_return; by left|].
    destruct (urlparse (t_url t)) as [r|] eqn:Er; [|apply tr_return; by left].
    destruct (String.eqb_spec (netloc r) (base_domain w)) as [Hdom|]; simpl;
      [|apply tr_return; by left].
    destruct (normalize_url (t_url t)) as [k|] eqn:Ek;
      [|apply tr_return; by left].
    unfold add_page_visit. rewrite Hs.
    destruct (bool_decide (k ∈ dom (page_data w))) eqn:Ed;
      [apply tr_return; by left|].
    apply bool_decide_eq_false in Ed.
    destruct (Z.geb_spec (Z.of_nat (size (page_data w))) (max_pages w)).
    + simpl. apply (tr_limit _ _ _ _ _ k); try done.
    + simpl. apply tr_granted; try done. by exists r.
  - destruct (t_must_cancel t) eqn:Hc;
      [inversion H; subst; apply tr_return; right; eauto|].
    destruct (Z.ltb_spec 0 (semaphore w)); inversion H; subst.
    by apply tr_slot.
  - destruct (t_must_cancel t) eqn:Hc; inversion H; subst; clear H;
      [apply (tr_unusable _ _ _ _ _ k); auto|].
    unfold crawl_page_fetched.
    destruct (get_html o) as [html|] eqn:Hg;
      [|apply (tr_unusable _ _ _ _ _ k); auto].
    pose proof (tr_recorded BeautifulSoup o tid t w k html Hpc Hc Hg) as Htr.
    simpl. destruct (should_stop w) eqn:Hs; [|done].
    by rewrite spawn_nil in Htr.
  - destruct (all_done children w) eqn:Hd; inversion H; subst.
    by apply tr_gathered.
Qed.

End ParserTransition.

End Steps.

Module Family.
Import PyStr UrlLib Soup Crawl Spec Fixture StrFacts UrlFacts Normalize Counting
  Invariant Cancellation Claims Steps.

Lemma family_init base mc mp w0 : init base mc mp = Some w0 -> family w0.
Proof.
  unfold init. destruct (urlparse base) as [r|]; [|done].
  destruct (mc <? 0); [done|]. intros [= <-]. split; simpl.
  - eexists. by rewrite lookup_singleton_eq.
  - intros i Hi. by apply elem_of_empty in Hi.
  - intros p tp children c [<- <-]%lookup_singleton_Some. done.
Qed.

Lemma family_not_registered_root w : family w -> 0%nat ∉ all_tasks w.
Proof.
  intros Hf Hin. destruct (family_parent _ Hf _ Hin) as (p & _ & _ & Hp & _). lia.
Qed.

(** a task that awaits nothing moves on; the other tasks keep their state *)
Lemma family_move w w1 tid t p :
  family w -> tasks w !! tid = Some t ->
  (∀ children, t_pc t ≠ Gathering children) ->
  (∀ children, p ≠ Gathering children) ->
  all_tasks w1 = all_tasks w ->
  (∀ i t0, tasks w !! i = Some t0 ->
     ∃ t1, tasks w1 !! i = Some t1 ∧ t_pc t1 = t_pc t0 ∧
           (i = 0%nat -> t_must_cancel t1 = t_must_cancel t0)) ->
  (∀ i t1, tasks w1 !! i = Some t1 ->
     ∃ t0, tasks w !! i = Some t0 ∧ t_pc t1 = t_pc t0) ->
  family (suspend tid p w1).
Proof.
  intros [(t0 & H0 & Hc0) Hpar Hch] Ht Hng Hpg Hall Hfw Hbw. split; simpl.
  - destruct (Hfw _ _ H0) as (t1 & H1 & _ & Hc1). specialize (Hc1 eq_refl).
    destruct (decide (tid = 0%nat)) as [->|Hne].
    + rewrite lookup_alter_eq, H1. simpl. eexists. split; [done|]. simpl. congruence.
    + rewrite lookup_alter_ne by done. exists t1. split; [done|]. congruence.
  - rewrite Hall. intros i Hi.
    destruct (Hpar i Hi) as (q & tq & children & Hlt & Hq & Hpc & Hin).
    destruct (Hfw _ _ Hq) as (tq1 & Hq1 & Hpc1 & _).
    exists q, tq1, children. split; [done|]. split; [|split; [congruence|done]].
    rewrite lookup_alter_ne; [done|]. intros <-.
    rewrite Ht in Hq. inversion Hq; subst. by destruct (Hng children).
  - intros q tq children c. destruct (decide (tid = q)) as [<-|Hne].
    + rewrite lookup_alter_eq. destruct (tasks w1 !! tid); [|done].
      simpl. intros [= <-]. simpl. intros ->. by destruct (Hpg children).
    + rewrite lookup_alter_ne by done. intros Hq Hpc Hin.
      destruct (Hbw _ _ Hq) as (tq0 & Hq0 & Hpc0).
      apply (Hch q tq0 children c); congruence.
Qed.

Lemma family_same w w1 tid t p :
  family w -> tasks w !! tid = Some t ->
  (∀ children, t_pc t ≠ Gathering children) ->
  (∀ children, p ≠ Gathering children) ->
  all_tasks w1 = all_tasks w -> tasks w1 = tasks w ->
  family (suspend tid p w1).
Proof.
  intros Hf Ht Hng Hpg Hall Hts. apply (family_move w w1 tid t); try done.
  - intros i t0 Hi. exists t0. by rewrite Hts.
  - intros i t1 Hi. exists t1. by rewrite <- Hts.
Qed.

Lemma suspend_lookup_eq tid p w :
  tasks (suspend tid p w) !! tid = set_pc p <$> tasks w !! tid.
Proof. simpl. by rewrite lookup_alter_eq. Qed.

Lemma suspend_lookup_ne tid p w i :
  tid ≠ i -> tasks (suspend tid p w) !! i = tasks w !! i.
Proof. intros H. simpl. by rewrite lookup_alter_ne. Qed.

Lemma finish_lookup_eq tid w :
  tasks (finish tid w) !! tid = set_pc Done <$> tasks w !! tid.
Proof. simpl. by rewrite lookup_alter_eq. Qed.

Lemma finish_lookup_ne tid w i :
  tid ≠ i -> tasks (finish tid w) !! i = tasks w !! i.
Proof. intros H. simpl. by rewrite lookup_alter_ne. Qed.

Lemma family_spawn w w1 tid t urls :
  wf w -> family w -> tasks w !! tid = Some t ->
  (∀ children, t_pc t ≠ Gathering children) ->
  tasks w1 = tasks w -> all_tasks w1 = all_tasks w ->
  next_task w1 = next_task w ->
  family (spawn tid urls w1).
Proof.
  intros Hw [(t0 & H0 & Hc0) Hpar Hch] Ht Hng Hts Hall Hnt.
  rewrite spawn_unfold.
  set (P := match urls with
            | [] => Done
            | _ => Gathering (seq (next_task w1) (length urls))
            end).
  assert (∀ i ti, tasks w !! i = Some ti ->
            tasks (with_children urls w1) !! i = Some ti) as Hold.
  { intros i ti Hi. apply with_children_lookup_old; [|by rewrite Hts].
    rewrite Hnt. by eapply wf_fresh. }
  assert ((tid < next_task w)%nat) as Hlt by (by eapply wf_fresh).
  split.
  - destruct (decide (tid = 0%nat)) as [->|Hne].
    + rewrite suspend_lookup_eq, (Hold _ _ H0). simpl. eauto.
    + rewrite suspend_lookup_ne by done. rewrite (Hold _ _ H0). eauto.
  - intros i Hi. simpl in Hi. rewrite new_tasks_ids in Hi.
    apply elem_of_union in Hi as [Hi|Hi].
    + apply elem_of_list_to_set, list_elem_of_In, in_seq in Hi.
      exists tid, (set_pc P t), (seq (next_task w1) (length urls)).
      split; [lia|]. split; [|split].
      * by rewrite suspend_lookup_eq, (Hold _ _ Ht).
      * unfold P. destruct urls; [simpl in Hi; lia|done].
      * apply list_elem_of_In, in_seq. lia.
    + rewrite Hall in Hi.
      destruct (Hpar i Hi) as (q & tq & children & Hq & Hlk & Hpc & Hin).
      exists q, tq, children. split; [done|]. split; [|done].
      rewrite suspend_lookup_ne.
      * by apply Hold.
      * intros <-. rewrite Ht in Hlk. inversion Hlk; subst.
        by destruct (Hng children).
  - intros q tq children c. destruct (decide (tid = q)) as [<-|Hne].
    + rewrite suspend_lookup_eq, (Hold _ _ Ht). simpl. intros [= <-]. simpl.
      assert (P = Gathering children ->
              children = seq (next_task w1) (length urls)) as HP.
      { unfold P. destruct urls; [done|]. by intros [= <-]. }
      intros ->%HP Hin%list_elem_of_In%in_seq. lia.
    + rewrite suspend_lookup_ne by done.
      intros [H|Hq]%with_children_lookup.
      * rewrite Hts in H. by apply Hch.
      * destruct Hq as [_ (u & -> & _)]. done.
Qed.

Lemma family_gathered w tid t children :
  family w -> tasks w !! tid = Some t -> t_pc t = Gathering children ->
  family (finish tid (discard_tasks children w)).
Proof.
  intros [(t0 & H0 & Hc0) Hpar Hch] Ht Hpc. split; simpl.
  - destruct (decide (tid = 0%nat)) as [->|Hne].
    + rewrite lookup_alter_eq, H0. simpl. eauto.
    + rewrite lookup_alter_ne by done. eauto.
  - intros i [Hi Hni]%elem_of_difference.
    destruct (Hpar i Hi) as (q & tq & ch & Hq & Hlk & Hpcq & Hin).
    exists q, tq, ch. split; [done|]. split; [|done].
    rewrite lookup_alter_ne; [done|]. intros <-.
    rewrite Ht in Hlk. inversion Hlk; subst. rewrite Hpc in Hpcq.
    inversion Hpcq; subst. destruct Hni. by apply elem_of_list_to_set.
  - intros q tq ch c. destruct (decide (tid = q)) as [<-|Hne].
    + rewrite lookup_alter_eq, Ht. simpl. by intros [= <-].
    + rewrite lookup_alter_ne by done. apply Hch.
Qed.

Section ParserFamily.
Variable BeautifulSoup : string -> node.

Lemma family_transition o tid t w w' :
  wf w -> family w -> tasks w !! tid = Some t ->
  transition BeautifulSoup o tid t w w' -> family w'.
Proof.
  intros Hw Hf Ht Htr.
  destruct Htr as [Hpc|k Hpc Hs Hk Hfull|k Hpc Hc Hs Hin Hk Hroom|k Hpc Hc Hsem
                  |k Hpc Hor|k html Hpc Hc Hg|children Hpc Hd].
  - apply (family_same w w tid t); try done.
    intros ch. destruct Hpc as [->|[k ->]]; done.
  - apply (family_move w _ tid t); try done.
    + intros ch. by rewrite Hpc.
    + intros i t0 Hi. rewrite cancel_all_lookup. simpl. rewrite Hi. simpl.
      eexists. split; [done|]. split.
      * destruct (decide _); [|done]. by destruct (negb _).
      * intros ->. destruct (decide _) as [Hin|]; [|done].
        by apply family_not_registered_root in Hin.
    + intros i t1 Hi. destruct (cancel_all_keeps _ _ _ Hi) as (t0 & ? & ? & _).
      eauto.
  - unfold acquire. destruct (0 <? semaphore w).
    + apply (family_same w _ tid t); try done. intros ch. by rewrite Hpc.
    + apply (family_same w _ tid t); try done. intros ch. by rewrite Hpc.
  - apply (family_same w _ tid t); try done. intros ch. by rewrite Hpc.
  - apply (family_same w _ tid t); try done. intros ch. by rewrite Hpc.
  - apply (family_spawn w _ tid t); try done. intros ch. by rewrite Hpc.
  - by apply (family_gathered w tid t).
Qed.

Lemma family_run_task o tid w w' :
  wf w -> family w -> run_task BeautifulSoup o tid w = Some w' -> family w'.
Proof.
  intros Hw Hf (t & Ht & Htr)%run_task_transition.
  by eapply family_transition.
Qed.

Lemma family_reachable w0 w :
  reachable BeautifulSoup w0 w -> wf w0 -> family w0 -> family w.
Proof.
  induction 1 as [|w1 w2 w3 (o & tid & Hstep) _ IH]; [done|].
  intros Hw Hf. apply IH.
  - by eapply wf_run_task.
  - by eapply family_run_task.
Qed.

End ParserFamily.

Lemma count_none P (m : gmap nat task) :
  (∀ i t, m !! i = Some t -> P t = false) -> count P m = 0%nat.
Proof.
  intros H. unfold count.
  rewrite (map_empty_filter_2 _ m); [by rewrite map_size_empty|].
  intros i t Hi. simpl. rewrite (H _ _ Hi). done.
Qed.

(** with the root done, no task is registered any more *)
Lemma finished_unregistered w :
  live w -> family w -> finished w -> ∀ i, i ∉ all_tasks w.
Proof.
  intros Hl Hf (t0 & H0 & Hd0) i.
  induction i as [i IH] using lt_wf_ind. intros Hi.
  destruct (family_parent _ Hf _ Hi) as (p & tp & ch & Hlt & Hp & Hpc & _).
  apply (IH p Hlt). apply (live_registered _ Hl p tp Hp).
  - intros ->. rewrite H0 in Hp. inversion Hp; subst. congruence.
  - unfold task_done. by rewrite Hpc.
Qed.

Lemma finished_all_done w :
  live w -> family w -> finished w ->
  ∀ i t, tasks w !! i = Some t -> t_pc t = Done.
Proof.
  intros Hl Hf Hfin i t Hi.
  destruct (decide (i = 0%nat)) as [->|Hne].
  - destruct Hfin as (t0 & H0 & Hd0). congruence.
  - destruct (task_done t) eqn:Hd.
    + unfold task_done in Hd. by destruct (t_pc t).
    + pose proof (live_registered _ Hl i t Hi Hne Hd) as Hin.
      by apply finished_unregistered in Hin.
Qed.

Lemma all_done_false children w :
  all_done children w = false ->
  ∃ c t, c ∈ children ∧ tasks w !! c = Some t ∧ task_done t = false.
Proof.
  unfold all_done. induction children as [|c cs IH]; simpl; [done|].
  destruct (tasks w !! c) as [t|] eqn:Hc.
  - destruct (task_done t) eqn:Hd; simpl.
    + intros (c' & t' & Hin & H)%IH. exists c', t'. split; [by right|done].
    + intros _. exists c, t. split; [by left|done].
  - simpl. intros (c' & t' & Hin & H)%IH. exists c', t'. split; [by right|done].
Qed.

Section ParserLedgerSteps.
Variable BeautifulSoup : string -> node.

Lemma transition_ledger o tid t w w' :
  transition BeautifulSoup o tid t w w' ->
  page_data w' = page_data w ∨
  ∃ k html, t_pc t = Fetching k ∧ t_must_cancel t = false ∧
            get_html o = Some html ∧
            page_data w' =
              <[k := extract_page_data BeautifulSoup html (t_url t)]>
                (page_data w).
Proof.
  intros [Hpc|k Hpc Hs Hk Hfull|k Hpc Hc Hs Hin Hk Hroom|k Hpc Hc Hsem
         |k Hpc Hor|k html Hpc Hc Hg|children Hpc Hd]; try (by left).
  - left. unfold acquire. by destruct (0 <? semaphore w).
  - right. exists k, html. by rewrite page_data_spawn.
Qed.

Lemma run_task_ledger o tid w w' :
  run_task BeautifulSoup o tid w = Some w' ->
  page_data w' = page_data w ∨
  ∃ t k html, tasks w !! tid = Some t ∧ t_pc t = Fetching k ∧
              get_html o = Some html ∧
              page_data w' =
                <[k := extract_page_data BeautifulSoup html (t_url t)]>
                  (page_data w).
Proof.
  intros (t & Ht & Htr)%run_task_transition.
  destruct (transition_ledger _ _ _ _ _ Htr) as [H|(k & html & ? & ? & ? & ?)];
    [by left|right]. by exists t, k, html.
Qed.

Lemma run_task_ledger_grows o tid w w' :
  run_task BeautifulSoup o tid w = Some w' ->
  dom (page_data w) ⊆ dom (page_data w') ∧
  (size (page_data w) ≤ size (page_data w'))%nat.
Proof.
  intros [->|(t & k & html & _ & _ & _ & ->)]%run_task_ledger; [done|].
  split.
  - rewrite dom_insert. set_solver.
  - destruct (page_data w !! k) as [x|] eqn:E.
    + rewrite map_size_insert_Some; [done|eauto].
    + rewrite map_size_insert_None by done. lia.
Qed.

Lemma run_task_runnable o tid t w :
  tasks w !! tid = Some t -> runnable w t = true ->
  is_Some (run_task BeautifulSoup o tid w).
Proof.
  intros Ht. unfold runnable, run_task. rewrite Ht.
  destruct (t_pc t); try done.
  - by destruct (t_must_cancel t).
  - destruct (t_must_cancel t); simpl; [done|]. by intros ->.
  - by destruct (t_must_cancel t).
  - by intros ->.
Qed.

End ParserLedgerSteps.

(** unless [crawl] has returned, or no slot exists, a task can be resumed *)
Lemma some_task_runnable w :
  wf w -> family w -> 1 ≤ max_concurrency w -> ¬ finished w ->
  ∃ tid t, tasks w !! tid = Some t ∧ runnable w t = true.
Proof.
  intros Hw Hf Hmc Hnf.
  destruct (decide (map_Exists (λ _ t, runnable w t = true) (tasks w)))
    as [(i & t & Hi & Hr)|Hno]; [by exists i, t|].
  exfalso.
  assert (∀ i t, tasks w !! i = Some t -> runnable w t = false) as Hall.
  { intros i t Hi. destruct (runnable w t) eqn:E; [|done].
    destruct Hno. by exists i, t. }
  assert (fetching w = 0%nat) as Hfetch.
  { apply count_none. intros i t Hi. apply Hall in Hi.
    unfold runnable in Hi. unfold is_fetching. by destruct (t_pc t). }
  pose proof (wf_sem _ Hw) as Hsem. rewrite Hfetch in Hsem.
  assert ((0 <? semaphore w) = true) as Hfree by (apply Z.ltb_lt; lia).
  assert (∀ i t, tasks w !! i = Some t ->
            t_pc t = Done ∨
            ∃ children, t_pc t = Gathering children ∧
                        all_done children w = false) as Hshape.
  { intros i t Hi. apply Hall in Hi. unfold runnable in Hi.
    destruct (t_pc t) as [|k|k|children|]; try done; [|right; eauto|by left].
    rewrite Hfree in Hi. by rewrite orb_true_r in Hi. }
  assert (∀ n p tp children,
            (next_task w - p ≤ n)%nat -> tasks w !! p = Some tp ->
            t_pc tp = Gathering children -> False) as Hdescend.
  { induction n as [|n IH]; intros p tp children Hn Hp Hpc.
    - apply (wf_fresh _ Hw) in Hp. lia.
    - destruct (Hshape _ _ Hp) as [Hd|(ch & Hch & Hnd)]; [congruence|].
      destruct (all_done_false _ _ Hnd) as (c & tc & Hin & Hc & Hcd).
      destruct (Hshape _ _ Hc) as [Hd|(ch' & Hch' & _)].
      + unfold task_done in Hcd. by rewrite Hd in Hcd.
      + pose proof (family_children _ Hf p tp ch c Hp Hch Hin).
        apply (IH c tc ch'); [lia|done|done]. }
  destruct (family_root _ Hf) as (t0 & H0 & _).
  destruct (Hshape _ _ H0) as [Hd|(ch & Hch & _)].
  - apply Hnf. by exists t0.
  - by apply (Hdescend (next_task w) 0%nat t0 ch); [lia| |].
Qed.

Lemma init_fields seed mc mp w0 :
  init seed mc mp = Some w0 ->
  ∃ r, urlparse seed = Some r ∧ 0 ≤ mc ∧
       w0 = {| base_url := seed; base_domain := netloc r; page_data := ∅;
               max_concurrency := mc; max_pages := mp; semaphore := mc;
               should_stop := false; all_tasks := ∅;
               tasks := {[ 0%nat := mkTask seed Start false ]};
               next_task := 1 |}.
Proof.
  unfold init. destruct (urlparse seed) as [r|]; [|done].
  destruct (Z.ltb_spec mc 0); [done|]. intros [= <-]. eauto.
Qed.

Section ParserInvariant.
Variable BeautifulSoup : string -> node.

Lemma invariant_reachable (I : crawler -> Prop) w0 w :
  reachable BeautifulSoup w0 w ->
  wf w0 -> family w0 -> live w0 -> I w0 ->
  (∀ o tid t w1 w2, wf w1 -> family w1 -> live w1 -> I w1 ->
     tasks w1 !! tid = Some t ->
     run_task BeautifulSoup o tid w1 = Some w2 ->
     transition BeautifulSoup o tid t w1 w2 -> I w2) ->
  I w.
Proof.
  intros Hr Hw Hf Hl H0 Hstep.
  induction Hr as [|w1 w2 w3 (o & tid & Hrun) _ IH]; [done|].
  destruct (run_task_transition _ _ _ _ _ Hrun) as (t & Ht & Htr).
  apply IH.
  - by eapply wf_run_task.
  - by eapply family_run_task.
  - by eapply live_run_task.
  - by eapply (Hstep o tid t w1 w2).
Qed.

Lemma transition_stop o tid t w w' :
  transition BeautifulSoup o tid t w w' ->
  should_stop w = false -> should_stop w' = true ->
  max_pages w ≤ Z.of_nat (size (page_data w)) ∧ page_data w' = page_data w.
Proof.
  intros [Hpc|k Hpc Hs Hk Hfull|k Hpc Hc Hs Hin Hk Hroom|k Hpc Hc Hsem
         |k Hpc Hor|k html Hpc Hc Hg|children Hpc Hd];
    simpl; try congruence.
  - done.
  - unfold acquire. destruct (0 <? semaphore w); simpl; congruence.
  - rewrite spawn_unfold. simpl. congruence.
Qed.

Lemma run_task_granted o tid t k w :
  tasks w !! tid = Some t -> t_pc t = Start -> t_must_cancel t = false ->
  should_stop w = false -> in_scope w (t_url t) k ->
  k ∉ dom (page_data w) -> Z.of_nat (size (page_data w)) < max_pages w ->
  run_task BeautifulSoup o tid w = Some (acquire tid k w).
Proof.
  intros Ht Hpc Hc Hs (r & Hr & Hn & Hk) Hnew Hroom.
  unfold run_task. rewrite Ht, Hpc, Hc. unfold crawl_page_enter.
  rewrite Hs, Hr, Hn, String.eqb_refl, Hk. simpl.
  unfold add_page_visit. rewrite Hs.
  rewrite bool_decide_eq_false_2 by done.
  destruct (Z.geb_spec (Z.of_nat (size (page_data w))) (max_pages w)); [lia|].
  done.
Qed.

Lemma acquire_lookup_eq tid k w t :
  tasks w !! tid = Some t ->
  ∃ p, tasks (acquire tid k w) !! tid = Some (set_pc p t) ∧
       (p = WaitSem k ∨ p = Fetching k).
Proof.
  intros Ht. unfold acquire. destruct (0 <? semaphore w).
  - exists (Fetching k). rewrite suspend_lookup_eq. simpl. rewrite Ht. auto.
  - exists (WaitSem k). rewrite suspend_lookup_eq. rewrite Ht. auto.
Qed.

Lemma acquire_lookup_ne tid k w i :
  tid ≠ i -> tasks (acquire tid k w) !! i = tasks w !! i.
Proof.
  intros Hne. unfold acquire.
  destruct (0 <? semaphore w); by rewrite suspend_lookup_ne.
Qed.

Lemma acquire_frame tid k w :
  page_data (acquire tid k w) = page_data w ∧
  should_stop (acquire tid k w) = should_stop w ∧
  max_pages (acquire tid k w) = max_pages w ∧
  base_domain (acquire tid k w) = base_domain w.
Proof. unfold acquire. by destruct (0 <? semaphore w). Qed.

End ParserInvariant.

End Family.

Module Termination.
Import PyStr UrlLib Soup Crawl Spec Fixture StrFacts UrlFacts Normalize Counting
  Invariant Cancellation Claims Steps Family.

Lemma pc_only_at_least n : pc_only (at_least n).
Proof. intros t t' H. unfold at_least. by rewrite H. Qed.

Lemma pc_only_owes w : pc_only (owes w).
Proof. intros t t' H. unfold owes. by rewrite H. Qed.

Lemma owes_ext w w' t :
  page_data w' = page_data w -> max_pages w' = max_pages w ->
  owes w' t = owes w t.
Proof. intros Hd Hm. unfold owes. by rewrite Hd, Hm. Qed.

Lemma count_ext P Q (m : gmap nat task) :
  (∀ t, P t = Q t) -> count P m = count Q m.
Proof.
  intros H. unfold count. f_equal. apply map_filter_ext.
  intros i t _. simpl. by rewrite H.
Qed.

Lemma count_cancel_all Q w :
  pc_only Q -> count Q (tasks (cancel_all_tasks w)) = count Q (tasks w).
Proof.
  intros HQ. unfold cancel_all_tasks. simpl. apply count_imap.
  intros i t. apply HQ. destruct (decide _); [|done]. by destruct (negb _).
Qed.

Lemma count_move Q w w1 tid t t1 p :
  pc_only Q ->
  tasks w !! tid = Some t -> tasks w1 !! tid = Some t1 -> t_pc t1 = t_pc t ->
  count Q (tasks w1) = count Q (tasks w) ->
  (count Q (tasks (suspend tid p w1)) + b2n (Q t)
   = count Q (tasks w) + b2n (Q (set_pc p t)))%nat.
Proof.
  intros HQ Ht Ht1 Hpc Hc. simpl.
  pose proof (count_alter Q (set_pc p) _ _ _ Ht1) as H.
  rewrite (HQ t1 t Hpc), (HQ (set_pc p t1) (set_pc p t) eq_refl), Hc in H.
  exact H.
Qed.

Lemma steps_left_sum p :
  (b2n (1 <=? steps_left p) + b2n (2 <=? steps_left p)
   + b2n (3 <=? steps_left p) + b2n (4 <=? steps_left p))%nat = steps_left p.
Proof. by destruct p. Qed.

(** a task moves on, closer to its end; the ledger is as it was *)
Lemma smaller_move w w1 tid t t1 p :
  tasks w !! tid = Some t -> tasks w1 !! tid = Some t1 -> t_pc t1 = t_pc t ->
  (∀ Q, pc_only Q -> count Q (tasks w1) = count Q (tasks w)) ->
  page_data w1 = page_data w -> max_pages w1 = max_pages w ->
  (steps_left p < steps_left (t_pc t))%nat ->
  (owes w (set_pc p t) = true -> owes w t = true) ->
  smaller (suspend tid p w1) w.
Proof.
  intros Ht Ht1 Hpc Hc Hd Hm Hsteps Howes. right. split.
  { unfold room. simpl. by rewrite Hd, Hm. }
  assert (owed (suspend tid p w1) + b2n (owes w t)
          = owed w + b2n (owes w (set_pc p t)))%nat as Ho.
  { unfold owed.
    rewrite (count_ext (owes (suspend tid p w1)) (owes w))
      by (intros t'; by apply owes_ext).
    apply (count_move _ w w1 tid t t1); try done.
    - apply pc_only_owes.
    - apply Hc, pc_only_owes. }
  assert (work (suspend tid p w1) + steps_left (t_pc t)
          = work w + steps_left p)%nat as Hwk.
  { unfold work.
    pose proof (λ n, count_move (at_least n) w w1 tid t t1 p
                       (pc_only_at_least n) Ht Ht1 Hpc
                       (Hc _ (pc_only_at_least n))) as H.
    pose proof (H 1%nat) as H1. pose proof (H 2%nat) as H2.
    pose proof (H 3%nat) as H3. pose proof (H 4%nat) as H4.
    pose proof (steps_left_sum (t_pc t)) as Ha.
    pose proof (steps_left_sum p) as Hb.
    unfold at_least in *. simpl in *. lia. }
  destruct (owes w (set_pc p t)) eqn:E1.
  - rewrite Howes in Ho by done. simpl in Ho.
    right. split; lia.
  - destruct (owes w t); simpl in Ho.
    + left. lia.
    + right. split; lia.
Qed.

Section ParserMeasure.
Variable BeautifulSoup : string -> node.

Lemma transition_smaller o tid t w w' :
  wf w -> tasks w !! tid = Some t ->
  transition BeautifulSoup o tid t w w' -> smaller w' w.
Proof.
  intros Hw Ht Htr.
  destruct Htr as [Hpc|k Hpc Hs Hk Hfull|k Hpc Hc Hs Hin Hk Hroom|k Hpc Hc Hsem
                  |k Hpc Hor|k html Hpc Hc Hg|children Hpc Hd].
  - apply (smaller_move w w tid t t); try done.
    destruct Hpc as [->|[k ->]]; simpl; lia.
  - assert (∃ t1, tasks (cancel_all_tasks (with_should_stop true w)) !! tid
                  = Some t1 ∧ t_pc t1 = t_pc t) as (t1 & Ht1 & Hpc1).
    { rewrite cancel_all_lookup. simpl. rewrite Ht. simpl.
      eexists. split; [done|]. destruct (decide _); [|done].
      by destruct (negb _). }
    apply (smaller_move w _ tid t t1); try done.
    + intros Q HQ. by rewrite count_cancel_all.
    + rewrite Hpc. simpl. lia.
  - assert (owes w (set_pc (Fetching k) t) = false
            ∧ owes w (set_pc (WaitSem k) t) = false) as [Ho1 Ho2].
    { unfold owes. simpl. apply Z.ltb_lt in Hroom. rewrite Hroom.
      by rewrite bool_decide_eq_false_2. }
    unfold acquire. destruct (0 <? semaphore w).
    + apply (smaller_move w _ tid t t); try done.
      * rewrite Hpc. simpl. lia.
      * by rewrite Ho1.
    + apply (smaller_move w _ tid t t); try done.
      * rewrite Hpc. simpl. lia.
      * by rewrite Ho2.
  - apply (smaller_move w _ tid t t); try done.
    + rewrite Hpc. simpl. lia.
    + unfold owes. simpl. by rewrite Hpc.
  - apply (smaller_move w _ tid t t); try done.
    rewrite Hpc. simpl. lia.
  - set (info := extract_page_data BeautifulSoup html (t_url t)).
    set (urls := if should_stop w then [] else _).
    rewrite spawn_unfold.
    set (P := match urls with [] => Done | _ => _ end).
    set (w1 := release (record_page k info w)).
    assert (∀ Q, pc_only Q -> (∀ u, Q (mkTask u Start false) = false) ->
              Q (set_pc P t) = false -> Q t = true ->
              (count Q (tasks (suspend tid P (with_children urls w1))) + 1
               = count Q (tasks w))%nat) as Hcount.
    { intros Q HQ HS HP Hqt.
      assert (tasks (with_children urls w1) !! tid = Some t) as Ht1.
      { apply with_children_lookup_old; [|done]. simpl. by eapply wf_fresh. }
      pose proof (count_alter Q (set_pc P) _ _ _ Ht1) as H.
      rewrite HP, Hqt in H. simpl in H.
      change (tasks (with_children urls w1))
        with (list_to_map (new_tasks (next_task w) urls) ∪ tasks w) in H.
      rewrite count_spawned in H; [|done|]; [simpl; lia|].
      intros i ti Hi. by eapply wf_fresh. }
    assert (∀ w2 : crawler, owes w2 (set_pc P t) = false) as HoP.
    { intros w2. unfold owes, P. simpl. by destruct urls. }
    assert (page_data (suspend tid P (with_children urls w1))
            = <[k:=info]> (page_data w)) as Hpd by done.
    assert (max_pages (suspend tid P (with_children urls w1)) = max_pages w)
      as Hmp by done.
    destruct (page_data w !! k) as [old|] eqn:Ek.
    + (* an entry is replaced *)
      assert (size (<[k:=info]> (page_data w)) = size (page_data w)) as Hsz
          by (apply map_size_insert_Some; eauto).
      assert (dom (<[k:=info]> (page_data w)) = dom (page_data w)) as Hdm.
      { rewrite dom_insert_L. apply subseteq_union_1_L, singleton_subseteq_l.
        by apply elem_of_dom_2 in Ek. }
      right. split; [unfold room; by rewrite Hpd, Hmp, Hsz|]. left.
      unfold owed.
      rewrite (count_ext (owes (suspend tid P (with_children urls w1)))
                 (owes w)).
      * assert (owes w t = true) as Hot.
        { unfold owes. rewrite Hpc. destruct (_ <? _); [|done].
          apply bool_decide_eq_true_2. by apply elem_of_dom_2 in Ek. }
        pose proof (Hcount (owes w) (pc_only_owes w) (λ _, eq_refl)
                      (HoP w) Hot). lia.
      * intros t'. unfold owes. by rewrite Hpd, Hmp, Hsz, Hdm.
    + (* an entry is added *)
      assert (size (<[k:=info]> (page_data w)) = S (size (page_data w)))
        as Hsz by (by apply map_size_insert_None).
      destruct (Z.ltb_spec (Z.of_nat (size (page_data w))) (max_pages w))
        as [Hlt|Hge].
      * left. unfold room. rewrite Hpd, Hmp, Hsz. lia.
      * right. split; [unfold room; rewrite Hpd, Hmp, Hsz; lia|]. left.
        assert (∀ (w2 : crawler) t', max_pages w2 ≤ Z.of_nat (size (page_data w2)) ->
                  owes w2 t' = match t_pc t' with
                               | WaitSem _ | Fetching _ => true
                               | _ => false
                               end) as Hfull.
        { intros w2 t' H2. unfold owes.
          destruct (Z.ltb_spec (Z.of_nat (size (page_data w2))) (max_pages w2));
            [lia|done]. }
        unfold owed.
        rewrite (count_ext (owes (suspend tid P (with_children urls w1)))
                   (owes w)).
        -- assert (owes w t = true) as Hot by (rewrite Hfull by done; by rewrite Hpc).
           pose proof (Hcount (owes w) (pc_only_owes w) (λ _, eq_refl)
                         (HoP w) Hot). lia.
        -- intros t'. rewrite !Hfull; [done|done|].
           rewrite Hpd, Hmp, Hsz. lia.
  - apply (smaller_move w _ tid t t); try done.
    rewrite Hpc. simpl. lia.
Qed.

Lemma run_task_smaller o tid w w' :
  wf w -> run_task BeautifulSoup o tid w = Some w' -> smaller w' w.
Proof.
  intros Hw (t & Ht & Htr)%run_task_transition.
  by eapply transition_smaller.
Qed.

(** no run goes on for ever *)
Lemma wf_terminates w : wf w -> sn (step BeautifulSoup) w.
Proof.
  remember (room w) as a eqn:Ha. revert w Ha.
  induction a as [a IHa] using lt_wf_ind. intros w Ha.
  remember (owed w) as b eqn:Hb. revert w Ha Hb.
  induction b as [b IHb] using lt_wf_ind. intros w Ha Hb.
  remember (work w) as c eqn:Hc. revert w Ha Hb Hc.
  induction c as [c IHc] using lt_wf_ind. intros w Ha Hb Hc Hw.
  constructor. intros w' (o & tid & Hstep). simpl in Hstep.
  pose proof (wf_run_task _ _ _ _ _ Hstep Hw) as Hw'.
  destruct (run_task_smaller _ _ _ _ Hw Hstep) as [H|[H1 [H|[H2 H3]]]].
  - apply (IHa (room w')); [lia|done|done].
  - apply (IHb (owed w')); [lia|lia|done|done].
  - apply (IHc (work w')); [lia|lia|lia|done|done].
Qed.

End ParserMeasure.

End Termination.

(* ===================================================================== *)
(** ** More about text and about [urllib.parse] *)
(* ===================================================================== *)

Module TextFacts.
Import PyStr UrlLib Soup Crawl Spec Fixture StrFacts UrlFacts Normalize Counting
  Invariant Cancellation Claims.

Lemma app_empty_r s : s +:+ EmptyString = s.
Proof. induction s as [|c s IH]; [done|]. by rewrite app_cons, IH. Qed.

Lemma app_assoc' a b c : (a +:+ b) +:+ c = a +:+ (b +:+ c).
Proof. induction a as [|x a IH]; [done|]. by rewrite !app_cons, IH. Qed.

Lemma startswith_app p suf : startswith p (p +:+ suf) = true.
Proof.
  induction p as [|c p IH]; [done|]. rewrite app_cons. simpl.
  by rewrite Ascii.eqb_refl, IH.
Qed.

Lemma startswith_spec p s :
  startswith p s = true <-> ∃ suf, s = p +:+ suf.
Proof.
  split; [|intros [suf ->]; apply startswith_app].
  revert s. induction p as [|c p IH]; intros s; simpl.
  - intros _. by exists s.
  - destruct s as [|d s]; [done|].
    intros [Hc Hp]%andb_true_iff. apply Ascii.eqb_eq in Hc as ->.
    destruct (IH _ Hp) as [suf ->]. by exists suf.
Qed.

Lemma contains_unfold sub s :
  contains sub s =
  startswith sub s ||
  match s with EmptyString => false | String _ r => contains sub r end.
Proof. by destruct s. Qed.

(** [sub in s] holds exactly when [s] is some text, [sub], some text *)
Lemma contains_spec sub s :
  contains sub s = true <-> ∃ pre suf, s = pre +:+ sub +:+ suf.
Proof.
  split.
  - induction s as [|c s IH]; rewrite contains_unfold.
    + rewrite orb_false_r. intros [suf ->]%startswith_spec.
      by exists EmptyString, suf.
    + intros [[suf ->]%startswith_spec|H]%orb_true_iff.
      * by exists EmptyString, suf.
      * destruct (IH H) as (pre & suf & ->). by exists (String c pre), suf.
  - intros (pre & suf & ->). induction pre as [|c pre IH].
    + rewrite app_nil, contains_unfold. by rewrite startswith_app.
    + rewrite app_cons, contains_unfold. by rewrite IH, orb_true_r.
Qed.

Lemma lstrip_first_kept p s : first_kept p (lstrip p s) = true.
Proof.
  induction s as [|c s IH]; simpl; [done|].
  destruct (p c) eqn:E; [done|]. simpl. by rewrite E.
Qed.

Lemma first_kept_lstrip p s : first_kept p s = true -> lstrip p s = s.
Proof.
  destruct s as [|c s]; simpl; [done|]. by intros ->%negb_true_iff.
Qed.

Lemma rstrip_first_kept p s :
  first_kept p s = true -> first_kept p (rstrip p s) = true.
Proof.
  destruct s as [|c s]; simpl; [done|]. intros Hc.
  destruct (rstrip p s); simpl; [|done].
  apply negb_true_iff in Hc. rewrite Hc. simpl. by rewrite Hc.
Qed.

Lemma strip_idem p s : strip p (strip p s) = strip p s.
Proof.
  unfold strip.
  rewrite (first_kept_lstrip p (rstrip p (lstrip p s)))
    by apply rstrip_first_kept, lstrip_first_kept.
  apply rstrip_idem.
Qed.

Lemma lstrip_app_kept p a b :
  nonempty a = true -> first_kept p a = true -> lstrip p (a +:+ b) = a +:+ b.
Proof.
  destruct a as [|c a]; [done|]. intros _ Hc. rewrite app_cons. simpl.
  simpl in Hc. by apply negb_true_iff in Hc as ->.
Qed.

Lemma nonempty_app_r a b : nonempty b = true -> nonempty (a +:+ b) = true.
Proof. by destruct a. Qed.

Lemma rstrip_app_kept p a b :
  nonempty b = true -> rstrip p b = b -> rstrip p (a +:+ b) = a +:+ b.
Proof.
  intros Hb Hr. induction a as [|c a IH]; [done|].
  rewrite app_cons. simpl. rewrite IH.
  pose proof (nonempty_app_r a b Hb) as Hn. by destruct (a +:+ b).
Qed.

Lemma join_stripped p xs :
  Forall (stripped p) xs -> xs ≠ [] -> stripped p (join EmptyString xs).
Proof.
  induction 1 as [|x xs Hx Hxs IH]; [done|]. intros _.
  destruct xs as [|y ys]; [done|].
  change (join EmptyString (x :: y :: ys))
    with (x +:+ EmptyString +:+ join EmptyString (y :: ys)).
  rewrite app_nil.
  destruct (IH ltac:(done)) as (Hn & Hf & Hr).
  destruct Hx as (Hxn & Hxf & Hxr).
  split; [by apply nonempty_app_r|]. split.
  - destruct x as [|c x]; [done|]. by rewrite app_cons.
  - by apply rstrip_app_kept.
Qed.

Lemma stripped_strings_stripped n :
  Forall (stripped is_space) (stripped_strings n).
Proof.
  unfold stripped_strings. induction (descendants n) as [|d ds IH]; simpl.
  - constructor.
  - apply Forall_app. split; [|done].
    destruct d as [| s |]; try constructor.
    destruct (nonempty (strip is_space s)) eqn:E; constructor; [|constructor].
    split; [done|]. unfold strip. split.
    + apply rstrip_first_kept, lstrip_first_kept.
    + apply rstrip_idem.
Qed.

Lemma get_text_strip_trimmed n :
  strip is_space (get_text_strip n) = get_text_strip n.
Proof.
  unfold get_text_strip.
  destruct (stripped_strings n) as [|x xs] eqn:E; [done|].
  destruct (join_stripped is_space (x :: xs)) as (Hn & Hf & Hr).
  - rewrite <- E. apply stripped_strings_stripped.
  - done.
  - unfold strip. by rewrite first_kept_lstrip.
Qed.

Lemma find_all_none name scope :
  no_tag name scope -> find_all name scope = [].
Proof.
  intros H. apply find_none in H. unfold find in H.
  by destruct (find_all name scope).
Qed.

Lemma resolve_all_nothing key base elements :
  (∀ el, el ∈ elements ->
         get key el = None ∨ get key el = Some EmptyString) ->
  resolve_all key base elements = [].
Proof.
  unfold resolve_all. induction elements as [|el els IH]; [done|].
  intros H. simpl. rewrite IH by (intros el' Hin; apply H; by right).
  destruct (H el) as [-> | ->]; [by left|done|done].
Qed.

Lemma stripped_strings_no_text x :
  (∀ y, y ∈ descendants x -> ∀ s, y ≠ Text s) -> stripped_strings x = [].
Proof.
  unfold stripped_strings. induction (descendants x) as [|d ds IH]; [done|].
  intros Hno. simpl. rewrite IH by (intros y Hy; apply Hno; by right).
  destruct d as [|s|]; try done. by destruct (Hno (Text s) ltac:(by left) s).
Qed.

(** induction on a tree, with the property known for the children *)
Lemma node_tree_ind (P : node -> Prop) :
  (∀ name attrs contents, Forall P contents -> P (Tag name attrs contents)) ->
  (∀ s, P (Text s)) -> (∀ s, P (Special s)) -> ∀ n, P n.
Proof.
  intros HTag HText HSpecial. fix IH 1.
  intros [name attrs contents|s|s]; [|apply HText|apply HSpecial].
  apply HTag. induction contents as [|c cs IHc]; constructor.
  - apply IH.
  - apply IHc.
Qed.

(** what is below a descendant is below the node *)
Lemma descendants_trans n m y :
  m ∈ descendants n -> y ∈ descendants m -> y ∈ descendants n.
Proof.
  induction n as [name attrs contents IH| |] using node_tree_ind;
    [|by intros ?%elem_of_nil|by intros ?%elem_of_nil].
  simpl. intros Hm Hy.
  apply list_elem_of_In, in_flat_map in Hm as (c & Hc & Hm).
  apply list_elem_of_In, in_flat_map. exists c. split; [done|].
  rewrite Forall_forall in IH.
  apply list_elem_of_In in Hm. apply list_elem_of_In.
  apply elem_of_cons in Hm as [->|Hm]; [by right|].
  right. apply IH; [by apply list_elem_of_In|done|done].
Qed.

End TextFacts.

Module Suffix.
Import PyStr UrlLib Soup Crawl Spec Fixture StrFacts UrlFacts Normalize Counting
  Invariant Cancellation Claims TextFacts.

(** *** An address with a query or a fragment appended *)

Lemma lstrip_app_stop p a c b :
  p c = false -> lstrip p (a +:+ String c b) = lstrip p a +:+ String c b.
Proof.
  intros Hc. induction a as [|d a IH].
  - rewrite app_nil. simpl. by rewrite Hc.
  - rewrite app_cons. simpl. by destruct (p d).
Qed.

Lemma remove_app p a b : remove p (a +:+ b) = remove p a +:+ remove p b.
Proof.
  induction a as [|d a IH]; [done|]. rewrite app_cons. simpl.
  destruct (p d); [done|]. by rewrite app_cons, IH.
Qed.

Lemma partition_app_some c a b x y :
  partition c a = Some (x, y) -> partition c (a +:+ b) = Some (x, y +:+ b).
Proof.
  revert x. induction a as [|d a IH]; intros x; [done|].
  rewrite app_cons. simpl. destruct (Ascii.eqb d c); [by intros [= <- <-]|].
  destruct (partition c a) as [[x' y']|]; [|done].
  intros [= <- <-]. by rewrite (IH x' eq_refl).
Qed.

Lemma partition_app_none c a b :
  partition c a = None ->
  partition c (a +:+ b) =
    match partition c b with
    | Some (x, y) => Some (a +:+ x, y)
    | None => None
    end.
Proof.
  induction a as [|d a IH].
  - intros _. rewrite app_nil. by destruct (partition c b) as [[? ?]|].
  - rewrite app_cons. simpl. destruct (Ascii.eqb d c); [done|].
    destruct (partition c a) as [[x' y']|]; [done|]. intros _.
    rewrite IH by done. by destruct (partition c b) as [[? ?]|].
Qed.

Lemma partition_at c a b :
  has_char c a = false -> partition c (a +:+ String c b) = Some (a, b).
Proof.
  intros H%partition_none. rewrite partition_app_none by done.
  simpl. rewrite Ascii.eqb_refl. by rewrite app_empty_r.
Qed.

Lemma break_app_stop q a c b :
  q c = true ->
  break q (a +:+ String c b) = ((break q a).1, (break q a).2 +:+ String c b).
Proof.
  intros Hc. induction a as [|d a IH].
  - rewrite app_nil. simpl. by rewrite Hc.
  - rewrite app_cons. simpl. destruct (q d); [done|].
    rewrite IH. by destruct (break q a).
Qed.

Lemma startswith_slashes_app u c b :
  c ≠ "/"%char ->
  startswith "//" (u +:+ String c b) = startswith "//" u.
Proof.
  intros Hc. apply not_eq_sym, Ascii.eqb_neq in Hc.
  destruct u as [|x [|y u]]; rewrite ?app_cons, ?app_nil; cbn [startswith].
  - by rewrite Hc.
  - by rewrite Hc, !andb_false_r.
  - done.
Qed.

Lemma drop_two_app u y :
  startswith "//" u = true -> drop_chars 2 (u +:+ y) = drop_chars 2 u +:+ y.
Proof.
  destruct u as [|a [|b u]]; cbn [startswith]; [done| |by rewrite !app_cons].
  by rewrite andb_false_r.
Qed.

Lemma split_scheme_app url sch d y :
  d ≠ ":"%char -> is_scheme_char d = false ->
  split_scheme (url +:+ String d y) sch =
    ((split_scheme url sch).1, (split_scheme url sch).2 +:+ String d y).
Proof.
  intros Hd Hsc. unfold split_scheme.
  destruct (partition ":" url) as [[pre rest]|] eqn:E.
  - rewrite (partition_app_some _ _ _ _ _ E).
    destruct pre as [|c0 pre']; [done|].
    by destruct (is_alpha c0 && all_chars is_scheme_char (String c0 pre')).
  - rewrite (partition_app_none _ _ _ E).
    destruct (partition ":" (String d y)) as [[x y']|] eqn:Ep; [|done].
    assert (∃ x', x = String d x') as [x' ->].
    { simpl in Ep. destruct (Ascii.eqb d ":") eqn:Edc.
      - by apply Ascii.eqb_eq in Edc.
      - destruct (partition ":" y) as [[? ?]|]; inversion Ep; eauto. }
    destruct (url +:+ String d x') as [|c0 pre'] eqn:Epre; [done|].
    assert (all_chars is_scheme_char (String c0 pre') = false) as ->;
      [|by rewrite andb_false_r].
    rewrite <- Epre, all_chars_app. simpl. rewrite Hsc.
    by rewrite andb_false_r.
Qed.

Lemma split_netloc_app url d y :
  d = "?"%char ∨ d = "#"%char ->
  split_netloc (url +:+ String d y) =
    (λ '(nl, u), (nl, u +:+ String d y)) <$> split_netloc url.
Proof.
  intros Hd. unfold split_netloc, _splitnetloc.
  rewrite startswith_slashes_app by (destruct Hd; by subst).
  destruct (startswith "//" url) eqn:Es; [|done].
  rewrite drop_two_app by done.
  rewrite break_app_stop by (destruct Hd as [-> | ->]; by vm_compute).
  destruct (break (char_in "/?#") (drop_chars 2 url)) as [nl u]. simpl.
  by destruct (xorb _ _).
Qed.

(** the parts of [url] with a fragment appended, or a query when [url]
    has none: scheme, netloc and path are those of [url] *)
Lemma cuts_app u d y :
  has_char "#" u = false ->
  (d = "#"%char ∨ (d = "?"%char ∧ has_char "?" u = false)) ->
  (cut "?" (cut "#" (u +:+ String d y)).1).1 = (cut "?" (cut "#" u).1).1.
Proof.
  intros Hf Hd.
  assert (cut "#" u = (u, EmptyString)) as Hcu.
  { unfold cut. by rewrite (proj2 (partition_none _ _) Hf). }
  rewrite Hcu. simpl. destruct Hd as [->|[-> Hq]].
  - unfold cut at 2. by rewrite partition_at.
  - assert (cut "?" u = (u, EmptyString)) as ->.
    { unfold cut. by rewrite (proj2 (partition_none _ _) Hq). }
    simpl. unfold cut at 2.
    rewrite partition_app_none by (by apply partition_none).
    destruct (partition "#" (String "?" y)) as [[x y']|] eqn:Ep.
    + simpl in Ep. destruct (partition "#" y) as [[x0 y0]|]; inversion Ep; subst.
      simpl. unfold cut. by rewrite partition_at.
    + simpl. unfold cut. by rewrite partition_at.
Qed.

Lemma urlsplit_app url sch d y :
  has_char "#" url = false ->
  (d = "#"%char ∨ (d = "?"%char ∧ has_char "?" url = false)) ->
  match urlsplit url sch with
  | None => urlsplit (url +:+ String d y) sch = None
  | Some r =>
      ∃ q f, urlsplit (url +:+ String d y) sch
             = Some (mkSplit (s_scheme r) (s_netloc r) (s_path r) q f)
  end.
Proof.
  intros Hf Hd.
  assert (d = "?"%char ∨ d = "#"%char) as He by (destruct Hd as [->|[-> _]]; [by right|by left]).
  assert (is_c0_or_space d = false ∧ is_unsafe d = false) as [Hd1 Hd2]
      by (destruct He as [-> | ->]; by vm_compute).
  unfold urlsplit.
  rewrite lstrip_app_stop, remove_app by done.
  simpl remove. rewrite Hd2.
  set (x := remove is_unsafe (lstrip is_c0_or_space url)).
  set (s := remove is_unsafe (strip is_c0_or_space sch)).
  assert (∀ c, has_char c url = false -> has_char c x = false) as Hsub.
  { intros c. apply no_char_sub. intros H. unfold x.
    by apply all_chars_remove, all_chars_lstrip. }
  rewrite split_scheme_app
    by (destruct He as [-> | ->]; done || by vm_compute).
  destruct (split_scheme x s) as [sc u] eqn:Es. simpl.
  assert (∀ c, has_char c url = false -> has_char c u = false) as Hsub2.
  { intros c Hc. apply Hsub in Hc. revert Hc. apply no_char_sub.
    by apply (split_scheme_chars _ _ _ _ _ Es). }
  rewrite split_netloc_app by done.
  destruct (split_netloc u) as [[nl u0]|] eqn:En; simpl; [|done].
  assert (∀ c, has_char c url = false -> has_char c u0 = false) as Hsub3.
  { intros c Hc. apply Hsub2 in Hc. revert Hc. apply no_char_sub.
    intros H. by destruct (split_netloc_chars _ _ _ _ En H). }
  assert (has_char "#" u0 = false) as Hf0 by auto.
  assert (d = "#"%char ∨ (d = "?"%char ∧ has_char "?" u0 = false)) as Hd0.
  { destruct Hd as [->|[-> Hq]]; [by left|right; auto]. }
  pose proof (cuts_app u0 d (remove is_unsafe y) Hf0 Hd0) as Hcuts.
  destruct (cut "#" (u0 +:+ String d (remove is_unsafe y))) as [u1 f1].
  destruct (cut "#" u0) as [u1' f1']. simpl in Hcuts.
  destruct (cut "?" u1) as [u2 q2]. destruct (cut "?" u1') as [u2' q2'].
  simpl in Hcuts. subst u2'. simpl. eauto.
Qed.

Lemma normalize_url_app url d y :
  has_char "#" url = false ->
  (d = "#"%char ∨ (d = "?"%char ∧ has_char "?" url = false)) ->
  normalize_url (url +:+ String d y) = normalize_url url.
Proof.
  intros Hf Hd. unfold normalize_url, urlparse, urlparse_with.
  pose proof (urlsplit_app url EmptyString d y Hf Hd) as H.
  destruct (urlsplit url EmptyString) as [r|].
  - destruct H as (q & f & ->). simpl.
    destruct (in_list (s_scheme r) uses_params && has_char ";" (s_path r));
      [|done].
    by destruct (_splitparams (s_path r)).
  - by rewrite H.
Qed.

(** *** An address with a slash appended *)

Lemma rstrip_app_stripped p s c :
  p c = true -> rstrip p (s +:+ String c EmptyString) = rstrip p s.
Proof.
  intros Hc. induction s as [|d s IH].
  - rewrite app_nil. simpl. by rewrite Hc.
  - rewrite app_cons. simpl. by rewrite IH.
Qed.

Lemma split_netloc_app_slash u :
  split_netloc (u +:+ "/") =
    if String.eqb u "/" then Some (EmptyString, EmptyString)
    else (λ '(nl, u'), (nl, u' +:+ "/")) <$> split_netloc u.
Proof.
  unfold split_netloc, _splitnetloc.
  destruct (String.eqb_spec u "/") as [->|Hne]; [done|].
  destruct (startswith "//" u) eqn:Es.
  - assert (startswith "//" (u +:+ "/") = true) as ->.
    { destruct u as [|a [|b u]]; [done| |by rewrite !app_cons].
      cbn [startswith] in Es. by rewrite andb_false_r in Es. }
    rewrite drop_two_app by done.
    rewrite break_app_stop by done.
    destruct (break (char_in "/?#") (drop_chars 2 u)) as [nl u']. simpl.
    by destruct (xorb _ _).
  - assert (startswith "//" (u +:+ "/") = false) as ->; [|done].
    destruct u as [|a [|b u]]; [done| |by rewrite !app_cons].
    rewrite app_cons, app_nil. cbn [startswith].
    destruct (Ascii.eqb_spec "/" a) as [<-|]; [done|done].
Qed.

Lemma cut_none c u : has_char c u = false -> cut c u = (u, EmptyString).
Proof. intros H. unfold cut. by rewrite (proj2 (partition_none _ _) H). Qed.

Lemma has_char_app c a b : has_char c (a +:+ b) = has_char c a || has_char c b.
Proof.
  induction a as [|d a IH]; [done|]. rewrite app_cons. simpl.
  by rewrite IH, orb_assoc.
Qed.

Lemma urlsplit_app_slash url sch :
  has_char "#" url = false -> has_char "?" url = false ->
  match urlsplit url sch with
  | None => urlsplit (url +:+ "/") sch = None
  | Some r =>
      urlsplit (url +:+ "/") sch
        = Some (mkSplit (s_scheme r) (s_netloc r) (s_path r +:+ "/")
                  EmptyString EmptyString) ∨
      (s_netloc r = EmptyString ∧ s_path r = "/" ∧
       urlsplit (url +:+ "/") sch
         = Some (mkSplit (s_scheme r) EmptyString EmptyString
                   EmptyString EmptyString))
  end.
Proof.
  intros Hf Hq. unfold urlsplit.
  change (url +:+ "/") with (url +:+ String "/" EmptyString).
  rewrite lstrip_app_stop, remove_app by done.
  change (remove is_unsafe "/") with "/".
  set (x := remove is_unsafe (lstrip is_c0_or_space url)).
  set (s := remove is_unsafe (strip is_c0_or_space sch)).
  assert (∀ c, has_char c url = false -> has_char c x = false) as Hsub.
  { intros c. apply no_char_sub. intros H. unfold x.
    by apply all_chars_remove, all_chars_lstrip. }
  rewrite split_scheme_app by done.
  destruct (split_scheme x s) as [sc u] eqn:Es. simpl.
  assert (∀ c, has_char c url = false -> has_char c u = false) as Hsub2.
  { intros c Hc. apply Hsub in Hc. revert Hc. apply no_char_sub.
    by apply (split_scheme_chars _ _ _ _ _ Es). }
  rewrite split_netloc_app_slash.
  destruct (String.eqb_spec u "/") as [->|Hne].
  - simpl. right. done.
  - destruct (split_netloc u) as [[nl u0]|] eqn:En; simpl; [|done].
    assert (∀ c, has_char c url = false -> has_char c u0 = false) as Hsub3.
    { intros c Hc. apply Hsub2 in Hc. revert Hc. apply no_char_sub.
      intros H. by destruct (split_netloc_chars _ _ _ _ En H). }
    rewrite (cut_none "#" (u0 +:+ "/"))
      by (rewrite has_char_app, Hsub3 by done; done).
    rewrite (cut_none "?" (u0 +:+ "/"))
      by (rewrite has_char_app, Hsub3 by done; done).
    rewrite (cut_none "#" u0), (cut_none "?" u0) by auto.
    by left.
Qed.

Lemma normalize_url_app_slash url :
  has_char "#" url = false -> has_char "?" url = false ->
  has_char ";" url = false ->
  normalize_url (url +:+ "/") = normalize_url url.
Proof.
  intros Hf Hq Hs. unfold normalize_url, urlparse, urlparse_with.
  pose proof (urlsplit_app_slash url EmptyString Hf Hq) as H.
  destruct (urlsplit url EmptyString) as [r|] eqn:Er; [|by rewrite H].
  assert (has_char ";" (s_path r) = false) as Hp.
  { apply has_char_all. apply has_char_all in Hs.
    apply (urlsplit_chars _ _ _ _ Er). unfold cleaned.
    by apply all_chars_remove, all_chars_lstrip. }
  destruct H as [-> | (Hn & Hpath & ->)]; simpl.
  - rewrite has_char_app, Hp, !andb_false_r. simpl.
    rewrite <- app_assoc'.
    change (?a +:+ "/") with (a +:+ String "/" EmptyString).
    by rewrite rstrip_app_stripped.
  - rewrite Hp, !andb_false_r, Hn, Hpath. done.
Qed.

End Suffix.

Module JoinFacts.
Import PyStr UrlLib Soup Crawl Spec Fixture StrFacts UrlFacts Normalize Counting
  Invariant Cancellation Claims TextFacts.

Lemma uses_relative_netloc s :
  in_list s uses_relative = true -> in_list s uses_netloc = true.
Proof.
  unfold in_list. intros H%bool_decide_eq_true. apply bool_decide_eq_true.
  unfold uses_relative in H. unfold uses_netloc.
  repeat (apply elem_of_cons in H as [->|H]; [set_solver|]).
  by apply elem_of_nil in H.
Qed.

Lemma startswith_nonempty p s :
  nonempty p = true -> startswith p s = true -> nonempty s = true.
Proof. destruct p, s; done. Qed.

(** a rooted reference is resolved without the path of the base *)
Lemma urljoin_rooted base1 base2 ref b1 b2 u :
  nonempty base1 = true -> nonempty base2 = true -> nonempty ref = true ->
  urlparse base1 = Some b1 -> urlparse base2 = Some b2 ->
  scheme b1 = scheme b2 -> netloc b1 = netloc b2 ->
  urlparse_with ref (scheme b1) = Some u -> rooted u = true ->
  urljoin base1 ref = urljoin base2 ref.
Proof.
  unfold urlparse. intros Hn1 Hn2 Hr Hb1 Hb2 Hs Hnl Hu Hrooted.
  unfold urljoin. rewrite Hn1, Hn2, Hr, Hb1, Hb2. simpl.
  rewrite <- Hs, Hu.
  destruct (negb (String.eqb (scheme u) (scheme b1))
            || negb (in_list (scheme u) uses_relative)) eqn:E1; [done|].
  apply orb_false_iff in E1 as [_ Hrel]. apply negb_false_iff in Hrel.
  rewrite (uses_relative_netloc _ Hrel). simpl.
  destruct (nonempty (netloc u)) eqn:E2; [done|].
  unfold rooted in Hrooted. rewrite E2 in Hrooted. simpl in Hrooted.
  rewrite Hrooted.
  rewrite (startswith_nonempty "/" (path u)) by done. simpl.
  by rewrite Hnl.
Qed.

Lemma resolve_all_rooted key base1 base2 b1 b2 elements :
  nonempty base1 = true -> nonempty base2 = true ->
  urlparse base1 = Some b1 -> urlparse base2 = Some b2 ->
  scheme b1 = scheme b2 -> netloc b1 = netloc b2 ->
  (∀ el ref u, el ∈ elements -> get key el = Some ref ->
               urlparse_with ref (scheme b1) = Some u -> rooted u = true) ->
  resolve_all key base1 elements = resolve_all key base2 elements.
Proof.
  intros Hn1 Hn2 Hb1 Hb2 Hs Hnl. unfold resolve_all.
  induction elements as [|el els IH]; [done|]. intros Hall. simpl.
  rewrite IH by (intros el' ref u Hin; apply Hall; by right). f_equal.
  destruct (get key el) as [ref|] eqn:Eg; [|done].
  destruct (nonempty ref) eqn:En; [|done].
  destruct (urlparse_with ref (scheme b1)) as [u|] eqn:Eu.
  - rewrite (urljoin_rooted base1 base2 ref b1 b2 u); try done.
    apply (Hall el ref u); [by left|done|done].
  - unfold urljoin. unfold urlparse in Hb1, Hb2.
    rewrite Hn1, Hn2, En, Hb1, Hb2. simpl. by rewrite <- Hs, Eu.
Qed.

End JoinFacts.

(* ===================================================================== *)
(** ** Further properties of the code *)
(* ===================================================================== *)

Module Keys.
Import PyStr UrlLib Soup Crawl Spec Fixture StrFacts UrlFacts Normalize Counting
  Invariant Cancellation Claims TextFacts Suffix.

(** X1: the key of an address does not depend on its fragment or on its
    query.  For an address [A] without [#], appending [#] and any fragment
    leaves [normalize_url] as it is; when [A] has no [?] either, so does
    appending [?] and any query.  (Where [urlparse] raises on [A] it raises
    on the longer address too.) *)
Theorem normalize_url_ignores_query_and_fragment (A q f : string) :
  has_char "#" A = false ->
  normalize_url (A +:+ "#" +:+ f) = normalize_url A ∧
  (has_char "?" A = false ->
   normalize_url (A +:+ "?" +:+ q) = normalize_url A).
Proof.
  intros Hf. split.
  - apply (normalize_url_app A "#" f); auto.
  - intros Hq. apply (normalize_url_app A "?" q); auto.
Qed.

(** X2: for an address without [#], [?] and [;], one or two slashes
    appended do not change the key: [.../path/] and [.../path] are one page
    to the crawler. *)
Theorem normalize_url_ignores_trailing_slash (A : string) :
  has_char "#" A = false -> has_char "?" A = false ->
  has_char ";" A = false ->
  normalize_url (A +:+ "/") = normalize_url A ∧
  normalize_url (A +:+ "//") = normalize_url A.
Proof.
  intros Hf Hq Hs.
  pose proof (normalize_url_app_slash A Hf Hq Hs) as H1. split; [done|].
  change (A +:+ "//") with (A +:+ ("/" +:+ "/")).
  rewrite <- app_assoc', <- H1.
  apply normalize_url_app_slash; rewrite has_char_app; simpl;
    by rewrite ?Hf, ?Hq, ?Hs.
Qed.

(** X1, at [https://a.com/p] with the fragment [top] and the query [page=2] *)
Lemma normalize_url_ignores_query_and_fragment_witness :
  normalize_url "https://a.com/p#top" = normalize_url "https://a.com/p" ∧
  normalize_url "https://a.com/p?page=2" = normalize_url "https://a.com/p".
Proof.
  assert (has_char "#" "https://a.com/p" = false) as Hf by (by vm_compute).
  assert (has_char "?" "https://a.com/p" = false) as Hq by (by vm_compute).
  destruct (normalize_url_ignores_query_and_fragment
              "https://a.com/p" "page=2" "top" Hf) as [H1 H2].
  split; [exact H1|exact (H2 Hq)].
Defined.

(** X2, at [https://a.com/p] *)
Lemma normalize_url_ignores_trailing_slash_witness :
  normalize_url "https://a.com/p/" = normalize_url "https://a.com/p".
Proof.
  assert (has_char "#" "https://a.com/p" = false) as Hf by (by vm_compute).
  assert (has_char "?" "https://a.com/p" = false) as Hq by (by vm_compute).
  assert (has_char ";" "https://a.com/p" = false) as Hs by (by vm_compute).
  apply (normalize_url_ignores_trailing_slash "https://a.com/p" Hf Hq Hs).
Defined.

End Keys.

Module Pages.
Import PyStr UrlLib Soup Crawl Spec Fixture StrFacts UrlFacts Normalize Counting
  Invariant Cancellation Claims TextFacts JoinFacts.

Section ParserPages.
Variable BeautifulSoup : string -> node.

(** X7: [get_html] returns a body exactly when a response arrived with a
    status of at most 399 and a [content-type] header that contains
    [text/html], in that letter case; the body returned is the response's
    text.  A response without the header is rejected. *)
Theorem get_html_accepts (o : fetch_outcome) (html : string) :
  get_html o = Some html <->
  ∃ status before after,
    o = Response status (Some (before +:+ "text/html" +:+ after)) html ∧
    status ≤ 399.
Proof.
  split.
  - destruct o as [|status header text]; simpl; [done|].
    destruct (Z.gtb_spec status 399); [done|].
    destruct (contains "text/html" (default EmptyString header)) eqn:E;
      [|done].
    simpl. intros [= ->].
    apply contains_spec in E as (before & after & E).
    destruct header as [ct|]; simpl in E.
    + subst ct. exists status, before, after. split; [done|lia].
    + by destruct before.
  - intros (status & before & after & -> & Hs). simpl.
    destruct (Z.gtb_spec status 399); [lia|].
    assert (contains "text/html" (before +:+ "text/html" +:+ after) = true)
      as -> by (apply contains_spec; eauto).
    done.
Qed.

(** X4: the heading and the first paragraph extracted from a page neither
    start nor end with white space: stripping them again changes nothing. *)
Theorem extracted_text_is_trimmed (html : string) :
  strip is_space (get_h1_from_html BeautifulSoup html)
    = get_h1_from_html BeautifulSoup html ∧
  strip is_space (get_first_paragraph_from_html BeautifulSoup html)
    = get_first_paragraph_from_html BeautifulSoup html.
Proof.
  unfold get_h1_from_html, get_first_paragraph_from_html, h1_of_soup,
    first_paragraph_of_soup.
  split.
  - destruct (find "h1" _); [apply get_text_strip_trimmed|done].
  - destruct (find "main" _) as [m|].
    + destruct (find "p" m); [apply get_text_strip_trimmed|done].
    + destruct (find "p" _); [apply get_text_strip_trimmed|done].
Qed.

(** X3: [get_h1_from_html] returns the text of the first [h1] element of
    the document, in document order and wherever it stands; the empty
    string when the document has no [h1]; and the empty string as well when
    the first [h1] holds no text node. *)
Theorem h1_by_cases (html : string) :
  let soup := BeautifulSoup html in
  (∀ x, first_tag "h1" soup x ->
        get_h1_from_html BeautifulSoup html = get_text_strip x) ∧
  (no_tag "h1" soup -> get_h1_from_html BeautifulSoup html = EmptyString) ∧
  (∀ x, first_tag "h1" soup x ->
        (∀ y, y ∈ descendants x -> ∀ s, y ≠ Text s) ->
        get_h1_from_html BeautifulSoup html = EmptyString).
Proof.
  unfold get_h1_from_html, h1_of_soup. simpl. split; [|split].
  - intros x Hx%find_first. by rewrite Hx.
  - intros H%find_none. by rewrite H.
  - intros x Hx%find_first Hno. rewrite Hx.
    unfold get_text_strip. by rewrite stripped_strings_no_text.
Qed.

(** X5: on a page with no [h1] and no [p], whose anchors have no [href]
    or an empty one and whose images have no [src] or an empty one,
    [extract_page_data] returns the page's address with an empty heading, an
    empty paragraph, no link and no image. *)
Theorem extract_page_data_of_bare_page (html page_url : string) :
  let soup := BeautifulSoup html in
  no_tag "h1" soup -> no_tag "p" soup ->
  (∀ a, a ∈ find_all "a" soup ->
        get "href" a = None ∨ get "href" a = Some EmptyString) ->
  (∀ img, img ∈ find_all "img" soup ->
          get "src" img = None ∨ get "src" img = Some EmptyString) ->
  extract_page_data BeautifulSoup html page_url
    = mkPage page_url EmptyString EmptyString [] [].
Proof.
  simpl. intros Hh1%find_none Hp Ha Hi.
  unfold extract_page_data, get_h1_from_html, get_first_paragraph_from_html,
    get_urls_from_html, get_images_from_html, h1_of_soup,
    first_paragraph_of_soup, urls_of_soup, images_of_soup.
  rewrite Hh1, (resolve_all_nothing _ _ _ Ha), (resolve_all_nothing _ _ _ Hi).
  f_equal.
  destruct (find "main" (BeautifulSoup html)) as [m|] eqn:Hm.
  - assert (find "p" m = None) as ->; [|done].
    apply find_none. intros y Hy. apply Hp.
    apply (descendants_trans _ m); [|done].
    apply find_first in Hm as (before & after & Hd & _ & _).
    rewrite Hd. apply elem_of_app. right. left.
  - apply find_none in Hp. by rewrite Hp.
Qed.

(** X6: the links recorded for a page ([extract_page_data], which
    resolves against the page's address) are the links of the fan-out
    ([get_urls_from_html] against the seed) when the page's address has the
    scheme and the netloc of the seed and every [href] of the page is
    rooted: it names a host, or its path starts with [/]. *)
Theorem links_agree_on_rooted_references (html page_url seed : string)
    (p s : ParseResult) :
  nonempty page_url = true -> nonempty seed = true ->
  urlparse page_url = Some p -> urlparse seed = Some s ->
  scheme p = scheme s -> netloc p = netloc s ->
  (∀ a ref u, a ∈ find_all "a" (BeautifulSoup html) ->
              get "href" a = Some ref ->
              urlparse_with ref (scheme p) = Some u -> rooted u = true) ->
  outgoing_links (extract_page_data BeautifulSoup html page_url)
    = get_urls_from_html BeautifulSoup html seed.
Proof.
  intros Hn1 Hn2 Hp Hs Hsch Hnl Hall. simpl.
  unfold get_urls_from_html, urls_of_soup.
  by apply (resolve_all_rooted "href" page_url seed p s).
Qed.

End ParserPages.

(** X5, on a page that is plain text *)
Lemma extract_page_data_of_bare_page_witness :
  extract_page_data site_soup bare_html "https://a.com"
    = mkPage "https://a.com" EmptyString EmptyString [] [].
Proof.
  assert (find_all "a" (site_soup bare_html) = []) as Ea by (by vm_compute).
  assert (find_all "img" (site_soup bare_html) = []) as Ei by (by vm_compute).
  apply (extract_page_data_of_bare_page site_soup bare_html "https://a.com").
  - apply find_none. by vm_compute.
  - apply find_none. by vm_compute.
  - rewrite Ea. intros a Ha. by apply elem_of_nil in Ha.
  - rewrite Ei. intros a Ha. by apply elem_of_nil in Ha.
Defined.

(** X6, on a page below the seed whose link is [/link1] *)
Lemma links_agree_on_rooted_references_witness :
  outgoing_links (extract_page_data rooted_soup leaf_html
                    "https://blog.boot.dev/posts/one")
    = get_urls_from_html rooted_soup leaf_html "https://blog.boot.dev".
Proof.
  apply (links_agree_on_rooted_references rooted_soup leaf_html
           "https://blog.boot.dev/posts/one" "https://blog.boot.dev"
           (mkParse "https" "blog.boot.dev" "/posts/one"
                    EmptyString EmptyString EmptyString)
           (mkParse "https" "blog.boot.dev" EmptyString
                    EmptyString EmptyString EmptyString));
    try (by vm_compute).
  intros a ref u Ha. vm_compute in Ha.
  apply list_elem_of_singleton in Ha as ->.
  intros [= <-] Hu. vm_compute in Hu. by inversion Hu; subst.
Defined.

End Pages.

Module Runs.
Import PyStr UrlLib Soup Crawl Spec Fixture StrFacts UrlFacts Normalize Counting
  Invariant Cancellation Claims Steps Family Termination.

Section ParserCrawl.
Variable BeautifulSoup : string -> node.

(** X10: no step of a run removes an entry of the ledger: along every run
    the set of keys grows and the number of entries does not decrease. *)
Theorem ledger_only_grows (w w' : crawler) :
  reachable BeautifulSoup w w' ->
  dom (page_data w) ⊆ dom (page_data w') ∧
  (size (page_data w) ≤ size (page_data w'))%nat.
Proof.
  induction 1 as [|w1 w2 w3 (o & tid & Hstep) _ [IH1 IH2]]; [done|].
  destruct (run_task_ledger_grows _ _ _ _ _ Hstep) as [H1 H2].
  split; [by etrans|lia].
Qed.

(** X12: the stop flag is only ever set on a full ledger: in every world
    of a run in which [should_stop] is set, the ledger holds at least
    [max_pages] entries. *)
Theorem stop_only_when_full (seed : string) (max_concurrency max_pages : Z)
    (w0 w : crawler) :
  init seed max_concurrency max_pages = Some w0 ->
  reachable BeautifulSoup w0 w ->
  should_stop w = true ->
  max_pages ≤ Z.of_nat (size (page_data w)).
Proof.
  intros Hinit Hreach.
  destruct (init_fields _ _ _ _ Hinit) as (r & Hr & Hmc & Hw0).
  destruct (reachable_consts _ _ _ Hreach) as (_ & _ & _ & Hmp).
  assert (Crawl.max_pages w0 = max_pages) as Hmp0 by (by subst w0).
  rewrite <- Hmp0, <- Hmp.
  apply (invariant_reachable BeautifulSoup
           (λ w, should_stop w = true ->
                 Crawl.max_pages w ≤ Z.of_nat (size (page_data w)))
           w0 w Hreach); eauto using wf_init, family_init, live_init.
  - by subst w0.
  - intros o tid t w1 w2 _ _ _ IH Ht Hrun Htr Hs2.
    destruct (run_task_consts _ _ _ _ _ Hrun) as (_ & _ & _ & ->).
    destruct (run_task_ledger_grows _ _ _ _ _ Hrun) as [_ Hsz].
    destruct (should_stop w1) eqn:Hs1.
    + specialize (IH eq_refl). lia.
    + destruct (transition_stop _ _ _ _ _ _ Htr Hs1 Hs2) as [Hfull ->]. done.
Qed.

(** X17: with [max_pages] zero or negative the crawl records nothing and
    sends no request: in every world of a run the ledger is empty, every
    slot is free, no task was created and no unit is past its reservation;
    [crawl_site_async] returns the empty mapping after the root's first
    step. *)
Theorem nonpositive_limit_records_nothing (seed : string)
    (max_concurrency max_pages : Z) (w0 w : crawler) :
  init seed max_concurrency max_pages = Some w0 ->
  max_pages ≤ 0 ->
  reachable BeautifulSoup w0 w ->
  page_data w = ∅ ∧
  semaphore w = max_concurrency ∧
  next_task w = 1%nat ∧
  (∀ i t, tasks w !! i = Some t -> t_pc t = Start ∨ t_pc t = Done) ∧
  ∀ o, crawl_site_async BeautifulSoup seed max_concurrency max_pages
         [(0%nat, o)] = Some ∅.
Proof.
  intros Hinit Hmp Hreach.
  destruct (init_fields _ _ _ _ Hinit) as (r & Hr & Hmc & Hw0).
  assert (page_data w = ∅ ∧ semaphore w = max_concurrency ∧
          next_task w = 1%nat ∧ Crawl.max_pages w ≤ 0 ∧
          (∀ i t, tasks w !! i = Some t -> t_pc t = Start ∨ t_pc t = Done))
    as (H1 & H2 & H3 & _ & H4).
  { apply (invariant_reachable BeautifulSoup
             (λ w, page_data w = ∅ ∧ semaphore w = max_concurrency ∧
                   next_task w = 1%nat ∧ Crawl.max_pages w ≤ 0 ∧
                   (∀ i t, tasks w !! i = Some t ->
                           t_pc t = Start ∨ t_pc t = Done))
             w0 w Hreach); eauto using wf_init, family_init, live_init.
    - subst w0. simpl. repeat split; try done.
      intros i t [<- <-]%lookup_singleton_Some. by left.
    - intros o tid t w1 w2 _ _ _ (Hd & Hs & Hn & Hm & Hts) Ht Hrun Htr.
      assert (∀ w', page_data w' = ∅ -> semaphore w' = max_concurrency ->
                next_task w' = 1%nat -> Crawl.max_pages w' ≤ 0 ->
                (∀ i t, tasks w' !! i = Some t -> t_pc t = Start ∨ t_pc t = Done) ->
                page_data (finish tid w') = ∅ ∧
                semaphore (finish tid w') = max_concurrency ∧
                next_task (finish tid w') = 1%nat ∧
                Crawl.max_pages (finish tid w') ≤ 0 ∧
                (∀ i t, tasks (finish tid w') !! i = Some t ->
                        t_pc t = Start ∨ t_pc t = Done)) as Hfin.
      { intros w' ? ? ? ? Hts'. repeat split; try done.
        intros i ti. destruct (decide (tid = i)) as [<-|Hne].
        - rewrite finish_lookup_eq. destruct (tasks w' !! tid); [|done].
          simpl. intros [= <-]. by right.
        - rewrite finish_lookup_ne by done. apply Hts'. }
      pose proof (Hts _ _ Ht) as Hpc.
      destruct Htr as [_|k _ _ _ _|k _ _ _ _ _ Hroom|k Hpc' _ _
                      |k Hpc' _|k html Hpc' _ _|children Hpc' _].
      + by apply Hfin.
      + apply Hfin; try done. intros i ti Hi.
        destruct (cancel_all_keeps _ _ _ Hi) as (t' & Hi' & -> & _).
        by apply (Hts i).
      + rewrite Hd, map_size_empty in Hroom. lia.
      + destruct Hpc; congruence.
      + destruct Hpc; congruence.
      + destruct Hpc; congruence.
      + destruct Hpc; congruence. }
  repeat split; try done.
  intros o. unfold crawl_site_async, crawl. rewrite Hinit. subst w0. simpl.
  unfold run_task. simpl. rewrite lookup_singleton_eq. simpl.
  unfold crawl_page_enter. simpl. rewrite Hr, String.eqb_refl. simpl.
  unfold normalize_url. rewrite Hr. unfold add_page_visit. simpl.
  rewrite bool_decide_eq_false_2 by (rewrite dom_empty; apply not_elem_of_empty).
  rewrite map_size_empty.
  destruct (Z.geb_spec (Z.of_nat 0) max_pages); [|lia]. simpl.
  rewrite lookup_alter_eq, map_lookup_imap, lookup_singleton_eq. simpl.
  done.
Qed.

(** X18: with [max_concurrency = 0] and a positive [max_pages], [crawl]
    never returns: the root waits for a slot that no task holds, the ledger
    stays empty, and after the first step nothing can be resumed. *)
Theorem zero_concurrency_never_returns (seed : string) (max_pages : Z)
    (w0 w : crawler) :
  init seed 0 max_pages = Some w0 ->
  0 < max_pages ->
  reachable BeautifulSoup w0 w ->
  ¬ finished w ∧
  page_data w = ∅ ∧
  (w ≠ w0 -> ∀ o tid, run_task BeautifulSoup o tid w = None).
Proof.
  intros Hinit Hmp Hreach.
  destruct (init_fields _ _ _ _ Hinit) as (r & Hr & _ & Hw0).
  assert (∃ k, normalize_url seed = Some k) as [k Hk].
  { unfold normalize_url. rewrite Hr. eauto. }
  set (parked := suspend 0 (WaitSem k) w0).
  assert (run_task_w0 : ∀ o tid w', run_task BeautifulSoup o tid w0 = Some w' ->
                                    w' = parked).
  { intros o tid w'. unfold parked. subst w0. unfold run_task. simpl.
    destruct (decide (tid = 0%nat)) as [->|Hne];
      [|by rewrite lookup_singleton_ne].
    rewrite lookup_singleton_eq. simpl. unfold crawl_page_enter. simpl.
    rewrite Hr, String.eqb_refl, Hk. simpl. unfold add_page_visit. simpl.
    rewrite bool_decide_eq_false_2
      by (rewrite dom_empty; apply not_elem_of_empty).
    rewrite map_size_empty.
    destruct (Z.geb_spec (Z.of_nat 0) max_pages); [lia|].
    by intros [= <-]. }
  assert (run_task_parked : ∀ o tid, run_task BeautifulSoup o tid parked = None).
  { intros o tid. unfold parked. subst w0. unfold run_task. simpl.
    destruct (decide (tid = 0%nat)) as [->|Hne].
    - by rewrite lookup_alter_eq, lookup_singleton_eq.
    - by rewrite lookup_alter_ne, lookup_singleton_ne. }
  assert (w = w0 ∨ w = parked) as Hcases.
  { clear -Hreach run_task_w0 run_task_parked.
    induction Hreach as [|w1 w2 w3 (o & tid & Hstep) Hr IH]; [by left|].
    apply run_task_w0 in Hstep. subst w2.
    inversion Hr as [|? w4 ? (o' & tid' & Hstep')]; subst; [by right|].
    by rewrite run_task_parked in Hstep'. }
  destruct Hcases as [->| ->].
  - split; [|split; [by subst w0|done]].
    intros (t & Ht & Hd). subst w0. simpl in Ht.
    rewrite lookup_singleton_eq in Ht. by inversion Ht; subst.
  - split; [|split; [by subst w0|by intros _]].
    intros (t & Ht & Hd). unfold parked in Ht. subst w0. simpl in Ht.
    rewrite lookup_alter_eq, lookup_singleton_eq in Ht.
    by inversion Ht; subst.
Qed.

(** X14: when [crawl] returns, every task has ended, [all_tasks] is empty
    and every slot of the semaphore is back; nothing can be resumed any
    more. *)
Theorem finished_crawl_is_quiescent (seed : string)
    (max_concurrency max_pages : Z) (w0 w : crawler) :
  init seed max_concurrency max_pages = Some w0 ->
  reachable BeautifulSoup w0 w ->
  finished w ->
  (∀ i t, tasks w !! i = Some t -> t_pc t = Done) ∧
  all_tasks w = ∅ ∧
  semaphore w = max_concurrency ∧
  ∀ o tid, run_task BeautifulSoup o tid w = None.
Proof.
  intros Hinit Hreach Hfin.
  pose proof (wf_reachable _ _ _ Hreach (wf_init _ _ _ _ Hinit)) as Hw.
  pose proof (live_reachable _ _ _ Hreach (wf_init _ _ _ _ Hinit)
                (live_init _ _ _ _ Hinit)) as Hl.
  pose proof (family_reachable _ _ _ Hreach (wf_init _ _ _ _ Hinit)
                (family_init _ _ _ _ Hinit)) as Hf.
  pose proof (finished_all_done _ Hl Hf Hfin) as Hdone.
  destruct (reachable_consts _ _ _ Hreach) as (_ & _ & Hmc & _).
  destruct (init_fields _ _ _ _ Hinit) as (r & _ & _ & Hw0).
  split; [done|]. split; [|split].
  - apply set_eq. intros i. split; [|by intros ?%elem_of_empty].
    intros Hi. by apply (finished_unregistered _ Hl Hf Hfin) in Hi.
  - pose proof (wf_sem _ Hw) as Hsem.
    assert (fetching w = 0%nat) as Hnone.
    { apply count_none. intros i t Hi. unfold is_fetching.
      by rewrite (Hdone _ _ Hi). }
    rewrite Hnone, Hmc in Hsem. subst w0. simpl in Hsem. lia.
  - intros o tid. unfold run_task.
    destruct (tasks w !! tid) as [t|] eqn:Ht; [|done].
    by rewrite (Hdone _ _ Ht).
Qed.

(** X13: the coroutine [crawl_page(base_url)] that [crawl] awaits is
    never in [all_tasks] and its cancellation is never requested: reaching
    the page limit cancels the tasks created for links only. *)
Theorem root_is_never_cancelled (seed : string)
    (max_concurrency max_pages : Z) (w0 w : crawler) :
  init seed max_concurrency max_pages = Some w0 ->
  reachable BeautifulSoup w0 w ->
  (0%nat ∉ all_tasks w) ∧
  ∃ t0, tasks w !! 0%nat = Some t0 ∧ t_url t0 = seed ∧
        t_must_cancel t0 = false.
Proof.
  intros Hinit Hreach.
  pose proof (family_reachable _ _ _ Hreach (wf_init _ _ _ _ Hinit)
                (family_init _ _ _ _ Hinit)) as Hf.
  split; [by apply family_not_registered_root|].
  destruct (family_root _ Hf) as (t0 & H0 & Hc). exists t0.
  split; [done|]. split; [|done].
  destruct (init_fields _ _ _ _ Hinit) as (r & _ & _ & Hw0).
  revert t0 H0 Hc.
  apply (invariant_reachable BeautifulSoup
           (λ w, ∀ t0, tasks w !! 0%nat = Some t0 -> t_must_cancel t0 = false ->
                       t_url t0 = seed)
           w0 w Hreach); eauto using wf_init, family_init, live_init.
  - subst w0. simpl. intros t0. rewrite lookup_singleton_eq. by intros [= <-].
  - intros o tid t w1 w2 Hw1 Hf1 _ IH Ht Hrun _ t0 H0 _.
    destruct (family_root _ Hf1) as (t1 & H1 & Hc1).
    rewrite <- (IH t1 H1 Hc1). clear IH.
    assert (∃ t', tasks w2 !! 0%nat = Some t' ∧ t_url t' = t_url t1)
      as (t' & H0' & <-); [|congruence].
    clear H0 t0. revert Hrun. unfold run_task. rewrite Ht.
    assert (∀ p (wa : crawler) ta,
              tasks wa !! 0%nat = Some ta -> t_url ta = t_url t1 ->
              ∃ t', tasks (suspend tid p wa) !! 0%nat = Some t' ∧
                    t_url t' = t_url t1) as Hsus.
    { intros p wa ta Ha Hu. destruct (decide (tid = 0%nat)) as [->|Hne].
      - rewrite suspend_lookup_eq, Ha. simpl. eauto.
      - rewrite suspend_lookup_ne by done. eauto. }
    destruct (t_pc t) as [|k|k|children|] eqn:Hpc; [| | | |done].
    + destruct (t_must_cancel t); intros [= <-]; [by apply (Hsus Done w1 t1)|].
      unfold crawl_page_enter.
      destruct (should_stop w1); [by apply (Hsus Done w1 t1)|].
      destruct (urlparse _); [|by apply (Hsus Done w1 t1)].
      destruct (negb _); [by apply (Hsus Done w1 t1)|].
      destruct (normalize_url _) as [k|]; [|by apply (Hsus Done w1 t1)].
      destruct (add_page_visit k w1) as [b wa] eqn:E.
      destruct (add_page_visit_frame _ _ _ _ E)
        as (_ & _ & _ & _ & _ & _ & _ & _ & Hts).
      destruct (Hts _ _ H1) as (ta & Ha & _ & Hu).
      destruct b; simpl; [|by apply (Hsus Done wa ta)].
      unfold acquire. destruct (0 <? semaphore wa).
      * by apply (Hsus _ (with_semaphore _ wa) ta).
      * by apply (Hsus _ wa ta).
    + destruct (t_must_cancel t); [intros [= <-]; by apply (Hsus Done w1 t1)|].
      destruct (0 <? semaphore w1); intros [= <-].
      by apply (Hsus _ (with_semaphore _ w1) t1).
    + destruct (t_must_cancel t); intros [= <-];
        [by apply (Hsus Done (release w1) t1)|].
      unfold crawl_page_fetched.
      destruct (get_html o) as [html|];
        [|by apply (Hsus Done (release w1) t1)].
      destruct (should_stop _);
        [by apply (Hsus Done (release (record_page _ _ w1)) t1)|].
      rewrite spawn_unfold. apply (Hsus _ _ t1); [|done].
      apply with_children_lookup_old; [|done]. simpl. by eapply wf_fresh.
    + destruct (all_done _ _); intros [= <-].
      by apply (Hsus Done (discard_tasks _ w1) t1).
Qed.

(** X11: in every world of a run, each record of the ledger is what
    [extract_page_data] returns for some fetched body and the record's own
    [url]: its links and images are resolved against that address. *)
Theorem ledger_records_are_extractions (seed : string)
    (max_concurrency max_pages : Z) (w0 w : crawler)
    (k : string) (info : page_info) :
  init seed max_concurrency max_pages = Some w0 ->
  reachable BeautifulSoup w0 w ->
  page_data w !! k = Some info ->
  ∃ html, info = extract_page_data BeautifulSoup html (url info).
Proof.
  intros Hinit Hreach. revert k info.
  destruct (init_fields _ _ _ _ Hinit) as (r & _ & _ & Hw0).
  apply (invariant_reachable BeautifulSoup
           (λ w, ∀ k info, page_data w !! k = Some info ->
                   ∃ html, info = extract_page_data BeautifulSoup html (url info))
           w0 w Hreach); eauto using wf_init, family_init, live_init.
  - subst w0. simpl. intros k info. by rewrite lookup_empty.
  - intros o tid t w1 w2 _ _ _ IH Ht Hrun Htr k info.
    destruct (transition_ledger _ _ _ _ _ _ Htr)
      as [->|(k' & html & _ & _ & _ & ->)]; [apply IH|].
    destruct (decide (k' = k)) as [->|Hne].
    + rewrite lookup_insert_eq. intros [= <-]. by exists html.
    + rewrite lookup_insert_ne by done. apply IH.
Qed.

(** X8: a unit started on an address whose key is already in the ledger
    ends at once, whatever the stop flag and whether or not it was
    cancelled: no slot is taken, no request is sent, and the ledger, the
    stop flag and the task counter are as before. *)
Theorem visited_address_is_not_fetched_again (o : fetch_outcome) (tid : nat)
    (t : task) (k : string) (w : crawler) :
  tasks w !! tid = Some t ->
  t_pc t = Start ->
  normalize_url (t_url t) = Some k ->
  k ∈ dom (page_data w) ->
  run_task BeautifulSoup o tid w = Some (finish tid w) ∧
  page_data (finish tid w) = page_data w ∧
  semaphore (finish tid w) = semaphore w ∧
  should_stop (finish tid w) = should_stop w ∧
  next_task (finish tid w) = next_task w ∧
  tasks (finish tid w) !! tid = Some (set_pc Done t).
Proof.
  intros Ht Hpc Hk Hin. split.
  - unfold run_task. rewrite Ht, Hpc. destruct (t_must_cancel t); [done|].
    unfold crawl_page_enter. destruct (should_stop w) eqn:Hs; [done|].
    destruct (urlparse (t_url t)); [|done].
    destruct (negb _); [done|]. rewrite Hk.
    unfold add_page_visit. rewrite Hs. by rewrite bool_decide_eq_true_2.
  - repeat split. by rewrite finish_lookup_eq, Ht.
Qed.

(** X9: a reservation leaves no mark before the page is recorded.  Two
    units not yet run, on addresses of the seed's host with one key that is
    not in the ledger, are both granted while the ledger is below the
    limit: after one step of each, both wait for a slot or are inside
    [get_html] for that key, and the ledger is unchanged. *)
Theorem same_address_granted_twice (o o' : fetch_outcome) (i j : nat)
    (ti tj : task) (k : string) (w : crawler) :
  i ≠ j ->
  tasks w !! i = Some ti -> tasks w !! j = Some tj ->
  t_pc ti = Start -> t_pc tj = Start ->
  t_must_cancel ti = false -> t_must_cancel tj = false ->
  should_stop w = false ->
  in_scope w (t_url ti) k -> in_scope w (t_url tj) k ->
  k ∉ dom (page_data w) ->
  Z.of_nat (size (page_data w)) < max_pages w ->
  ∃ w1 w2 pi pj,
    run_task BeautifulSoup o i w = Some w1 ∧
    run_task BeautifulSoup o' j w1 = Some w2 ∧
    tasks w2 !! i = Some (set_pc pi ti) ∧
    tasks w2 !! j = Some (set_pc pj tj) ∧
    (pi = WaitSem k ∨ pi = Fetching k) ∧
    (pj = WaitSem k ∨ pj = Fetching k) ∧
    page_data w2 = page_data w.
Proof.
  intros Hij Hi Hj Hpi Hpj Hci Hcj Hs Hini Hinj Hk Hroom.
  destruct (acquire_frame i k w) as (Hd1 & Hs1 & Hm1 & Hb1).
  destruct (acquire_frame j k (acquire i k w)) as (Hd2 & _).
  destruct (acquire_lookup_eq i k w ti Hi) as (pi & Hi1 & Hpi1).
  assert (tasks (acquire i k w) !! j = Some tj) as Hj1
      by (by rewrite acquire_lookup_ne).
  destruct (acquire_lookup_eq j k _ tj Hj1) as (pj & Hj2 & Hpj2).
  exists (acquire i k w), (acquire j k (acquire i k w)), pi, pj.
  split; [by apply (run_task_granted _ o i ti k w)|].
  split.
  { assert (in_scope (acquire i k w) (t_url tj) k) as Hinj1.
    { destruct Hinj as (r & ? & ? & ?). exists r. by rewrite Hb1. }
    assert (k ∉ dom (page_data (acquire i k w))) as Hk1 by (by rewrite Hd1).
    assert (Z.of_nat (size (page_data (acquire i k w)))
            < max_pages (acquire i k w)) as Hroom1 by (by rewrite Hd1, Hm1).
    assert (should_stop (acquire i k w) = false) as Hstop1 by congruence.
    by apply (run_task_granted _ o' j tj k). }
  split; [by rewrite acquire_lookup_ne|].
  split; [done|]. split; [done|]. split; [done|]. congruence.
Qed.

(** X15: with at least one slot a run cannot get stuck: in every world of
    a run in which [crawl] has not returned, some task can be resumed,
    whatever the network answers. *)
Theorem crawl_can_always_proceed (seed : string)
    (max_concurrency max_pages : Z) (w0 w : crawler) :
  init seed max_concurrency max_pages = Some w0 ->
  1 ≤ max_concurrency ->
  reachable BeautifulSoup w0 w ->
  ¬ finished w ->
  ∃ tid t, tasks w !! tid = Some t ∧ runnable w t = true ∧
           ∀ o, is_Some (run_task BeautifulSoup o tid w).
Proof.
  intros Hinit Hmc Hreach Hnf.
  pose proof (wf_reachable _ _ _ Hreach (wf_init _ _ _ _ Hinit)) as Hw.
  pose proof (family_reachable _ _ _ Hreach (wf_init _ _ _ _ Hinit)
                (family_init _ _ _ _ Hinit)) as Hf.
  destruct (reachable_consts _ _ _ Hreach) as (_ & _ & Hc & _).
  destruct (init_fields _ _ _ _ Hinit) as (r & _ & _ & Hw0).
  assert (1 ≤ Crawl.max_concurrency w) as Hmcw
      by (rewrite Hc; by subst w0).
  destruct (some_task_runnable w Hw Hf Hmcw Hnf) as (tid & t & Ht & Hr).
  exists tid, t. split; [done|]. split; [done|].
  intros o. by apply (run_task_runnable _ o tid t).
Qed.

(** X16: every run ends: from the start of [crawl], and from any world of
    a run, there is no infinite sequence of steps, whatever the pages link
    to and whatever the network answers. *)
Theorem crawl_terminates (seed : string) (max_concurrency max_pages : Z)
    (w0 : crawler) :
  init seed max_concurrency max_pages = Some w0 ->
  sn (step BeautifulSoup) w0 ∧
  ∀ w, reachable BeautifulSoup w0 w -> sn (step BeautifulSoup) w.
Proof.
  intros Hinit. pose proof (wf_init _ _ _ _ Hinit) as Hw0.
  split; [by apply wf_terminates|].
  intros w Hreach. apply wf_terminates. by eapply wf_reachable.
Qed.

(** X19: a crawl of one page.  With at least one slot and a limit of at
    least one page the seed is requested first; when the answer is
    unusable, [crawl_site_async] returns the empty mapping; when it is a
    page without links, it returns the one entry of that page, under the
    seed's key. *)
Theorem crawl_of_single_page (seed : string) (max_concurrency max_pages : Z)
    (o o' : fetch_outcome) (r : ParseResult) :
  urlparse seed = Some r ->
  1 ≤ max_concurrency -> 1 ≤ max_pages ->
  let result := crawl_site_async BeautifulSoup seed max_concurrency max_pages
                  [(0%nat, o'); (0%nat, o)] in
  let key := lower (rstrip is_slash (netloc r +:+ path r)) in
  match get_html o with
  | None => result = Some ∅
  | Some html =>
      get_urls_from_html BeautifulSoup html seed = [] ->
      result = Some {[ key := extract_page_data BeautifulSoup html seed ]}
  end.
Proof.
  intros Hr Hmc Hmp result key.
  destruct (init seed max_concurrency max_pages) as [w0|] eqn:Hinit;
    [|unfold init in Hinit; rewrite Hr in Hinit;
      by destruct (Z.ltb_spec max_concurrency 0); [lia|]].
  destruct (init_fields _ _ _ _ Hinit) as (r' & Hr' & _ & Hw0).
  rewrite Hr in Hr'. inversion Hr'; subst r'. clear Hr'.
  set (w1 := suspend 0 (Fetching key)
               (with_semaphore (max_concurrency - 1) w0)).
  assert (run_task BeautifulSoup o' 0 w0 = Some w1) as E1.
  { rewrite (run_task_granted _ o' 0%nat (mkTask seed Start false) key w0).
    - unfold acquire, w1. subst w0. simpl.
      by destruct (Z.ltb_spec 0 max_concurrency); [|lia].
    - subst w0. simpl. by rewrite lookup_singleton_eq.
    - done.
    - done.
    - by subst w0.
    - exists r. subst w0. simpl. split; [done|]. split; [done|].
      unfold normalize_url. by rewrite Hr.
    - subst w0. simpl. rewrite dom_empty. apply not_elem_of_empty.
    - subst w0. simpl. rewrite map_size_empty. lia. }
  assert (tasks w1 !! 0%nat = Some (mkTask seed (Fetching key) false)) as Ht1.
  { unfold w1. rewrite suspend_lookup_eq. subst w0. simpl.
    by rewrite lookup_singleton_eq. }
  assert (run_task BeautifulSoup o 0 w1
          = Some (crawl_page_fetched BeautifulSoup 0 seed key o w1)) as E2.
  { unfold run_task. by rewrite Ht1. }
  assert (result =
          match tasks (crawl_page_fetched BeautifulSoup 0 seed key o w1) !! 0%nat with
          | Some t => if task_done t
                      then Some (page_data
                                   (crawl_page_fetched BeautifulSoup 0 seed key o w1))
                      else None
          | None => None
          end) as ->.
  { unfold result, crawl_site_async, crawl. rewrite Hinit. simpl.
    by rewrite E1, E2. }
  unfold crawl_page_fetched. destruct (get_html o) as [html|].
  - assert (base_url (record_page key
                        (extract_page_data BeautifulSoup html seed) w1) = seed)
      as -> by (by subst w0).
    intros ->. rewrite spawn_nil.
    assert (∀ a b, tasks (release (record_page a b w1)) = tasks w1) as Hts
        by done.
    destruct (should_stop _); rewrite finish_lookup_eq, Hts, Ht1; simpl;
      subst w0; simpl; by rewrite insert_empty.
  - assert (tasks (release w1) = tasks w1) as Hts by done.
    rewrite finish_lookup_eq, Hts, Ht1. simpl. by subst w0.
Qed.

End ParserCrawl.

(** X8, on the link back to the front page, which was recorded *)
Lemma visited_address_is_not_fetched_again_witness :
  tasks loop_world !! 1%nat = Some (mkTask "https://a.com/" Start false) ∧
  run_task loop_soup Raised 1 loop_world = Some (finish 1 loop_world).
Proof.
  assert (tasks loop_world !! 1%nat
          = Some (mkTask "https://a.com/" Start false)) as Ht by (by vm_compute).
  assert (normalize_url "https://a.com/" = Some "a.com") as Hk
      by (by vm_compute).
  assert ("a.com" ∈ dom (page_data loop_world)) as Hin.
  { apply elem_of_dom. eexists. by vm_compute. }
  split; [exact Ht|].
  apply (visited_address_is_not_fetched_again loop_soup Raised 1%nat
           (mkTask "https://a.com/" Start false) "a.com" loop_world
           Ht eq_refl Hk Hin).
Defined.

(** X9, on the two spellings [/x] and [/x/] of one page *)
Lemma same_address_granted_twice_witness :
  ∃ w1 w2 pi pj,
    run_task twin_soup Raised 1 twin_world = Some w1 ∧
    run_task twin_soup Raised 2 w1 = Some w2 ∧
    tasks w2 !! 1%nat = Some (mkTask "https://a.com/x" pi false) ∧
    tasks w2 !! 2%nat = Some (mkTask "https://a.com/x/" pj false) ∧
    (pi = WaitSem "a.com/x" ∨ pi = Fetching "a.com/x") ∧
    (pj = WaitSem "a.com/x" ∨ pj = Fetching "a.com/x").
Proof.
  assert (tasks twin_world !! 1%nat
          = Some (mkTask "https://a.com/x" Start false)) as H1 by (by vm_compute).
  assert (tasks twin_world !! 2%nat
          = Some (mkTask "https://a.com/x/" Start false)) as H2 by (by vm_compute).
  assert (in_scope twin_world "https://a.com/x" "a.com/x") as Hs1.
  { exists (mkParse "https" "a.com" "/x" EmptyString EmptyString EmptyString).
    by vm_compute. }
  assert (in_scope twin_world "https://a.com/x/" "a.com/x") as Hs2.
  { exists (mkParse "https" "a.com" "/x/" EmptyString EmptyString EmptyString).
    by vm_compute. }
  assert ("a.com/x" ∉ dom (page_data twin_world)) as Hk.
  { apply not_elem_of_dom. by vm_compute. }
  assert (Z.of_nat (size (page_data twin_world)) < max_pages twin_world)
    as Hroom by (by vm_compute).
  assert (should_stop twin_world = false) as Hstop by (by vm_compute).
  assert (1%nat ≠ 2%nat) as Hne by lia.
  destruct (same_address_granted_twice twin_soup Raised Raised 1%nat 2%nat
              (mkTask "https://a.com/x" Start false)
              (mkTask "https://a.com/x/" Start false) "a.com/x" twin_world
              Hne H1 H2 eq_refl eq_refl eq_refl eq_refl Hstop
              Hs1 Hs2 Hk Hroom)
    as (w1 & w2 & pi & pj & E1 & E2 & T1 & T2 & P1 & P2 & _).
  exists w1, w2, pi, pj.
  split; [exact E1|]. split; [exact E2|]. split; [exact T1|].
  split; [exact T2|]. split; [exact P1|exact P2].
Defined.

(** X10, on the example site from the start to the end of the run *)
Lemma ledger_only_grows_witness :
  reachable site_soup (site_init 2) (site_world 2 over_limit_schedule) ∧
  (size (page_data (site_init 2))
   ≤ size (page_data (site_world 2 over_limit_schedule)))%nat.
Proof.
  assert (reachable site_soup (site_init 2) (site_world 2 over_limit_schedule))
    as Hr by (apply (site_world_reachable 2 over_limit_schedule); by vm_compute).
  split; [exact Hr|]. apply (ledger_only_grows site_soup _ _ Hr).
Defined.

(** X11, on the record of [/x] at the end of the run *)
Lemma ledger_records_are_extractions_witness :
  ∃ info html,
    page_data (site_world 2 over_limit_schedule) !! "a.com/x" = Some info ∧
    info = extract_page_data site_soup html (url info).
Proof.
  assert (reachable site_soup (site_init 2) (site_world 2 over_limit_schedule))
    as Hr by (apply (site_world_reachable 2 over_limit_schedule); by vm_compute).
  assert (page_data (site_world 2 over_limit_schedule) !! "a.com/x"
          = Some (extract_page_data site_soup leaf_html "https://a.com/x"))
    as Hk by (by vm_compute).
  destruct (ledger_records_are_extractions site_soup "https://a.com" 1 2
              (site_init 2) _ "a.com/x" _ (site_init_eq 2) Hr Hk)
    as [html Hhtml].
  eexists _, html. split; [exact Hk|exact Hhtml].
Defined.

(** X12, on the example site with a limit of one page *)
Lemma stop_only_when_full_witness :
  should_stop (site_world 1 child_fetching) = true ∧
  1 ≤ Z.of_nat (size (page_data (site_world 1 child_fetching))).
Proof.
  assert (reachable site_soup (site_init 1) (site_world 1 child_fetching))
    as Hr by (apply (site_world_reachable 1 child_fetching); by vm_compute).
  assert (should_stop (site_world 1 child_fetching) = true) as Hs
      by (by vm_compute).
  split; [exact Hs|].
  apply (stop_only_when_full site_soup "https://a.com" 1 1 (site_init 1) _
           (site_init_eq 1) Hr Hs).
Defined.

(** X13, on the example site after the limit was reached *)
Lemma root_is_never_cancelled_witness :
  should_stop (site_world 1 child_fetching) = true ∧
  ∃ t0, tasks (site_world 1 child_fetching) !! 0%nat = Some t0 ∧
        t_url t0 = "https://a.com" ∧ t_must_cancel t0 = false.
Proof.
  assert (reachable site_soup (site_init 1) (site_world 1 child_fetching))
    as Hr by (apply (site_world_reachable 1 child_fetching); by vm_compute).
  split; [by vm_compute|].
  apply (root_is_never_cancelled site_soup "https://a.com" 1 1 (site_init 1) _
           (site_init_eq 1) Hr).
Defined.

(** X14, on the example site at the end of the run *)
Lemma finished_crawl_is_quiescent_witness :
  finished (site_world 2 over_limit_schedule) ∧
  all_tasks (site_world 2 over_limit_schedule) = ∅ ∧
  semaphore (site_world 2 over_limit_schedule) = 1.
Proof.
  assert (reachable site_soup (site_init 2) (site_world 2 over_limit_schedule))
    as Hr by (apply (site_world_reachable 2 over_limit_schedule); by vm_compute).
  assert (finished (site_world 2 over_limit_schedule)) as Hf
      by (eexists; split; by vm_compute).
  destruct (finished_crawl_is_quiescent site_soup "https://a.com" 1 2
              (site_init 2) _ (site_init_eq 2) Hr Hf) as (_ & Ha & Hs & _).
  split; [exact Hf|]. split; [exact Ha|exact Hs].
Defined.

(** X15, on the example site when [crawl] starts *)
Lemma crawl_can_always_proceed_witness :
  ¬ finished (site_init 2) ∧
  ∃ tid t, tasks (site_init 2) !! tid = Some t ∧
           runnable (site_init 2) t = true.
Proof.
  assert (¬ finished (site_init 2)) as Hnf.
  { intros (t & Ht & Hd). vm_compute in Ht. inversion Ht; subst. done. }
  split; [exact Hnf|].
  destruct (crawl_can_always_proceed site_soup "https://a.com" 1 2
              (site_init 2) (site_init 2) (site_init_eq 2) ltac:(lia)
              (rtc_refl _ _) Hnf) as (tid & t & Ht & Hr & _).
  by exists tid, t.
Defined.

(** X16, on the example site *)
Lemma crawl_terminates_witness : sn (step site_soup) (site_init 2).
Proof.
  destruct (crawl_terminates site_soup "https://a.com" 1 2 (site_init 2)
              (site_init_eq 2)) as [H _].
  exact H.
Defined.

(** X17, on the example site with a limit of zero pages *)
Lemma nonpositive_limit_records_nothing_witness :
  reachable site_soup (site_init 0) (site_world 0 root_fetching) ∧
  page_data (site_world 0 root_fetching) = ∅.
Proof.
  assert (reachable site_soup (site_init 0) (site_world 0 root_fetching))
    as Hr by (apply (site_world_reachable 0 root_fetching); by vm_compute).
  split; [exact Hr|].
  apply (nonpositive_limit_records_nothing site_soup "https://a.com" 1 0
           (site_init 0) _ (site_init_eq 0) ltac:(lia) Hr).
Defined.

(** X18, on the example site without a slot *)
Lemma zero_concurrency_never_returns_witness :
  init "https://a.com" 0 2 = Some blocked_init ∧
  reachable site_soup blocked_init blocked_world ∧
  ¬ finished blocked_world.
Proof.
  assert (init "https://a.com" 0 2 = Some blocked_init) as Hi by reflexivity.
  assert (reachable site_soup blocked_init blocked_world) as Hr
      by (apply (run_schedule_reachable site_soup root_fetching); by vm_compute).
  split; [exact Hi|]. split; [exact Hr|].
  apply (zero_concurrency_never_returns site_soup "https://a.com" 2
           blocked_init blocked_world Hi ltac:(lia) Hr).
Defined.

(** X19, on a seed that answers 404 *)
Lemma crawl_of_single_page_witness :
  crawl_site_async site_soup "https://a.com" 1 1
    [(0%nat, Raised); (0%nat, not_found)] = Some ∅.
Proof.
  apply (crawl_of_single_page site_soup "https://a.com" 1 1 not_found Raised
           (mkParse "https" "a.com" EmptyString EmptyString EmptyString
                    EmptyString)
           eq_refl ltac:(lia) ltac:(lia)).
Defined.

End Runs.
